(** * SocialSchedule / leads_gen: the lead generation pipeline of
    [src/leads_gen/email_scraping.py], embedded in Rocq.

    The file follows the source top to bottom: the Python string primitives
    the code calls, [Config], [EnhancedAPIKeyRotator], [LeadGenerator]
    (domain extraction, the duplicate filter, batch generation and the
    orchestration loop) and [LeadSegmenter] (the adoption classifier and the
    segmentation pass), then the key loading of the rotator, its statistics,
    [PromptGenerator] and [main].  Definitions come first, the theorems
    follow: those of the specification, then further properties of the code.

    Modelling conventions.
    - A Python [str] is a [string] of 8-bit characters, the code points 0 to
      255; [lower] and [strip] treat them as Python does, the accented
      capitals and the white space above 127 included.
    - A [float] is a binary64 number of the standard library's [SpecFloat],
      with its correctly rounded operations.
    - A [dict] is a [gmap], a [set] a [gset].
    - A raised exception is the [Raise] result of the error monad [result];
      [try]/[except] is a match on it.
    - Calls that leave the program (the remote model, the clock, the random
      generator, pandas) are fields of oracle records, universally quantified
      in the theorems. *)

From Stdlib Require Import Ascii String QArith SpecFloat.
From stdpp Require Import gmap strings list fin_maps sorting pretty.

Close Scope Q_scope.
Local Open Scope stdpp_scope.

(** ** Exceptions and the error monad *)

Inductive exn : Type :=
| ValueError (msg : string)
| IndexError
| AttributeError (attr : string)
| UnicodeDecodeError
| FileNotFoundError (path : string)
| KeyError (key : string)
| ZeroDivisionError
| TypeError
| OtherError (msg : string).

Inductive result (A : Type) : Type :=
| Ok (a : A)
| Raise (e : exn).
Arguments Ok {A} a.
Arguments Raise {A} e.

#[global] Instance result_ret : MRet result := fun A a => Ok a.
#[global] Instance result_bind : MBind result := fun A B k m =>
  match m with
  | Ok a => k a
  | Raise e => Raise e
  end.

(** ** Python string primitives *)

Module Py.

Definition ascii_between (lo hi c : ascii) : bool :=
  (nat_of_ascii lo <=? nat_of_ascii c)%nat && (nat_of_ascii c <=? nat_of_ascii hi)%nat.

Definition is_upper (c : ascii) : bool := ascii_between "A" "Z" c.
Definition is_digit (c : ascii) : bool := ascii_between "0" "9" c.

(** The capitals among the code points 0 to 255: A-Z, and the accented
    capitals 192 to 222 without the multiplication sign 215. *)
Definition is_capital (c : ascii) : bool :=
  let n := nat_of_ascii c in
  is_upper c || ((192 <=? n) && (n <=? 222) && negb (n =? 215))%nat.

(** [str.lower] on one character: the small letter of a capital lies 32
    above it; every other character of the range stays. *)
Definition lower_char (c : ascii) : ascii :=
  if is_capital c then ascii_of_nat (nat_of_ascii c + 32) else c.

Fixpoint lower (s : string) : string :=
  match s with
  | EmptyString => EmptyString
  | String c s' => String (lower_char c) (lower s')
  end.

(** The characters [str.strip()] removes: TAB LF VT FF CR, FS GS RS US, the
    space, NEL (133) and the no-break space (160). *)
Definition is_space (c : ascii) : bool :=
  let n := nat_of_ascii c in
  ((9 <=? n) && (n <=? 13) || (28 <=? n) && (n <=? 32)
   || (n =? 133) || (n =? 160))%nat.

Fixpoint lstrip (s : string) : string :=
  match s with
  | EmptyString => EmptyString
  | String c s' => if is_space c then lstrip s' else s
  end.

Fixpoint rstrip (s : string) : string :=
  match s with
  | EmptyString => EmptyString
  | String c s' =>
      match rstrip s' with
      | EmptyString => if is_space c then EmptyString else String c EmptyString
      | r => String c r
      end
  end.

Definition strip (s : string) : string := rstrip (lstrip s).

(** [s.split(sep)] for a one-character separator: never the empty list. *)
Fixpoint split (sep : ascii) (s : string) : list string :=
  match s with
  | EmptyString => [EmptyString]
  | String c s' =>
      if Ascii.eqb c sep then EmptyString :: split sep s'
      else match split sep s' with
           | [] => [String c EmptyString]
           | w :: ws => String c w :: ws
           end
  end.

(** [sep.join(l)] *)
Definition join (sep : string) (l : list string) : string := String.concat sep l.

(** [s.startswith(p)] *)
Definition startswith (p s : string) : bool := String.prefix p s.

(** [c in s] for a one-character [c] *)
Fixpoint contains (c : ascii) (s : string) : bool :=
  match s with
  | EmptyString => false
  | String d s' => Ascii.eqb d c || contains c s'
  end.

(** [s.count(c)] for a one-character [c] *)
Fixpoint count (c : ascii) (s : string) : nat :=
  match s with
  | EmptyString => 0
  | String d s' => (if Ascii.eqb d c then 1 else 0) + count c s'
  end.

(** [l[0]] *)
Definition item0 (l : list string) : result string :=
  match l with
  | [] => Raise IndexError
  | x :: _ => Ok x
  end.

(** The text left after the literal [p] when [s] starts with it. *)
Fixpoint remove_prefix (p s : string) : option string :=
  match p, s with
  | EmptyString, _ => Some s
  | String a p', String b s' => if Ascii.eqb a b then remove_prefix p' s' else None
  | String _ _, EmptyString => None
  end.

(** Truthiness of a [str]: [if s:] *)
Definition truthy (s : string) : bool :=
  match s with EmptyString => false | _ => true end.

End Py.

(** ** LeadGenerator._extract_domain *)

(** [re.sub(r'^https?://', '', s)] *)
Definition re_sub_protocol (s : string) : string :=
  match Py.remove_prefix "https://" s with
  | Some rest => rest
  | None =>
      match Py.remove_prefix "http://" s with
      | Some rest => rest
      | None => s
      end
  end.

(** [re.sub(r'^www\.', '', s)] *)
Definition re_sub_www (s : string) : string :=
  match Py.remove_prefix "www." s with
  | Some rest => rest
  | None => s
  end.

Definition extract_domain_body (url : string) : result string :=
  let domain := re_sub_protocol (Py.lower url) in
  let domain := re_sub_www domain in
  before_slash ← Py.item0 (Py.split "/" domain);
  Py.item0 (Py.split "?" before_slash).

(** The bare [except:] returns [url.lower()]. *)
Definition _extract_domain (url : string) : string :=
  match extract_domain_body url with
  | Ok domain => domain
  | Raise _ => Py.lower url
  end.

(** ** Config *)

Record Config := {
  num_batches : nat;
  concurrency_level : nat;
  leads_per_batch : nat;
  api_delay : Q;
  backup_interval : nat;
  max_retries : nat;
  retry_delay : Q;
  min_opportunity_score : nat;
  duplicate_check_enabled : bool;
  email_validation_enabled : bool;
  timestamp : string;
  output_file : string;
  backup_file : string;
  progress_file : string;
  premium_leads_file : string;
  standard_leads_file : string;
  emerging_leads_file : string
}.

(** [Config()] with the dataclass defaults; [ts] is what
    [datetime.now().strftime('%Y%m%d_%H%M')] gave when the class was made. *)
Definition Config_default (ts : string) : Config := {|
  num_batches := 667;
  concurrency_level := 12;
  leads_per_batch := 15;
  api_delay := (3 # 10)%Q;
  backup_interval := 25;
  max_retries := 3;
  retry_delay := 2%Q;
  min_opportunity_score := 60;
  duplicate_check_enabled := true;
  email_validation_enabled := true;
  timestamp := ts;
  output_file := "MASTER_LEADS_10K_" +:+ ts +:+ ".csv";
  backup_file := "leads_backup_" +:+ ts +:+ ".json";
  progress_file := "progress_checkpoint_" +:+ ts +:+ ".json";
  premium_leads_file := "PREMIUM_leads_" +:+ ts +:+ ".csv";
  standard_leads_file := "standard_leads_" +:+ ts +:+ ".csv";
  emerging_leads_file := "emerging_business_leads_" +:+ ts +:+ ".csv"
|}.

Inductive pyval : Type :=
| VInt (n : nat)
| VFloat (q : Q)
| VBool (b : bool)
| VStr (s : string).

(** The attributes a [Config] instance has: the dataclass fields. *)
Definition Config_attrs (c : Config) : list (string * pyval) :=
  [ ("num_batches", VInt (num_batches c));
    ("concurrency_level", VInt (concurrency_level c));
    ("leads_per_batch", VInt (leads_per_batch c));
    ("api_delay", VFloat (api_delay c));
    ("backup_interval", VInt (backup_interval c));
    ("max_retries", VInt (max_retries c));
    ("retry_delay", VFloat (retry_delay c));
    ("min_opportunity_score", VInt (min_opportunity_score c));
    ("duplicate_check_enabled", VBool (duplicate_check_enabled c));
    ("email_validation_enabled", VBool (email_validation_enabled c));
    ("timestamp", VStr (timestamp c));
    ("output_file", VStr (output_file c));
    ("backup_file", VStr (backup_file c));
    ("progress_file", VStr (progress_file c));
    ("premium_leads_file", VStr (premium_leads_file c));
    ("standard_leads_file", VStr (standard_leads_file c));
    ("emerging_leads_file", VStr (emerging_leads_file c)) ].

Fixpoint assoc (name : string) (l : list (string * pyval)) : option pyval :=
  match l with
  | [] => None
  | (k, v) :: l' => if String.eqb k name then Some v else assoc name l'
  end.

(** [self.config.<attr>]: an attribute the instance lacks raises
    [AttributeError]. *)
Definition Config_getattr (c : Config) (attr : string) : result pyval :=
  match assoc attr (Config_attrs c) with
  | Some v => Ok v
  | None => Raise (AttributeError attr)
  end.

(** ** EnhancedAPIKeyRotator *)

Record EnhancedAPIKeyRotator := {
  api_keys : list string;
  current_key_index : nat;
  key_usage_count : gmap string nat;
  key_error_count : gmap string nat;
  max_requests_per_key : nat;
  max_errors_per_key : nat
}.

(** [__init__] after [_load_api_keys] returned [keys]; with no key the
    process exits, which is the [None] here. *)
Definition EnhancedAPIKeyRotator_init (keys : list string) : option EnhancedAPIKeyRotator :=
  match keys with
  | [] => None
  | _ => Some {| api_keys := keys; current_key_index := 0;
                 key_usage_count := ∅; key_error_count := ∅;
                 max_requests_per_key := 150; max_errors_per_key := 5 |}
  end.

Definition set_current_key_index (i : nat) (r : EnhancedAPIKeyRotator) : EnhancedAPIKeyRotator :=
  {| api_keys := api_keys r; current_key_index := i;
     key_usage_count := key_usage_count r; key_error_count := key_error_count r;
     max_requests_per_key := max_requests_per_key r;
     max_errors_per_key := max_errors_per_key r |}.

Definition set_key_usage_count (m : gmap string nat) (r : EnhancedAPIKeyRotator) : EnhancedAPIKeyRotator :=
  {| api_keys := api_keys r; current_key_index := current_key_index r;
     key_usage_count := m; key_error_count := key_error_count r;
     max_requests_per_key := max_requests_per_key r;
     max_errors_per_key := max_errors_per_key r |}.

Definition set_key_error_count (m : gmap string nat) (r : EnhancedAPIKeyRotator) : EnhancedAPIKeyRotator :=
  {| api_keys := api_keys r; current_key_index := current_key_index r;
     key_usage_count := key_usage_count r; key_error_count := m;
     max_requests_per_key := max_requests_per_key r;
     max_errors_per_key := max_errors_per_key r |}.

(** [d.get(key, 0)] *)
Definition get0 (d : gmap string nat) (key : string) : nat := default 0 (d !! key).

Definition get_current_key (r : EnhancedAPIKeyRotator) : result string :=
  match api_keys r with
  | [] => Raise (ValueError "No valid API keys available")
  | _ =>
      match api_keys r !! current_key_index r with
      | Some key => Ok key
      | None => Raise IndexError
      end
  end.

(** The [for _ in range(len(self.api_keys))] loop of [rotate_key], with
    [fuel] iterations left: step to the next index, stop at the first
    candidate below the error cap. *)
Fixpoint rotate_scan (fuel : nat) (r : EnhancedAPIKeyRotator) : result EnhancedAPIKeyRotator :=
  match fuel with
  | O => Ok r
  | S fuel' =>
      let r1 := set_current_key_index ((current_key_index r + 1) mod length (api_keys r)) r in
      candidate_key ← get_current_key r1;
      if get0 (key_error_count r1) candidate_key <? max_errors_per_key r1
      then Ok r1
      else rotate_scan fuel' r1
  end.

(** [rotate_key]; [rnd] is the outcome of [random.random() < 0.05]. *)
Definition rotate_key (rnd : bool) (r : EnhancedAPIKeyRotator)
  : result (string * EnhancedAPIKeyRotator) :=
  if length (api_keys r) =? 1 then
    key ← get_current_key r; Ok (key, r)
  else
    current_key ← get_current_key r;
    let usage_count := get0 (key_usage_count r) current_key in
    let error_count := get0 (key_error_count r) current_key in
    let should_rotate :=
      (max_requests_per_key r <=? usage_count)
      || (max_errors_per_key r <=? error_count)
      || rnd in
    if should_rotate then
      r' ← rotate_scan (length (api_keys r)) r;
      new_key ← get_current_key r';
      Ok (new_key, r')
    else Ok (current_key, r).

(** [mark_key_error(key)]; [None] is the default argument. *)
Definition mark_key_error (key : option string) (rnd : bool) (r : EnhancedAPIKeyRotator)
  : result EnhancedAPIKeyRotator :=
  key ← match key with
        | None => get_current_key r
        | Some k => Ok k
        end;
  let r1 := set_key_error_count
              (<[key := get0 (key_error_count r) key + 1]> (key_error_count r)) r in
  if max_errors_per_key r1 <=? get0 (key_error_count r1) key then
    '(_, r2) ← rotate_key rnd r1; Ok r2
  else Ok r1.

Definition increment_usage (r : EnhancedAPIKeyRotator) : result EnhancedAPIKeyRotator :=
  current_key ← get_current_key r;
  Ok (set_key_usage_count
        (<[current_key := get0 (key_usage_count r) current_key + 1]> (key_usage_count r)) r).

(** [configure_genai]; [configure_raises] says whether [genai.configure]
    raised. *)
Definition configure_genai (configure_raises rnd : bool) (r : EnhancedAPIKeyRotator)
  : result (bool * EnhancedAPIKeyRotator) :=
  match (key ← get_current_key r;
         if configure_raises then Raise (OtherError "genai.configure") else Ok key) with
  | Ok _ => Ok (true, r)
  | Raise _ => r' ← mark_key_error None rnd r; Ok (false, r')
  end.

(** ** LeadGenerator: state *)

Record Stats := {
  completed_batches : nat;
  total_leads_generated : nat;
  failed_batches : nat;
  duplicates_prevented : nat
}.

(** One element of [backup_data]: [{'timestamp': ..., 'data': ...}]. *)
Record BackupEntry := {
  entry_timestamp : string;
  entry_data : string
}.

Record LeadGenerator := {
  config : Config;
  api_rotator : EnhancedAPIKeyRotator;
  backup_data : list BackupEntry;
  generated_emails : gset string;
  generated_names : gset string;
  generated_domains : gset string;
  stats : Stats
}.

(** [LeadGenerator(config)], given the keys the rotator loaded. *)
Definition LeadGenerator_init (cfg : Config) (keys : list string) : option LeadGenerator :=
  r ← EnhancedAPIKeyRotator_init keys;
  Some {| config := cfg; api_rotator := r; backup_data := [];
          generated_emails := ∅; generated_names := ∅; generated_domains := ∅;
          stats := {| completed_batches := 0; total_leads_generated := 0;
                      failed_batches := 0; duplicates_prevented := 0 |} |}.

Definition set_api_rotator (r : EnhancedAPIKeyRotator) (self : LeadGenerator) : LeadGenerator :=
  {| config := config self; api_rotator := r; backup_data := backup_data self;
     generated_emails := generated_emails self; generated_names := generated_names self;
     generated_domains := generated_domains self; stats := stats self |}.

Definition set_backup_data (b : list BackupEntry) (self : LeadGenerator) : LeadGenerator :=
  {| config := config self; api_rotator := api_rotator self; backup_data := b;
     generated_emails := generated_emails self; generated_names := generated_names self;
     generated_domains := generated_domains self; stats := stats self |}.

Definition set_generated_emails (e : gset string) (self : LeadGenerator) : LeadGenerator :=
  {| config := config self; api_rotator := api_rotator self; backup_data := backup_data self;
     generated_emails := e; generated_names := generated_names self;
     generated_domains := generated_domains self; stats := stats self |}.

Definition set_generated_names (n : gset string) (self : LeadGenerator) : LeadGenerator :=
  {| config := config self; api_rotator := api_rotator self; backup_data := backup_data self;
     generated_emails := generated_emails self; generated_names := n;
     generated_domains := generated_domains self; stats := stats self |}.

Definition set_generated_domains (d : gset string) (self : LeadGenerator) : LeadGenerator :=
  {| config := config self; api_rotator := api_rotator self; backup_data := backup_data self;
     generated_emails := generated_emails self; generated_names := generated_names self;
     generated_domains := d; stats := stats self |}.

Definition set_stats (st : Stats) (self : LeadGenerator) : LeadGenerator :=
  {| config := config self; api_rotator := api_rotator self; backup_data := backup_data self;
     generated_emails := generated_emails self; generated_names := generated_names self;
     generated_domains := generated_domains self; stats := st |}.

Definition add_completed_batches (k : nat) (st : Stats) : Stats :=
  {| completed_batches := completed_batches st + k;
     total_leads_generated := total_leads_generated st;
     failed_batches := failed_batches st;
     duplicates_prevented := duplicates_prevented st |}.

Definition add_total_leads_generated (k : nat) (st : Stats) : Stats :=
  {| completed_batches := completed_batches st;
     total_leads_generated := total_leads_generated st + k;
     failed_batches := failed_batches st;
     duplicates_prevented := duplicates_prevented st |}.

Definition add_failed_batches (k : nat) (st : Stats) : Stats :=
  {| completed_batches := completed_batches st;
     total_leads_generated := total_leads_generated st;
     failed_batches := failed_batches st + k;
     duplicates_prevented := duplicates_prevented st |}.

Definition add_duplicates_prevented (k : nat) (st : Stats) : Stats :=
  {| completed_batches := completed_batches st;
     total_leads_generated := total_leads_generated st;
     failed_batches := failed_batches st;
     duplicates_prevented := duplicates_prevented st + k |}.

(** ** LeadGenerator._parse_and_filter_batch *)

Definition LF : ascii := "010"%char.
Definition newline : string := String LF EmptyString.

(** [parts[i]] *)
Definition item (parts : list string) (i : nat) : result string :=
  match parts !! i with
  | Some p => Ok p
  | None => Raise IndexError
  end.

(** The three identity keys of a line, [(name, email, domain)]; [None] when
    the line has fewer than three fields. *)
Definition line_keys (line : string) : result (option (string * string * string)) :=
  let parts := map Py.strip (Py.split "," line) in
  if length parts <? 3 then Ok None
  else
    p0 ← item parts 0;
    p1 ← item parts 1;
    p2 ← item parts 2;
    let name := Py.strip (Py.lower p0) in
    let email := Py.strip (Py.lower p1) in
    let website := Py.strip p2 in
    let domain := _extract_domain website in
    Ok (Some (name, email, domain)).

(** The duplicate test of lines 348-350. *)
Definition is_duplicate (self : LeadGenerator) (name email domain : string) : bool :=
  bool_decide (email ∈ generated_emails self)
  || bool_decide (name ∈ generated_names self)
  || bool_decide (domain ∈ generated_domains self).

(** Lines 355-358: the domain is added only when it is not empty. *)
Definition register_keys (self : LeadGenerator) (name email domain : string) : LeadGenerator :=
  let self := set_generated_emails ({[email]} ∪ generated_emails self) self in
  let self := set_generated_names ({[name]} ∪ generated_names self) self in
  if Py.truthy domain
  then set_generated_domains ({[domain]} ∪ generated_domains self) self
  else self.

(** The lines the loop skips before it parses: blank ones and headers. *)
Definition skipped_line (line : string) : bool :=
  negb (Py.truthy (Py.strip line)) || Py.startswith "name," line.

(** One iteration of the [for line in lines] loop on
    [(self, filtered_lines, duplicates_found)]. *)
Definition filter_step (st : LeadGenerator * list string * nat) (line : string)
  : LeadGenerator * list string * nat :=
  let '(self, filtered_lines, duplicates_found) := st in
  if skipped_line line then st
  else
    match line_keys line with
    | Ok None => st
    | Ok (Some (name, email, domain)) =>
        if is_duplicate self name email domain
        then (self, filtered_lines, duplicates_found + 1)
        else (register_keys self name email domain, filtered_lines ++ [line], duplicates_found)
    | Raise _ => st
    end.

Definition _parse_and_filter_batch (self : LeadGenerator) (batch_data : string)
  : LeadGenerator * string :=
  if negb (Py.truthy batch_data) then (self, EmptyString)
  else
    let lines := Py.split LF (Py.strip batch_data) in
    let '(self, filtered_lines, duplicates_found) := foldl filter_step (self, [], 0) lines in
    let self :=
      if 0 <? duplicates_found
      then set_stats (add_duplicates_prevented duplicates_found (stats self)) self
      else self in
    (self, Py.join newline filtered_lines).

(** ** The world outside the process: files and the log *)

Inductive file_content : Type :=
| Text (s : string)
| Json (entries : list BackupEntry).

(** The log lines that report an outcome. *)
Inductive log_event : Type :=
| ErrorInBatch (batch_number : nat) (e : exn)
| BatchSuccess (batch_num estimated_leads : nat)
| BatchInsufficient (batch_num : nat)
| Progress (completed total leads : nat)
| BackupSaved (entries : nat)
| FinalStats (s : Stats) (unique_emails : nat)
| SegmentationUnavailable
| SegmentationLoaded (records : nat)
| SegmentationCompleted (records : nat)
| SegmentationError (e : exn).

Record World := {
  files : gmap string file_content;
  log : list log_event
}.

Definition write_file (path : string) (c : file_content) (w : World) : World :=
  {| files := <[path := c]> (files w); log := log w |}.

Definition logger (ev : log_event) (w : World) : World :=
  {| files := files w; log := log w ++ [ev] |}.

(** What the run cannot decide by itself. *)
Record Response := { text : result string }.

Record Environment := {
  (** [await self.model.generate_content_async(prompt, ...)] of batch [n] *)
  generate_content_async : nat → result Response;
  (** when that call resolves; the tasks of a window resume in this order *)
  completion_time : nat → nat;
  (** [random.random() < 0.05] in the [rotate_key] of batch [n] *)
  random_rotation : nat → bool;
  (** whether [genai.configure] raises for batch [n], and the random draw of
      the [rotate_key] that [mark_key_error] may then call *)
  configure_raises : nat → bool;
  random_rotation_on_error : nat → bool;
  (** [datetime.now().isoformat()] when the [k]-th backup entry is made *)
  isoformat_now : nat → string
}.

(** ** LeadGenerator.generate_batch *)

(** The [except Exception] of [generate_batch]: log, count, return [None]. *)
Definition batch_failed (batch_number : nat) (e : exn) (self : LeadGenerator) (w : World)
  : LeadGenerator * World :=
  (set_stats (add_failed_batches 1 (stats self)) self,
   logger (ErrorInBatch batch_number e) w).

(** [generate_batch] up to its [await]: rotate, configure.  The prompt is
    built from [batch_number] and the state and handed to the remote call. *)
Definition generate_batch_request (E : Environment) (batch_number : nat) (self : LeadGenerator)
  : result LeadGenerator :=
  '(_, r1) ← rotate_key (random_rotation E batch_number) (api_rotator self);
  '(_, r2) ← configure_genai (configure_raises E batch_number)
                             (random_rotation_on_error E batch_number) r1;
  Ok (set_api_rotator r2 self).

(** [generate_batch] from the point where the remote call resolves. *)
Definition generate_batch_resume (E : Environment) (batch_number : nat)
    (self : LeadGenerator) (w : World) : LeadGenerator * World * option string :=
  match generate_content_async E batch_number with
  | Raise e => (batch_failed batch_number e self w, None)
  | Ok response =>
      match increment_usage (api_rotator self) with
      | Raise e => (batch_failed batch_number e self w, None)
      | Ok r =>
          let self := set_api_rotator r self in
          match text response with
          | Raise e => (batch_failed batch_number e self w, None)
          | Ok response_text =>
              let '(self, filtered_data) :=
                _parse_and_filter_batch self (Py.strip response_text) in
              (self, w, Some filtered_data)
          end
      end
  end.

(** ** asyncio.gather over the tasks of one window *)

(** The state of a window in flight: the generator, the world, the batches
    waiting for their response, and the results already returned. *)
Definition in_flight : Type :=
  LeadGenerator * World * list nat * gmap nat (option string).

Definition start_task (E : Environment) (st : in_flight) (n : nat) : in_flight :=
  let '(self, w, pending, results) := st in
  match generate_batch_request E n self with
  | Ok self' => (self', w, pending ++ [n], results)
  | Raise e =>
      let '(self', w') := batch_failed n e self w in
      (self', w', pending, <[n := None]> results)
  end.

Definition resume_task (E : Environment)
    (st : LeadGenerator * World * gmap nat (option string)) (n : nat)
  : LeadGenerator * World * gmap nat (option string) :=
  let '(self, w, results) := st in
  let '(self', w', r) := generate_batch_resume E n self w in
  (self', w', <[n := r]> results).

(** The order in which the pending calls resolve. *)
Definition resolves_before (E : Environment) (a b : nat) : Prop :=
  completion_time E a ≤ completion_time E b.

#[global] Instance resolves_before_dec E a b : Decision (resolves_before E a b).
Proof. unfold resolves_before. apply _. Defined.

Definition completion_order (E : Environment) (pending : list nat) : list nat :=
  merge_sort (resolves_before E) pending.

(** [results = await asyncio.gather(...)] over the window's tasks: every
    task runs to its [await] in task order, the responses are handled in
    completion order, and the results come back in task order. *)
Definition gather (E : Environment) (batch_nums : list nat) (self : LeadGenerator) (w : World)
  : LeadGenerator * World * list (option string) :=
  let '(self, w, pending, results) := foldl (start_task E) (self, w, [], ∅) batch_nums in
  let '(self, w, results) :=
    foldl (resume_task E) (self, w, results) (completion_order E pending) in
  (self, w, map (λ n, default None (results !! n)) batch_nums).

(** ** LeadGenerator.save_results, save_backup *)

(** [data and len(data.strip()) > 50] *)
Definition enough_data (data : string) : bool :=
  Py.truthy data && (50 <? String.length (Py.strip data)).

(** [f] is the text written so far through the open handle. *)
Definition save_results (E : Environment) (data : string) (f : string) (self : LeadGenerator)
  : string * LeadGenerator :=
  if enough_data data then
    (f +:+ data +:+ newline,
     set_backup_data
       (backup_data self ++
          [ {| entry_timestamp := isoformat_now E (length (backup_data self));
               entry_data := data |} ]) self)
  else (f, self).

Definition save_backup (self : LeadGenerator) (w : World) : World :=
  logger (BackupSaved (length (backup_data self)))
    (write_file (backup_file (config self)) (Json (backup_data self)) w).

(** ** LeadGenerator.process_batches *)

Definition header : string :=
  "name,email,website,industry,business_type,location,current_social_presence_score,"
  +:+ "instagram_presence,tiktok_presence,youtube_shorts_presence,facebook_presence,"
  +:+ "linkedin_presence,last_post_estimate,follower_count_estimate,content_frequency_score,"
  +:+ "visual_content_suitability,target_demographic_alignment,competition_saturation_level,"
  +:+ "estimated_monthly_revenue,marketing_budget_indicators,pain_points,opportunity_score,"
  +:+ "contact_likelihood,ideal_content_strategy,projected_roi_potential" +:+ newline.

(** The body of [for batch_num, result in zip(batch_nums, results)].
    [generate_batch] returns a string or [None], never an exception object,
    so the [isinstance(result, Exception)] branch is not taken. *)
Definition handle_result (E : Environment) (st : LeadGenerator * World * string)
    (br : nat * option string) : LeadGenerator * World * string :=
  let '(self, w, f) := st in
  let '(batch_num, result) := br in
  match result with
  | Some r =>
      if enough_data r then
        let '(f, self) := save_results E r f self in
        let self := set_stats (add_completed_batches 1 (stats self)) self in
        let estimated_leads := Nat.max 0 (Py.count LF r) in
        let self := set_stats (add_total_leads_generated estimated_leads (stats self)) self in
        (self, logger (BatchSuccess batch_num estimated_leads) w, f)
      else (self, logger (BatchInsufficient batch_num) w, f)
  | None => (self, logger (BatchInsufficient batch_num) w, f)
  end.

(** [range(i, min(i + concurrency_level, num_batches + 1))] *)
Definition window_batch_nums (cfg : Config) (i : nat) : list nat :=
  seq i (Nat.min (i + concurrency_level cfg) (num_batches cfg + 1) - i).

(** [range(1, num_batches + 1, concurrency_level)]; a zero step raises. *)
Definition window_starts (cfg : Config) : result (list nat) :=
  if concurrency_level cfg =? 0 then Raise (ValueError "range() arg 3 must not be zero")
  else
    let windows := (num_batches cfg + concurrency_level cfg - 1) / concurrency_level cfg in
    Ok (map (λ k, 1 + k * concurrency_level cfg) (seq 0 windows)).

(** One window: gather, handle the results in batch order, report progress,
    and write a backup when the success counter is a multiple of
    [backup_interval] at that point. *)
Definition process_window (E : Environment) (i : nat) (st : LeadGenerator * World * string)
  : LeadGenerator * World * string * result () :=
  let '(self, w, f) := st in
  let cfg := config self in
  let batch_nums := window_batch_nums cfg i in
  let '(self, w, results) := gather E batch_nums self w in
  let '(self, w, f) := foldl (handle_result E) (self, w, f) (zip batch_nums results) in
  let w := logger (Progress (completed_batches (stats self)) (num_batches cfg)
                            (total_leads_generated (stats self))) w in
  if backup_interval cfg =? 0 then (self, w, f, Raise ZeroDivisionError)
  else if completed_batches (stats self) mod backup_interval cfg =? 0
       then (self, save_backup self w, f, Ok ())
       else (self, w, f, Ok ()).

Fixpoint process_windows (E : Environment) (starts : list nat)
    (st : LeadGenerator * World * string) : LeadGenerator * World * string * result () :=
  match starts with
  | [] => (st, Ok ())
  | i :: starts' =>
      match process_window E i st with
      | (st', Ok _) => process_windows E starts' st'
      | (st', Raise e) => (st', Raise e)
      end
  end.

(** [_log_final_stats]: the success rate divides by [num_batches]. *)
Definition _log_final_stats (self : LeadGenerator) (w : World) : World * result () :=
  if num_batches (config self) =? 0 then (w, Raise ZeroDivisionError)
  else (logger (FinalStats (stats self) (size (generated_emails self))) w, Ok ()).

(** [process_batches]: the handle is opened for writing (the file is
    truncated), the header is written, the windows run, the handle is closed,
    then the final backup is saved and the summary logged.  An exception
    leaves through the [with] block, which still closes the file. *)
Definition process_batches (E : Environment) (self : LeadGenerator) (w : World)
  : LeadGenerator * World * result () :=
  let out := output_file (config self) in
  match window_starts (config self) with
  | Raise e => (self, write_file out (Text header) w, Raise e)
  | Ok starts =>
      match process_windows E starts (self, w, header) with
      | (self, w, f, Raise e) => (self, write_file out (Text f) w, Raise e)
      | (self, w, f, Ok _) =>
          let w := write_file out (Text f) w in
          let w := save_backup self w in
          let '(w, r) := _log_final_stats self w in
          (self, w, r)
      end
  end.

(** ** LeadSegmenter.validate_email *)

Definition is_lower (c : ascii) : bool := Py.ascii_between "a" "z" c.
Definition is_alpha (c : ascii) : bool := is_lower c || Py.is_upper c.
Definition is_alnum (c : ascii) : bool := is_alpha c || Py.is_digit c.

(** [[a-zA-Z0-9._%+-]] and [[a-zA-Z0-9.-]] *)
Definition local_char (c : ascii) : bool :=
  is_alnum c || Py.contains c "._%+-".
Definition domain_char (c : ascii) : bool :=
  is_alnum c || Py.contains c ".-".

(** The longest prefix of characters in a class, and the rest. *)
Fixpoint span (p : ascii → bool) (s : string) : string * string :=
  match s with
  | EmptyString => (EmptyString, EmptyString)
  | String c s' =>
      if p c then let '(a, b) := span p s' in (String c a, b)
      else (EmptyString, s)
  end.

(** Some ["."] of [s] is followed by two letters. *)
Fixpoint has_dot_alpha2 (s : string) : bool :=
  match s with
  | String c ((String a (String b _)) as s') =>
      (Ascii.eqb c "." && is_alpha a && is_alpha b) || has_dot_alpha2 s'
  | _ => false
  end.

(** [re.match(r'^[a-zA-Z0-9._%+-]+@[a-zA-Z0-9.-]+\.[a-zA-Z]{2,}', email)]:
    the local part is the whole first run, which an ["@"] must follow; the
    rest of the match lies in the run of domain characters after it, one
    character at least before the dot. *)
Definition validate_email (email : string) : bool :=
  let '(local_part, rest) := span local_char email in
  Py.truthy local_part &&
  match rest with
  | String "@" after =>
      match fst (span domain_char after) with
      | String _ tail => has_dot_alpha2 tail
      | EmptyString => false
      end
  | _ => false
  end.

(** ** LeadSegmenter.calculate_adoption_level *)

(** A numeric cell after [pd.to_numeric(..., errors='coerce')]: a number, or
    NaN for what does not parse.  Numbers are the rationals they denote. *)
Inductive pynum : Type :=
| Num (q : Q)
| NaN.

(** [x or 0]: zero is falsy, NaN is truthy. *)
Definition or0 (x : pynum) : pynum :=
  match x with
  | Num q => if Qeq_bool q 0%Q then Num 0%Q else Num q
  | NaN => NaN
  end.

(** Comparisons with NaN are [False]. *)
Definition num_le (x : pynum) (b : Q) : bool :=
  match x with Num q => Qle_bool q b | NaN => false end.
Definition num_ge (x : pynum) (b : Q) : bool :=
  match x with Num q => Qle_bool b q | NaN => false end.

(** The cells of a row the classifier reads: the three numeric ones as
    [pd.to_numeric(row.get(col, 0), errors='coerce')] returns them, the others
    as [str(row.get(col, default))]. *)
Record Series := {
  current_social_presence_score : pynum;
  content_frequency_score : pynum;
  opportunity_score : pynum;
  instagram_presence : string;
  tiktok_presence : string;
  youtube_shorts_presence : string;
  follower_count_estimate : string
}.

(** [score_map.get(presence, 0)] *)
Definition score_map_get (presence : string) : nat :=
  if String.eqb presence "none" then 0
  else if String.eqb presence "minimal" then 1
  else if String.eqb presence "moderate" then 2
  else if String.eqb presence "strong" then 3
  else 0.

(** [[\d.]] *)
Definition num_char (c : ascii) : bool := Py.is_digit c || Ascii.eqb c ".".

(** [re.search(r'([\d.]+)' + suffix, s)], group 1: the first run of digits
    and dots that [suffix] follows.  [run] is the run being read. *)
Fixpoint search_suffixed (suffix : ascii) (run : string) (s : string) : option string :=
  match s with
  | EmptyString => None
  | String c s' =>
      if num_char c then search_suffixed suffix (run +:+ String c EmptyString) s'
      else if Ascii.eqb c suffix && Py.truthy run then Some run
      else search_suffixed suffix EmptyString s'
  end.

(** [re.search(r'[\d.]+', s)], group 0: the first run of digits and dots. *)
Fixpoint search_run (run : string) (s : string) : option string :=
  match s with
  | EmptyString => if Py.truthy run then Some run else None
  | String c s' =>
      if num_char c then search_run (run +:+ String c EmptyString) s'
      else if Py.truthy run then Some run
      else search_run EmptyString s'
  end.

Definition digit_value (c : ascii) : N := N.of_nat (nat_of_ascii c - 48).

Fixpoint digits_value (acc : N) (s : string) : N :=
  match s with
  | EmptyString => acc
  | String c s' => digits_value (acc * 10 + digit_value c) s'
  end.

(** Python's [float] is binary64: 53 bits of precision, exponents below
    1024.  [float_of_int n] is the [float] an [int] becomes in arithmetic and
    comparisons with a [float]; [float_mul] is [*], [float_lt] is [<] and
    [float_le] is [<=]. *)
Definition float_of_int (n : Z) : spec_float := binary_normalize 53 1024 n 0 false.
Definition float_mul : spec_float → spec_float → spec_float := SFmul 53 1024.
Definition float_lt : spec_float → spec_float → bool := SFltb.
Definition float_le : spec_float → spec_float → bool := SFleb.

(** The binary64 nearest to [n / d], ties to the even mantissa, infinite
    when [n / d] is out of range: the value [float] gives the decimal text
    that denotes [n / d]. *)
Definition float_of_ratio (n : N) (d : positive) : spec_float :=
  match n with
  | N0 => S754_zero false
  | Npos p => SFdiv 53 1024 (S754_finite false p 0) (S754_finite false d 0)
  end.

(** [float(run)] for a run of digits and dots: at most one dot, and a digit
    somewhere; anything else raises [ValueError].  The digits [whole] and
    [frac] denote the number [whole frac / 10^len(frac)]. *)
Definition py_float (run : string) : result spec_float :=
  match Py.split "." run with
  | [whole] =>
      if Py.truthy whole then Ok (float_of_ratio (digits_value 0 whole) 1)
      else Raise (ValueError "could not convert string to float")
  | [whole; frac] =>
      if Py.truthy whole || Py.truthy frac then
        Ok (float_of_ratio (digits_value 0 (whole +:+ frac))
                           (Z.to_pos (10 ^ Z.of_nat (String.length frac))))
      else Raise (ValueError "could not convert string to float")
  | _ => Raise (ValueError "could not convert string to float")
  end.

(** Lines 555-568.  [follower_count] starts as the [int] 0. *)
Definition parse_follower_count (follower_str : string) : result spec_float :=
  if Py.contains "k" follower_str then
    match search_suffixed "k" EmptyString follower_str with
    | Some g => v ← py_float g; Ok (float_mul v (float_of_int 1000))
    | None => Ok (float_of_int 0)
    end
  else if Py.contains "m" follower_str then
    match search_suffixed "m" EmptyString follower_str with
    | Some g => v ← py_float g; Ok (float_mul v (float_of_int 1000000))
    | None => Ok (float_of_int 0)
    end
  else
    match search_run EmptyString follower_str with
    | Some g => py_float g
    | None => Ok (float_of_int 0)
    end.

(** The [try] block. *)
Definition calculate_adoption_level_body (row : Series) : result string :=
  let social_score := or0 (current_social_presence_score row) in
  let content_freq := or0 (content_frequency_score row) in
  let opportunity := or0 (opportunity_score row) in
  let platforms := [instagram_presence row; tiktok_presence row; youtube_shorts_presence row] in
  let platform_scores := map (λ presence, score_map_get (Py.lower presence)) platforms in
  let avg_platform_score :=
    Qmake (Z.of_nat (foldr Nat.add 0 platform_scores)) (Pos.of_nat (length platform_scores)) in
  follower_count ← parse_follower_count (Py.lower (follower_count_estimate row));
  if num_le social_score 3 && Qle_bool avg_platform_score (1 # 2)
     && num_le content_freq 3 && float_lt follower_count (float_of_int 1000)
  then Ok "non_adopter"
  else if num_ge social_score 4 && Qle_bool (3 # 2) avg_platform_score
          && num_ge content_freq 6 && float_le (float_of_int 1000) follower_count
          && num_ge opportunity 60
  then Ok "high_volume_poor_results"
  else Ok "moderate_adopter".

Definition calculate_adoption_level (row : Series) : string :=
  match calculate_adoption_level_body row with
  | Ok level => level
  | Raise _ => "moderate_adopter"
  end.

(** ** The tabular engine *)

(** pandas is outside the program: its operations are an interface.  Each
    may raise. *)
Class Pandas := {
  DataFrame : Type;
  (** [pd.read_csv(path, encoding=...)] on the content of the file *)
  read_csv : file_content → string → result DataFrame;
  (** [len(df)] *)
  df_len : DataFrame → nat;
  (** [df.dropna(subset=cols)] *)
  dropna : list string → DataFrame → result DataFrame;
  (** lines 604-605: keep the rows whose [col] satisfies [valid] *)
  select_valid : string → (string → bool) → DataFrame → result DataFrame;
  (** [df.drop_duplicates(subset=cols, keep='first')] *)
  drop_duplicates : list string → DataFrame → result DataFrame;
  (** [df[col] = df.apply(f, axis=1)] *)
  assign_apply : string → (Series → string) → DataFrame → result DataFrame;
  (** [df[df[col] == value].copy()] *)
  select_eq : string → string → DataFrame → result DataFrame;
  (** [df.sort_values(cols, ascending=False)] *)
  sort_values : list string → DataFrame → result DataFrame;
  (** the text [df.to_csv(path, index=False)] writes *)
  to_csv : DataFrame → string
}.

(** ** Effects on the world that may raise *)

Definition io (A : Type) : Type := World → World * result A.

#[global] Instance io_ret : MRet io := fun A a w => (w, Ok a).
#[global] Instance io_bind : MBind io := fun A B k m w =>
  match m w with
  | (w', Ok a) => k a w'
  | (w', Raise e) => (w', Raise e)
  end.

(** A computation that does not touch the world. *)
Definition lift {A} (r : result A) : io A := fun w => (w, r).

Definition io_write (path : string) (c : file_content) : io () :=
  fun w => (write_file path c w, Ok ()).

Definition io_log (ev : log_event) : io () :=
  fun w => (logger ev w, Ok ()).

(** [self.config.<attr>] where a path is expected. *)
Definition Config_path (cfg : Config) (attr : string) : result string :=
  v ← Config_getattr cfg attr;
  match v with
  | VStr path => Ok path
  | _ => Raise TypeError
  end.

(** ** LeadSegmenter *)

Section LeadSegmenter.
Context `{Pandas}.

(** Lines 594-597: read with utf-8, fall back to latin-1. *)
Definition load_master (cfg : Config) : io DataFrame := fun w =>
  match files w !! output_file cfg with
  | None => (w, Raise (FileNotFoundError (output_file cfg)))
  | Some content =>
      match read_csv content "utf-8" with
      | Raise UnicodeDecodeError => (w, read_csv content "latin-1")
      | r => (w, r)
      end
  end.

(** One bucket of [_create_segmented_files]: select, sort, then look the
    file name up on the config and write. *)
Definition write_bucket (cfg : Config) (df : DataFrame)
    (level : string) (sort_cols : list string) (file_attr : string) : io () :=
  bucket ← lift (select_eq "adoption_level" level df);
  bucket ← lift (sort_values sort_cols bucket);
  path ← lift (Config_path cfg file_attr);
  io_write path (Text (to_csv bucket)).

Definition _create_segmented_files (cfg : Config) (df : DataFrame) : io () :=
  _ ← write_bucket cfg df "non_adopter"
        ["opportunity_score"; "contact_likelihood"] "non_adopters_file";
  _ ← write_bucket cfg df "moderate_adopter"
        ["opportunity_score"; "visual_content_suitability"] "moderate_adopters_file";
  write_bucket cfg df "high_volume_poor_results"
        ["opportunity_score"] "high_volume_poor_results_file".

(** [_log_segmentation_stats]: the loop over the three levels reads the
    same three attributes. *)
Definition _log_segmentation_stats (cfg : Config) (df : DataFrame) : io () :=
  _ ← io_log (SegmentationCompleted (df_len df));
  _ ← lift (Config_path cfg "non_adopters_file");
  _ ← lift (Config_path cfg "moderate_adopters_file");
  _ ← lift (Config_path cfg "high_volume_poor_results_file");
  mret ().

(** Lines 591-622 of [segment_leads]: everything before the master file is
    written again. *)
Definition segment_before_rewrite (cfg : Config) : io DataFrame :=
  df ← load_master cfg;
  _ ← io_log (SegmentationLoaded (df_len df));
  df ← lift (dropna ["name"; "email"; "current_social_presence_score"] df);
  df ← lift (select_valid "email" validate_email df);
  df ← lift (drop_duplicates ["email"] df);
  df ← lift (assign_apply "adoption_level" calculate_adoption_level df);
  _ ← _create_segmented_files cfg df;
  mret df.

(** The [try] block of [segment_leads]. *)
Definition segment_leads_body (cfg : Config) : io () :=
  df ← segment_before_rewrite cfg;
  _ ← io_write (output_file cfg) (Text (to_csv df));
  _log_segmentation_stats cfg df.

(** [segment_leads]; [pandas_available] is the module flag
    [PANDAS_AVAILABLE]. *)
Definition segment_leads (pandas_available : bool) (cfg : Config) (w : World) : World :=
  if negb pandas_available then logger SegmentationUnavailable w
  else
    match segment_leads_body cfg w with
    | (w', Ok _) => w'
    | (w', Raise e) => logger (SegmentationError e) w'
    end.

End LeadSegmenter.

(** ** EnhancedAPIKeyRotator: loading the keys *)

(** [list(a_set)] lists the elements of a set in an order the language does
    not fix: each element once, in some order. *)
Record SetOrder := {
  listing : gset string → list string;
  listing_perm : ∀ X, listing X ≡ₚ elements X
}.

Definition placeholder_key : string := "your_gemini_api_key_here".

(** [os.getenv(name)] on the environment after [load_dotenv('.env.local')]. *)
Definition getenv (environ : gmap string string) (name : string) : option string :=
  environ !! name.

(** The [keys] list of [_load_api_keys] before validation: the single key,
    the comma-separated keys, then the numbered keys 1 to 10. *)
Definition collected_keys (environ : gmap string string) : list string :=
  let keys : list string := [] in
  let keys :=
    match getenv environ "GEMINI_API_KEY" with
    | Some single_key =>
        if Py.truthy single_key && negb (String.eqb single_key placeholder_key)
        then keys ++ [Py.strip single_key]
        else keys
    | None => keys
    end in
  let keys :=
    match getenv environ "GEMINI_API_KEYS" with
    | Some multi_keys =>
        if Py.truthy multi_keys
        then keys ++ map Py.strip
                       (List.filter
                          (λ key, Py.truthy (Py.strip key)
                                  && negb (String.eqb (Py.strip key) placeholder_key))
                          (Py.split "," multi_keys))
        else keys
    | None => keys
    end in
  foldl (λ keys i,
           match getenv environ ("GEMINI_API_KEY_" +:+ pretty i) with
           | Some key =>
               if Py.truthy key && negb (String.eqb key placeholder_key)
               then keys ++ [Py.strip key]
               else keys
           | None => keys
           end)
        keys (seq 1 10).

(** [len(key) > 20 and key.startswith('AIzaSy')] *)
Definition valid_key_format (key : string) : bool :=
  (20 <? String.length key) && Py.startswith "AIzaSy" key.

Definition _load_api_keys (o : SetOrder) (environ : gmap string string) : list string :=
  let valid_keys := List.filter valid_key_format (collected_keys environ) in
  listing o (list_to_set valid_keys).

(** [EnhancedAPIKeyRotator()]: [None] is [sys.exit(1)]. *)
Definition EnhancedAPIKeyRotator_create (o : SetOrder) (environ : gmap string string)
  : option EnhancedAPIKeyRotator :=
  EnhancedAPIKeyRotator_init (_load_api_keys o environ).

(** ** EnhancedAPIKeyRotator.get_usage_stats *)

(** The dictionary returned; its key ['current_key_index'] is the field
    [stats_current_key_index] here, the other fields carry the keys' names. *)
Record UsageStats := {
  total_keys : nat;
  stats_current_key_index : nat;
  usage_counts : gmap string nat;
  error_counts : gmap string nat;
  total_requests : nat;
  total_errors : nat
}.

(** [sum(d.values())] *)
Definition sum_values (d : gmap string nat) : nat :=
  map_fold (λ _ v acc, v + acc) 0 d.

Definition get_usage_stats (r : EnhancedAPIKeyRotator) : UsageStats := {|
  total_keys := length (api_keys r);
  stats_current_key_index := current_key_index r;
  usage_counts := key_usage_count r;
  error_counts := key_error_count r;
  total_requests := sum_values (key_usage_count r);
  total_errors := sum_values (key_error_count r)
|}.

(** ** PromptGenerator *)

(** The double quote character, as a string. *)
Definition quote : string := String "034"%char EmptyString.

(** [template.format(name=value)] for a template whose replacement fields
    are all [field], written with its braces; [skip] characters of a field
    just replaced are still to be passed over. *)
Fixpoint format_field (field value : string) (skip : nat) (template : string) : string :=
  match template with
  | EmptyString => EmptyString
  | String c rest =>
      match skip with
      | S k => format_field field value k rest
      | O =>
          if Py.startswith field template
          then value +:+ format_field field value (String.length field - 1) rest
          else String c (format_field field value 0 rest)
      end
  end.

(** The lines of [BASE_PROMPT] between its first and its last newline. *)
Definition BASE_PROMPT_lines : list string :=
  [
    "Act as a professional digital marketing researcher specializing in identifying underutilized social media opportunities.";
    EmptyString;
    "Find businesses/creators who are PERFECT candidates for short-form content marketing with these characteristics:";
    "1. Have established businesses/services with clear monetization";
    "2. Severely underutilizing or completely missing from key social platforms";
    "3. Operate in industries where short-form content performs exceptionally well";
    "4. Show signs of traditional marketing but haven't embraced social media";
    EmptyString;
    "For each prospect, provide data in this EXACT CSV format:";
    "name,email,website,industry,business_type,location,current_social_presence_score,instagram_presence,tiktok_presence,youtube_shorts_presence,facebook_presence,linkedin_presence,last_post_estimate,follower_count_estimate,content_frequency_score,visual_content_suitability,target_demographic_alignment,competition_saturation_level,estimated_monthly_revenue,marketing_budget_indicators,pain_points,opportunity_score,contact_likelihood,ideal_content_strategy,projected_roi_potential";
    EmptyString;
    "Field definitions:";
    "- email: valid business email format (firstname@company.com, info@company.com, etc.)";
    "- current_social_presence_score: 1-10 (1=non-existent, 10=fully optimized)";
    "- platform_presence fields: " +:+ quote +:+ "none" +:+ quote +:+ ", " +:+ quote +:+ "minimal" +:+ quote +:+ ", " +:+ quote +:+ "moderate" +:+ quote +:+ ", " +:+ quote +:+ "strong" +:+ quote;
    "- last_post_estimate: " +:+ quote +:+ "never" +:+ quote +:+ ", " +:+ quote +:+ "6mo+" +:+ quote +:+ ", " +:+ quote +:+ "1-3mo" +:+ quote +:+ ", " +:+ quote +:+ "recent" +:+ quote;
    "- follower_count_estimate: actual numbers or ranges";
    "- content_frequency_score: 1-10 (posting consistency)";
    "- visual_content_suitability: 1-10 (how visual their business is)";
    "- target_demographic_alignment: 1-10 (match with social media users)";
    "- competition_saturation_level: 1-10 (1=blue ocean, 10=oversaturated)";
    "- estimated_monthly_revenue: revenue brackets ($1K-5K, $5K-25K, $25K-100K, $100K+)";
    "- marketing_budget_indicators: " +:+ quote +:+ "none" +:+ quote +:+ ", " +:+ quote +:+ "minimal" +:+ quote +:+ ", " +:+ quote +:+ "moderate" +:+ quote +:+ ", " +:+ quote +:+ "high" +:+ quote;
    "- pain_points: specific marketing challenges (max 100 chars)";
    "- opportunity_score: 1-100 (overall lead quality)";
    "- contact_likelihood: 1-10 (how likely they are to respond)";
    "- ideal_content_strategy: brief strategy recommendation";
    "- projected_roi_potential: " +:+ quote +:+ "low" +:+ quote +:+ ", " +:+ quote +:+ "medium" +:+ quote +:+ ", " +:+ quote +:+ "high" +:+ quote +:+ ", " +:+ quote +:+ "exceptional" +:+ quote;
    EmptyString;
    "Generate exactly {leads_per_batch} high-quality prospects with realistic, researched-sounding data and valid email addresses." ].

Definition BASE_PROMPT : string :=
  newline +:+ Py.join newline BASE_PROMPT_lines +:+ newline.

Definition INDUSTRY_ROTATIONS : list string :=
  [
    "local service businesses (salons, fitness studios, restaurants)";
    "e-commerce brands and online retailers";
    "B2B professional services (consultants, agencies)";
    "health and wellness practitioners";
    "home improvement and contractors";
    "creative services and freelancers";
    "educational content creators and coaches";
    "food and beverage businesses" ].

(** [cls.INDUSTRY_ROTATIONS[batch_number % len(cls.INDUSTRY_ROTATIONS)]] *)
Definition current_focus (batch_number : nat) : result string :=
  item INDUSTRY_ROTATIONS (batch_number mod length INDUSTRY_ROTATIONS).

(** The lines of the f-string of [generate_prompt] after the batch line. *)
Definition batch_prompt_lines : list string :=
  [
    "Look for businesses that:";
    "- Have been in business 1-5 years (established but not social-savvy)";
    "- Show traditional marketing attempts (websites, Google Ads, print)";
    "- Have customer-facing products/services perfect for visual content";
    "- Are in growth phase but struggling with digital marketing";
    "- Have identifiable contact information";
    EmptyString;
    "Make entries realistic and specific - avoid generic descriptions." ].

Definition generate_prompt (batch_number leads_per_batch : nat) : result string :=
  current_focus ← current_focus batch_number;
  Ok (format_field "{leads_per_batch}" (pretty leads_per_batch) 0 BASE_PROMPT
      +:+ newline +:+ "        " +:+ newline
      +:+ "Batch #" +:+ pretty batch_number +:+ " - Focus on: " +:+ current_focus
      +:+ newline +:+ newline
      +:+ Py.join newline batch_prompt_lines +:+ newline).

(** ** LeadGenerator._get_enhanced_prompt *)

(** [l[-n:]] for [n > 0] *)
Definition last_items (n : nat) (l : list string) : list string :=
  drop (length l - n) l.

(** [', '.join(list(s)[-20:]) if s else 'None yet'] *)
Definition recently_generated (o : SetOrder) (s : gset string) : string :=
  if decide (s = ∅) then "None yet"
  else Py.join ", " (last_items 20 (listing o s)).

Definition duplicate_prevention_lines : list string :=
  [
    "CRITICAL DUPLICATE PREVENTION:";
    "- Ensure each business name is unique and realistic";
    "- Use varied email formats: info@, contact@, hello@, firstname@company.com";
    "- Create diverse website domains - avoid similar company names";
    "- Vary locations across different cities/states";
    "- Use different industry subcategories within the focus area";
    "- Make each entry genuinely distinct";
    EmptyString ].

Definition _get_enhanced_prompt (o : SetOrder) (self : LeadGenerator) (batch_number : nat)
  : result string :=
  base_prompt ← generate_prompt batch_number (leads_per_batch (config self));
  let duplicate_prevention :=
    newline +:+ newline
    +:+ Py.join newline duplicate_prevention_lines +:+ newline
    +:+ "ALREADY GENERATED BUSINESSES TO AVOID:" +:+ newline
    +:+ "Recently generated emails: " +:+ recently_generated o (generated_emails self)
    +:+ newline
    +:+ "Recently generated names: " +:+ recently_generated o (generated_names self)
    +:+ newline +:+ newline
    +:+ "Generate completely NEW and UNIQUE businesses not similar to any above."
    +:+ newline in
  Ok (base_prompt +:+ duplicate_prevention).

(** ** main *)

(** How [main] ends: it logs that all processing completed, it logs a fatal
    error, or the process exits; [sys.exit] raises [SystemExit], which
    [except Exception] does not catch. *)
Inductive main_outcome : Type :=
| AllCompleted
| FatalError (e : exn)
| SystemExit (code : nat).

(** [LeadGenerator(config)] on the environment. *)
Definition LeadGenerator_create (o : SetOrder) (environ : gmap string string) (cfg : Config)
  : option LeadGenerator :=
  LeadGenerator_init cfg (_load_api_keys o environ).

Section Main.
Context `{Pandas}.

(** [main]; [ts] is the time stamp of [Config()]. *)
Definition main (o : SetOrder) (environ : gmap string string) (ts : string)
    (E : Environment) (pandas_available : bool) (w : World) : World * main_outcome :=
  let config := Config_default ts in
  match LeadGenerator_create o environ config with
  | None => (w, SystemExit 1)
  | Some generator =>
      match process_batches E generator w with
      | (_, w, Raise e) => (w, FatalError e)
      | (_, w, Ok _) =>
          let w :=
            if pandas_available then segment_leads pandas_available config w else w in
          (w, AllCompleted)
      end
  end.

End Main.

(** * Theorems *)

(** ** Strings *)

(** The text before the first [c]. *)
Fixpoint before (c : ascii) (s : string) : string :=
  match s with
  | EmptyString => EmptyString
  | String d s' => if Ascii.eqb d c then EmptyString else String d (before c s')
  end.

Lemma split_item0 c s : Py.item0 (Py.split c s) = Ok (before c s).
Proof.
  induction s as [|d s IH]; simpl; [done|].
  destruct (Ascii.eqb d c); [done|].
  destruct (Py.split c s) as [|w ws]; simpl in *; [done|].
  by injection IH as ->.
Qed.

Lemma before_no_sep c s : Py.contains c (before c s) = false.
Proof.
  induction s as [|d s IH]; simpl; [done|].
  destruct (Ascii.eqb d c) eqn:E; simpl; [done|]. by rewrite E.
Qed.

Lemma before_id c s : Py.contains c s = false → before c s = s.
Proof.
  induction s as [|d s IH]; simpl; [done|].
  destruct (Ascii.eqb d c); simpl; [done|]. intros Hs. by rewrite IH.
Qed.

Lemma before_keeps_absent a c s :
  Py.contains a s = false → Py.contains a (before c s) = false.
Proof.
  induction s as [|d s IH]; simpl; [done|].
  intros [Hd Hs]%orb_false_elim.
  destruct (Ascii.eqb d c); simpl; [done|]. by rewrite Hd, IH.
Qed.

(** Characters are code points: the accented capital 201 is lowered to 233,
    the signs 215 and 223 stay, and the no-break space 160 is stripped. *)
Lemma lower_strip_above_127 :
  Py.lower (String "201" "COLE") = String "233" "cole"
  ∧ Py.lower (String "215" (String "223" "")) = String "215" (String "223" "")
  ∧ Py.strip (String "133" "Acme" +:+ String "160" "") = "Acme".
Proof. by vm_compute. Qed.

Lemma lower_char_idem c : Py.lower_char (Py.lower_char c) = Py.lower_char c.
Proof. by destruct c as [[] [] [] [] [] [] [] []]. Qed.

Lemma lower_idem s : Py.lower (Py.lower s) = Py.lower s.
Proof. induction s as [|c s IH]; simpl; [done|]. by rewrite lower_char_idem, IH. Qed.

Lemma lower_before c s : Py.lower s = s → Py.lower (before c s) = before c s.
Proof.
  induction s as [|d s IH]; simpl; [done|].
  intros [= Hd Hs]. destruct (Ascii.eqb d c); simpl; [done|]. by rewrite Hd, IH.
Qed.

Lemma remove_prefix_app p s rest : Py.remove_prefix p s = Some rest → s = p +:+ rest.
Proof.
  revert s; induction p as [|a p IH]; intros s; simpl.
  - by intros [= ->].
  - destruct s as [|b s]; [done|].
    destruct (Ascii.eqb a b) eqn:E; [|done].
    apply Ascii.eqb_eq in E as ->. intros ->%IH. done.
Qed.


Lemma lower_app s t : Py.lower (s +:+ t) = Py.lower s +:+ Py.lower t.
Proof. induction s as [|c s IH]; simpl; [done|]. by rewrite IH. Qed.

Lemma str_length_app s t : String.length (s +:+ t) = String.length s + String.length t.
Proof. induction s as [|c s IH]; simpl; [done|]. by rewrite IH. Qed.

Lemma contains_app c s t : Py.contains c (s +:+ t) = Py.contains c s || Py.contains c t.
Proof. induction s as [|d s IH]; simpl; [done|]. by rewrite IH, orb_assoc. Qed.

Lemma lower_remove_prefix p s rest :
  Py.remove_prefix p s = Some rest → Py.lower s = s → Py.lower rest = rest.
Proof.
  intros ->%remove_prefix_app. rewrite lower_app.
  intros Heq. apply (f_equal String.length) in Heq as Hlen.
  revert Heq. generalize (Py.lower rest) as r. intros r.
  induction p as [|a p IH]; simpl; [done|]. intros [= _ Hr]. auto.
Qed.

Lemma contains_remove_prefix c p s rest :
  Py.remove_prefix p s = Some rest → Py.contains c s = false → Py.contains c rest = false.
Proof.
  intros ->%remove_prefix_app. rewrite contains_app. by intros [_ ?]%orb_false_elim.
Qed.

Lemma re_sub_www_lower s : Py.lower s = s → Py.lower (re_sub_www s) = re_sub_www s.
Proof.
  unfold re_sub_www. destruct (Py.remove_prefix "www." s) eqn:E; [|done].
  eauto using lower_remove_prefix.
Qed.

Lemma re_sub_www_absent c s : Py.contains c s = false → Py.contains c (re_sub_www s) = false.
Proof.
  unfold re_sub_www. destruct (Py.remove_prefix "www." s) eqn:E; [|done].
  eauto using contains_remove_prefix.
Qed.

Lemma re_sub_protocol_lower s : Py.lower s = s → Py.lower (re_sub_protocol s) = re_sub_protocol s.
Proof.
  unfold re_sub_protocol.
  destruct (Py.remove_prefix "https://" s) eqn:E1; [eauto using lower_remove_prefix|].
  destruct (Py.remove_prefix "http://" s) eqn:E2; [eauto using lower_remove_prefix|done].
Qed.

Lemma re_sub_protocol_no_slash s : Py.contains "/" s = false → re_sub_protocol s = s.
Proof.
  unfold re_sub_protocol. intros Hs.
  destruct (Py.remove_prefix "https://" s) eqn:E1.
  { apply remove_prefix_app in E1 as ->. by rewrite contains_app in Hs. }
  destruct (Py.remove_prefix "http://" s) eqn:E2; [|done].
  apply remove_prefix_app in E2 as ->. by rewrite contains_app in Hs.
Qed.

(** ** _extract_domain *)

Lemma extract_domain_unfold url :
  _extract_domain url =
  before "?" (before "/" (re_sub_www (re_sub_protocol (Py.lower url)))).
Proof.
  unfold _extract_domain, extract_domain_body.
  rewrite split_item0. simpl. by rewrite split_item0.
Qed.

Lemma extract_domain_lower url : Py.lower (_extract_domain url) = _extract_domain url.
Proof.
  rewrite extract_domain_unfold.
  auto using lower_before, re_sub_www_lower, re_sub_protocol_lower, lower_idem.
Qed.

Lemma extract_domain_no_slash url : Py.contains "/" (_extract_domain url) = false.
Proof. rewrite extract_domain_unfold. apply before_keeps_absent, before_no_sep. Qed.

Lemma extract_domain_no_query url : Py.contains "?" (_extract_domain url) = false.
Proof. rewrite extract_domain_unfold. apply before_no_sep. Qed.

Lemma extract_domain_of_domain d :
  Py.lower d = d → Py.contains "/" d = false → Py.contains "?" d = false →
  _extract_domain d = re_sub_www d.
Proof.
  intros Hl Hs Hq. rewrite extract_domain_unfold, Hl, re_sub_protocol_no_slash by done.
  rewrite (before_id "/") by auto using re_sub_www_absent.
  apply before_id. auto using re_sub_www_absent.
Qed.

Lemma startswith_remove_prefix p s :
  Py.startswith p s = true ↔ is_Some (Py.remove_prefix p s).
Proof.
  unfold Py.startswith. revert s; induction p as [|a p IH]; intros [|b s]; simpl;
    try (split; [intros _; by eexists|done]);
    try (split; [done|by intros [? ?]]).
  destruct (ascii_dec a b) as [->|Hne].
  - rewrite Ascii.eqb_refl. apply IH.
  - apply Ascii.eqb_neq in Hne as ->. split; [done|by intros [? ?]].
Qed.

(** C5 (amended).  [_extract_domain] lowercases, removes the protocol prefix,
    one leading ["www."] and everything from the first ["/"] or ["?"] on.
    Applied to its own result it removes one further leading ["www."], so it
    is idempotent exactly on the inputs whose result does not start with
    ["www."].  The example of the specification holds. *)
Theorem extract_domain_twice (u : string) :
  _extract_domain (_extract_domain u) = re_sub_www (_extract_domain u)
  ∧ (_extract_domain (_extract_domain u) = _extract_domain u
     ↔ Py.startswith "www." (_extract_domain u) = false)
  ∧ Py.contains "/" (_extract_domain u) = false
  ∧ Py.contains "?" (_extract_domain u) = false
  ∧ _extract_domain ("https://" +:+ u) = before "?" (before "/" (re_sub_www (Py.lower u)))
  ∧ _extract_domain ("http://" +:+ u) = before "?" (before "/" (re_sub_www (Py.lower u)))
  ∧ _extract_domain ("www." +:+ u) = before "?" (before "/" (Py.lower u))
  ∧ _extract_domain "https://www.Foo.com/page?x=1" = "foo.com".
Proof.
  assert (Htwice : _extract_domain (_extract_domain u) = re_sub_www (_extract_domain u)).
  { apply extract_domain_of_domain;
      auto using extract_domain_lower, extract_domain_no_slash, extract_domain_no_query. }
  split; [done|]. split; [|split; [|split; [|split; [|split; [|split]]]]].
  - rewrite Htwice. unfold re_sub_www.
    destruct (Py.remove_prefix "www." (_extract_domain u)) as [rest|] eqn:E.
    + assert (Hs : Py.startswith "www." (_extract_domain u) = true).
      { apply startswith_remove_prefix. by rewrite E. }
      rewrite Hs. apply remove_prefix_app in E. split; [|done].
      intros Heq. rewrite E in Heq.
      apply (f_equal String.length) in Heq. rewrite str_length_app in Heq.
      simpl in Heq. lia.
    + split; [|done]. intros _.
      destruct (Py.startswith "www." (_extract_domain u)) eqn:Hs; [|done].
      apply startswith_remove_prefix in Hs as [? Hs]. congruence.
  - apply extract_domain_no_slash.
  - apply extract_domain_no_query.
  - rewrite extract_domain_unfold. done.
  - rewrite extract_domain_unfold. done.
  - rewrite extract_domain_unfold. done.
  - reflexivity.
Qed.

(** C5, as stated, fails: a second application removes a second ["www."]. *)
Lemma extract_domain_not_idempotent :
  _extract_domain "www.www.foo.com" = "www.foo.com"
  ∧ _extract_domain (_extract_domain "www.www.foo.com") = "foo.com"
  ∧ _extract_domain (_extract_domain "www.www.foo.com") ≠ _extract_domain "www.www.foo.com".
Proof. by vm_compute. Qed.

(** ** EnhancedAPIKeyRotator *)

(** What [__init__] establishes and every method keeps: a key exists and
    the index points at one. *)
Definition rotator_ok (r : EnhancedAPIKeyRotator) : Prop :=
  current_key_index r < length (api_keys r).

(** The key at position [i] is below the error cap. *)
Definition healthy_at (r : EnhancedAPIKeyRotator) (i : nat) : Prop :=
  ∃ key, api_keys r !! i = Some key
         ∧ get0 (key_error_count r) key < max_errors_per_key r.

(** The key at position [i] is at or above the error cap. *)
Definition exhausted_at (r : EnhancedAPIKeyRotator) (i : nat) : Prop :=
  ∃ key, api_keys r !! i = Some key
         ∧ max_errors_per_key r ≤ get0 (key_error_count r) key.

Lemma get_current_key_ok r :
  rotator_ok r →
  ∃ key, get_current_key r = Ok key ∧ api_keys r !! current_key_index r = Some key.
Proof.
  unfold rotator_ok, get_current_key. intros Hlt.
  destruct (lookup_lt_is_Some_2 _ _ Hlt) as [key Hkey].
  exists key. rewrite Hkey. by destruct (api_keys r).
Qed.

Lemma set_current_key_index_same r : set_current_key_index (current_key_index r) r = r.
Proof. by destruct r. Qed.

Lemma rotate_scan_spec fuel : ∀ r,
  api_keys r ≠ [] →
  ∃ i,
    rotate_scan fuel r = Ok (set_current_key_index i r)
    ∧ ((∃ j, 1 ≤ j ≤ fuel
             ∧ i = (current_key_index r + j) mod length (api_keys r)
             ∧ healthy_at r i
             ∧ ∀ j', 1 ≤ j' < j →
                 exhausted_at r ((current_key_index r + j') mod length (api_keys r)))
       ∨ (i = (if fuel is O then current_key_index r
               else (current_key_index r + fuel) mod length (api_keys r))
          ∧ ∀ j', 1 ≤ j' ≤ fuel →
              exhausted_at r ((current_key_index r + j') mod length (api_keys r)))).
Proof.
  induction fuel as [|fuel IH]; intros r Hne.
  { exists (current_key_index r). simpl. rewrite set_current_key_index_same.
    split; [done|]. right. split; [done|]. intros; lia. }
  assert (Hn : 0 < length (api_keys r)) by (destruct (api_keys r); [done|simpl; lia]).
  set (n := length (api_keys r)) in *.
  set (i1 := (current_key_index r + 1) mod n).
  assert (Hi1 : i1 < n) by (apply Nat.mod_upper_bound; lia).
  destruct (get_current_key_ok (set_current_key_index i1 r)) as (key & Hget & Hkey);
    [done|].
  simpl in Hkey. simpl. fold n i1. rewrite Hget. simpl.
  destruct (get0 (key_error_count r) key <? max_errors_per_key r) eqn:Hcap.
  - apply Nat.ltb_lt in Hcap. exists i1. split; [done|]. left.
    exists 1. repeat split; [lia|lia|by exists key|intros; lia].
  - apply Nat.ltb_ge in Hcap.
    destruct (IH (set_current_key_index i1 r) Hne) as (i & Hscan & Hcases).
    unfold healthy_at, exhausted_at in *. simpl in Hscan, Hcases. fold n in Hcases.
    assert (Hshift : ∀ j, (i1 + j) mod n = (current_key_index r + S j) mod n).
    { intros j. unfold i1. rewrite Nat.Div0.add_mod_idemp_l. f_equal. lia. }
    exists i. split; [by rewrite Hscan|].
    assert (Hstep : ∀ j',
      1 ≤ j' →
      (1 ≤ j' - 1 →
       ∃ key, api_keys r !! ((i1 + (j' - 1)) mod n) = Some key
              ∧ max_errors_per_key r ≤ get0 (key_error_count r) key) →
      ∃ key, api_keys r !! ((current_key_index r + j') mod n) = Some key
             ∧ max_errors_per_key r ≤ get0 (key_error_count r) key).
    { intros j' Hj' Hrest. destruct (decide (j' = 1)) as [->|]; [by exists key|].
      replace (current_key_index r + j') with (current_key_index r + S (j' - 1)) by lia.
      rewrite <-Hshift. apply Hrest. lia. }
    destruct Hcases as [(j & Hj & -> & Hhealthy & Hbefore)|[-> Hall]].
    + left. exists (S j). rewrite Hshift in Hhealthy |- *.
      split; [lia|]. split; [done|]. split; [done|].
      intros j' Hj'. apply Hstep; [lia|]. intros ?. apply Hbefore. lia.
    + right. split.
      * destruct fuel as [|fuel]; [done|]. by rewrite Hshift.
      * intros j' Hj'. apply Hstep; [lia|]. intros ?. apply Hall. lia.
Qed.

(** Going round from [i], every position is met within [n] steps. *)
Lemma circular_reach n i k :
  i < n → k < n → ∃ j, 1 ≤ j ≤ n ∧ (i + j) mod n = k.
Proof.
  intros Hi Hk. destruct (decide (i < k)) as [Hlt|Hge].
  - exists (k - i). split; [lia|].
    replace (i + (k - i)) with k by lia. by apply Nat.mod_small.
  - exists (k + n - i). split; [lia|].
    replace (i + (k + n - i)) with (k + 1 * n) by lia.
    rewrite Nat.Div0.mod_add. by apply Nat.mod_small.
Qed.

Lemma all_exhausted r :
  rotator_ok r →
  (∀ j, 1 ≤ j ≤ length (api_keys r) →
        exhausted_at r ((current_key_index r + j) mod length (api_keys r))) →
  ∀ key, key ∈ api_keys r → max_errors_per_key r ≤ get0 (key_error_count r) key.
Proof.
  intros Hok Hall key [k Hk]%list_elem_of_lookup.
  destruct (circular_reach (length (api_keys r)) (current_key_index r) k)
    as (j & Hj & Hjk); [done|by eapply lookup_lt_Some|].
  destruct (Hall j Hj) as (key' & Hkey' & Hcap).
  rewrite Hjk, Hk in Hkey'. by injection Hkey' as <-.
Qed.

(** The invariant is kept: the result of [rotate_key] is again a rotator
    with a valid index. *)
Lemma rotate_key_ok rnd r :
  rotator_ok r →
  ∃ key r', rotate_key rnd r = Ok (key, r')
            ∧ rotator_ok r' ∧ api_keys r' = api_keys r.
Proof.
  intros Hok.
  destruct (get_current_key_ok r Hok) as (cur & Hget & Hcur).
  assert (Hne : api_keys r ≠ []).
  { unfold rotator_ok in Hok. destruct (api_keys r); [simpl in Hok; lia|done]. }
  unfold rotate_key. rewrite Hget. simpl.
  destruct (length (api_keys r) =? 1); [by exists cur, r|].
  destruct (_ || _ || rnd); [|by exists cur, r].
  destruct (rotate_scan_spec (length (api_keys r)) r Hne) as (i & -> & Hcases).
  simpl.
  assert (Hi : i < length (api_keys r)).
  { destruct Hcases as [(j & _ & -> & _)|[-> _]].
    - apply Nat.mod_upper_bound. by destruct (api_keys r).
    - unfold rotator_ok in Hok.
      destruct (length (api_keys r)) eqn:E; [lia|]. apply Nat.mod_upper_bound. lia. }
  destruct (get_current_key_ok (set_current_key_index i r) Hi) as (key & -> & _).
  simpl. by exists key, (set_current_key_index i r).
Qed.

(** C7.  From a rotator with a valid index [rotate_key] returns a key of the
    pool and moves only the index; the key it returns is below the error cap
    whenever some key of the pool is; when it moves, it moves to the first
    such key met going forward circularly; when every key is at the cap it
    stays where it is; and with a single key it returns that key and leaves
    the rotator as it was, whatever the counts. *)
Theorem rotate_key_selects_healthy (rnd : bool) (r : EnhancedAPIKeyRotator) :
  rotator_ok r →
  ∃ key i,
    rotate_key rnd r = Ok (key, set_current_key_index i r)
    ∧ api_keys r !! i = Some key
    ∧ ((∃ other, other ∈ api_keys r
                 ∧ get0 (key_error_count r) other < max_errors_per_key r)
       → get0 (key_error_count r) key < max_errors_per_key r)
    ∧ (i ≠ current_key_index r →
       ∃ j, 1 ≤ j < length (api_keys r)
            ∧ i = (current_key_index r + j) mod length (api_keys r)
            ∧ ∀ j', 1 ≤ j' < j →
                exhausted_at r ((current_key_index r + j') mod length (api_keys r)))
    ∧ ((∀ other, other ∈ api_keys r
                 → max_errors_per_key r ≤ get0 (key_error_count r) other)
       → i = current_key_index r)
    ∧ (length (api_keys r) = 1 →
       api_keys r = [key] ∧ set_current_key_index i r = r).
Proof.
  intros Hok.
  destruct (get_current_key_ok r Hok) as (cur & Hget & Hcur).
  assert (Hne : api_keys r ≠ []).
  { unfold rotator_ok in Hok. destruct (api_keys r); [simpl in Hok; lia|done]. }
  assert (Hidx : current_key_index r mod length (api_keys r) = current_key_index r)
    by (by apply Nat.mod_small).
  unfold rotate_key. rewrite Hget. simpl.
  destruct (length (api_keys r) =? 1) eqn:Hlen.
  { apply Nat.eqb_eq in Hlen.
    assert (Hkeys : api_keys r = [cur]).
    { unfold rotator_ok in Hok. rewrite Hlen in Hok.
      destruct (api_keys r) as [|k [|??]]; try done.
      destruct (current_key_index r); [|lia]. by injection Hcur as ->. }
    exists cur, (current_key_index r). rewrite set_current_key_index_same.
    split; [done|]. split; [done|]. split; [|split; [done|split; done]].
    intros (other & Hin & Hlt). rewrite Hkeys in Hin.
    by apply list_elem_of_singleton in Hin as ->. }
  apply Nat.eqb_neq in Hlen.
  destruct (_ || _ || rnd) eqn:Hrot.
  - destruct (rotate_scan_spec (length (api_keys r)) r Hne) as (i & Hscan & Hcases).
    destruct Hcases as [(j & Hj & Hi & (key & Hkey & Hlt) & Hbefore)|[Hi Hall]].
    + rewrite Hscan. simpl.
      assert (Hgeti : get_current_key (set_current_key_index i r) = Ok key).
      { unfold get_current_key. simpl. rewrite Hkey. by destruct (api_keys r). }
      rewrite Hgeti. simpl. exists key, i.
      split; [done|]. split; [done|]. split; [done|]. split; [|split].
      * intros Hmoved. exists j. split; [|done].
        destruct (decide (j = length (api_keys r))) as [->|]; [|lia].
        exfalso. apply Hmoved. rewrite Hi.
        replace (current_key_index r + length (api_keys r))
          with (current_key_index r + 1 * length (api_keys r)) by lia.
        by rewrite Nat.Div0.mod_add.
      * intros Hexh. apply list_elem_of_lookup_2 in Hkey. apply Hexh in Hkey. lia.
      * intros ?. lia.
    + assert (Hi' : i = current_key_index r).
      { destruct (length (api_keys r)) eqn:E; [done|]. rewrite Hi.
        replace (current_key_index r + S n) with (current_key_index r + 1 * S n) by lia.
        by rewrite Nat.Div0.mod_add. }
      clear Hi. subst i. rewrite set_current_key_index_same in Hscan.
      rewrite Hscan. simpl. rewrite Hget. simpl.
      exists cur, (current_key_index r). rewrite set_current_key_index_same.
      split; [done|]. split; [done|]. split; [|split; [done|split; [done|intros; lia]]].
      intros (other & Hin & Hlt).
      pose proof (all_exhausted r Hok Hall other Hin). lia.
  - apply orb_false_elim in Hrot as [[_ Herr]%orb_false_elim _].
    apply Nat.leb_gt in Herr.
    exists cur, (current_key_index r). rewrite set_current_key_index_same.
    split; [done|]. split; [done|]. split; [done|]. split; [done|]. split; [done|].
    intros; lia.
Qed.


(** Three keys, the current one and the next at the error cap. *)
Definition rotator_two_exhausted : EnhancedAPIKeyRotator := {|
  api_keys := ["AIzaSy-key-a"; "AIzaSy-key-b"; "AIzaSy-key-c"];
  current_key_index := 0;
  key_usage_count := {[ "AIzaSy-key-a" := 7 ]};
  key_error_count := {[ "AIzaSy-key-a" := 5; "AIzaSy-key-b" := 6 ]};
  max_requests_per_key := 150;
  max_errors_per_key := 5
|}.

Lemma rotate_key_selects_healthy_witness :
  rotator_ok rotator_two_exhausted
  ∧ ∃ key i,
      rotate_key false rotator_two_exhausted
        = Ok (key, set_current_key_index i rotator_two_exhausted)
      ∧ get0 (key_error_count rotator_two_exhausted) key
          < max_errors_per_key rotator_two_exhausted.
Proof.
  assert (Hok : rotator_ok rotator_two_exhausted)
    by (unfold rotator_ok; simpl; lia).
  split; [exact Hok|].
  destruct (rotate_key_selects_healthy false rotator_two_exhausted Hok)
    as (key & i & Hrot & _ & Hhealthy & _).
  exists key, i. split; [exact Hrot|]. apply Hhealthy.
  exists "AIzaSy-key-c". split.
  - simpl. apply list_elem_of_lookup. by exists 2.
  - vm_compute. lia.
Defined.

Example rotate_key_two_exhausted :
  rotate_key false rotator_two_exhausted
  = Ok ("AIzaSy-key-c", set_current_key_index 2 rotator_two_exhausted).
Proof. by vm_compute. Qed.

Lemma increment_usage_ok r :
  rotator_ok r → ∃ r', increment_usage r = Ok r' ∧ rotator_ok r'.
Proof.
  intros Hok. destruct (get_current_key_ok r Hok) as (key & Hget & _).
  unfold increment_usage. rewrite Hget. simpl. eexists. split; [done|]. done.
Qed.

Lemma mark_key_error_ok key rnd r :
  rotator_ok r → ∃ r', mark_key_error key rnd r = Ok r' ∧ rotator_ok r'.
Proof.
  intros Hok. unfold mark_key_error.
  assert (∃ k, match key with None => get_current_key r | Some k => Ok k end = Ok k)
    as [k ->].
  { destruct key; [by eexists|]. destruct (get_current_key_ok r Hok) as (k & -> & _).
    by eexists. }
  simpl. match goal with |- context [if ?b then _ else _] => destruct b end.
  - match goal with |- context [rotate_key rnd ?r1] =>
      destruct (rotate_key_ok rnd r1) as (k' & r2 & -> & Hok2 & _); [done|] end.
    simpl. by eexists.
  - by eexists.
Qed.

Lemma configure_genai_ok raises rnd r :
  rotator_ok r → ∃ b r', configure_genai raises rnd r = Ok (b, r') ∧ rotator_ok r'.
Proof.
  intros Hok. unfold configure_genai.
  destruct (get_current_key_ok r Hok) as (k & -> & _). simpl.
  destruct raises.
  - destruct (mark_key_error_ok None rnd r Hok) as (r' & -> & Hok'). simpl.
    by eexists _, _.
  - by eexists _, _.
Qed.

(** ** The duplicate filter *)

Lemma lstrip_contains c s :
  Py.is_space c = false → Py.contains c (Py.lstrip s) = Py.contains c s.
Proof.
  intros Hc. induction s as [|d s IH]; simpl; [done|].
  destruct (Py.is_space d) eqn:Hd; [|done].
  rewrite IH. destruct (Ascii.eqb d c) eqn:E; [|done].
  apply Ascii.eqb_eq in E as ->. congruence.
Qed.

Lemma rstrip_contains c s :
  Py.is_space c = false → Py.contains c (Py.rstrip s) = Py.contains c s.
Proof.
  intros Hc. induction s as [|d s IH]; simpl; [done|].
  destruct (Py.rstrip s) as [|e r] eqn:Hr.
  - simpl in IH. rewrite <-IH, orb_false_r.
    destruct (Py.is_space d) eqn:Hd; simpl; [|by rewrite orb_false_r].
    destruct (Ascii.eqb d c) eqn:E; [|done].
    apply Ascii.eqb_eq in E as ->. congruence.
  - simpl. simpl in IH. by rewrite IH.
Qed.

Lemma strip_contains c s :
  Py.is_space c = false → Py.contains c (Py.strip s) = Py.contains c s.
Proof. intros Hc. unfold Py.strip. by rewrite rstrip_contains, lstrip_contains. Qed.

Lemma split_single c s : Py.contains c s = false → Py.split c s = [s].
Proof.
  induction s as [|d s IH]; simpl; [done|].
  intros [-> Hs]%orb_false_elim. by rewrite IH.
Qed.

Lemma split_not_nil c s : Py.split c s ≠ [].
Proof.
  destruct s as [|d s]; simpl; [done|].
  destruct (Ascii.eqb d c); [done|]. by destruct (Py.split c s).
Qed.

(** A line with a second field has a comma, so it is not blank. *)
Lemma fields_not_blank line f0 f1 rest :
  Py.split "," line = f0 :: f1 :: rest → Py.truthy (Py.strip line) = true.
Proof.
  intros Hsplit.
  assert (Hc : Py.contains "," line = true).
  { destruct (Py.contains "," line) eqn:E; [done|].
    apply split_single in E. congruence. }
  rewrite <-(strip_contains "," line) in Hc by done.
  by destruct (Py.strip line).
Qed.

Lemma line_keys_fields line f0 f1 f2 rest :
  Py.split "," line = f0 :: f1 :: f2 :: rest →
  line_keys line =
  Ok (Some (Py.strip (Py.lower (Py.strip f0)),
            Py.strip (Py.lower (Py.strip f1)),
            _extract_domain (Py.strip (Py.strip f2)))).
Proof. intros Hsplit. unfold line_keys. by rewrite Hsplit. Qed.

Lemma line_keys_few line :
  length (Py.split "," line) < 3 → line_keys line = Ok None.
Proof.
  intros Hlen. unfold line_keys. rewrite length_map.
  by apply Nat.ltb_lt in Hlen as ->.
Qed.

Lemma is_duplicate_seen self name email domain :
  is_duplicate self name email domain = true
  ↔ email ∈ generated_emails self
    ∨ name ∈ generated_names self
    ∨ domain ∈ generated_domains self.
Proof.
  unfold is_duplicate. rewrite !orb_true_iff, !bool_decide_eq_true. tauto.
Qed.

Lemma register_keys_sets self name email domain :
  generated_emails (register_keys self name email domain)
    = {[email]} ∪ generated_emails self
  ∧ generated_names (register_keys self name email domain)
    = {[name]} ∪ generated_names self
  ∧ generated_domains (register_keys self name email domain)
    = (if Py.truthy domain then {[domain]} ∪ generated_domains self
       else generated_domains self)
  ∧ stats (register_keys self name email domain) = stats self
  ∧ config (register_keys self name email domain) = config self
  ∧ api_rotator (register_keys self name email domain) = api_rotator self
  ∧ backup_data (register_keys self name email domain) = backup_data self.
Proof. unfold register_keys. by destruct (Py.truthy domain). Qed.

(** What one iteration does to a line the loop parses. *)
Lemma filter_step_record self kept dups line f0 f1 f2 rest :
  Py.startswith "name," line = false →
  Py.split "," line = f0 :: f1 :: f2 :: rest →
  let name := Py.strip (Py.lower (Py.strip f0)) in
  let email := Py.strip (Py.lower (Py.strip f1)) in
  let domain := _extract_domain (Py.strip (Py.strip f2)) in
  filter_step (self, kept, dups) line =
  if is_duplicate self name email domain
  then (self, kept, dups + 1)
  else (register_keys self name email domain, kept ++ [line], dups).
Proof.
  intros Hhead Hsplit. simpl. unfold filter_step, skipped_line.
  rewrite (fields_not_blank _ _ _ _ Hsplit), Hhead. simpl.
  by rewrite (line_keys_fields _ _ _ _ _ Hsplit).
Qed.

(** Every other line leaves the loop state as it is. *)
Lemma filter_step_skip st line :
  Py.startswith "name," line = true ∨ length (Py.split "," line) < 3 →
  filter_step st line = st.
Proof.
  destruct st as [[self kept] dups]. unfold filter_step, skipped_line.
  intros [->|Hfew].
  - by rewrite orb_true_r.
  - rewrite (line_keys_few _ Hfew). by destruct (_ || _).
Qed.

(** The batch is the left fold of the iteration over its lines: the text
    returned joins the lines kept, and the duplicates counted are added to
    the statistics. *)
Lemma parse_and_filter_batch_fold self batch_data :
  Py.truthy batch_data = true →
  ∃ self1 kept dups,
    foldl filter_step (self, [], 0) (Py.split LF (Py.strip batch_data))
      = (self1, kept, dups)
    ∧ snd (_parse_and_filter_batch self batch_data) = Py.join newline kept
    ∧ stats (fst (_parse_and_filter_batch self batch_data))
      = add_duplicates_prevented dups (stats self1)
    ∧ generated_emails (fst (_parse_and_filter_batch self batch_data))
      = generated_emails self1
    ∧ generated_names (fst (_parse_and_filter_batch self batch_data))
      = generated_names self1
    ∧ generated_domains (fst (_parse_and_filter_batch self batch_data))
      = generated_domains self1.
Proof.
  intros Hb. unfold _parse_and_filter_batch. rewrite Hb. simpl.
  destruct (foldl filter_step (self, [], 0) (Py.split LF (Py.strip batch_data)))
    as [[self1 kept] dups].
  exists self1, kept, dups. split; [done|].
  destruct dups as [|dups]; simpl; [|done].
  repeat split. destruct (stats self1). unfold add_duplicates_prevented. simpl.
  by rewrite Nat.add_0_r.
Qed.

(** A generator as [LeadGenerator(config)] leaves it, on one key. *)
Definition generator0 (cfg : Config) : LeadGenerator := {|
  config := cfg;
  api_rotator := {| api_keys := ["AIzaSy-key-a-0123456789"]; current_key_index := 0;
                    key_usage_count := ∅; key_error_count := ∅;
                    max_requests_per_key := 150; max_errors_per_key := 5 |};
  backup_data := [];
  generated_emails := ∅; generated_names := ∅; generated_domains := ∅;
  stats := {| completed_batches := 0; total_leads_generated := 0;
              failed_batches := 0; duplicates_prevented := 0 |}
|}.

Lemma generator0_init cfg :
  LeadGenerator_init cfg ["AIzaSy-key-a-0123456789"] = Some (generator0 cfg).
Proof. reflexivity. Qed.

(** The same generator after it accepted a record of "Old Co". *)
Definition generator_seen : LeadGenerator :=
  register_keys (generator0 (Config_default "20250101_0900"))
    "old co" "info@old.com" "old.com".

Definition fresh_line : string := "Fresh Co,hello@fresh.io,https://www.fresh.io/about".
Definition repeated_email_line : string := "Other Co,Info@Old.com,https://other.org".

(** C2 (amended).  A line that is not a header (does not start with
    ["name,"]) and has at least three comma-separated fields is dropped and
    counted as a duplicate if and only if its lowercased email, its
    lowercased name or the domain of its website is in the state; otherwise
    the line is kept and its email and name are registered, and its domain
    too unless it is empty.  On a fresh line followed by a line that repeats
    a seen email, the filter returns the fresh line alone and counts one
    duplicate. *)
Theorem filter_drops_duplicates
    (self : LeadGenerator) (kept : list string) (dups : nat)
    (line f0 f1 f2 : string) (rest : list string) :
  Py.startswith "name," line = false →
  Py.split "," line = f0 :: f1 :: f2 :: rest →
  let name := Py.strip (Py.lower (Py.strip f0)) in
  let email := Py.strip (Py.lower (Py.strip f1)) in
  let domain := _extract_domain (Py.strip (Py.strip f2)) in
  let seen := email ∈ generated_emails self
              ∨ name ∈ generated_names self
              ∨ domain ∈ generated_domains self in
  (seen → filter_step (self, kept, dups) line = (self, kept, dups + 1))
  ∧ (¬ seen →
     filter_step (self, kept, dups) line
       = (register_keys self name email domain, kept ++ [line], dups))
  ∧ generated_emails (register_keys self name email domain)
      = {[email]} ∪ generated_emails self
  ∧ generated_names (register_keys self name email domain)
      = {[name]} ∪ generated_names self
  ∧ generated_domains (register_keys self name email domain)
      = (if Py.truthy domain then {[domain]} ∪ generated_domains self
         else generated_domains self)
  ∧ snd (_parse_and_filter_batch generator_seen
           (fresh_line +:+ newline +:+ repeated_email_line)) = fresh_line
  ∧ duplicates_prevented
      (stats (fst (_parse_and_filter_batch generator_seen
                     (fresh_line +:+ newline +:+ repeated_email_line))))
    = duplicates_prevented (stats generator_seen) + 1.
Proof.
  intros Hhead Hsplit name email domain seen.
  pose proof (filter_step_record self kept dups line f0 f1 f2 rest Hhead Hsplit) as Hstep.
  cbv zeta in Hstep. fold name email domain in Hstep.
  pose proof (is_duplicate_seen self name email domain) as Hdup. fold seen in Hdup.
  destruct (register_keys_sets self name email domain) as (He & Hn & Hd & _).
  split; [|split; [|split; [exact He|split; [exact Hn|split; [exact Hd|]]]]].
  - intros Hseen. apply Hdup in Hseen. by rewrite Hstep, Hseen.
  - intros Hnot. destruct (is_duplicate self name email domain) eqn:E; [|done].
    exfalso. apply Hnot, Hdup. done.
  - split; by vm_compute.
Qed.

Lemma filter_drops_duplicates_witness :
  Py.startswith "name," repeated_email_line = false
  ∧ Py.split "," repeated_email_line = ["Other Co"; "Info@Old.com"; "https://other.org"]
  ∧ filter_step (generator_seen, [fresh_line], 0) repeated_email_line
      = (generator_seen, [fresh_line], 1).
Proof.
  split; [reflexivity|]. split; [reflexivity|].
  apply (filter_drops_duplicates generator_seen [fresh_line] 0 repeated_email_line
           "Other Co" "Info@Old.com" "https://other.org" []);
    [reflexivity|reflexivity|].
  left. by vm_compute.
Defined.

(** C2, as stated, fails on two kinds of line.  A line of three fields that
    starts with ["name,"] is taken for a header: none of its keys is in the
    state, yet it is neither kept nor registered.  A line whose website is
    empty is kept, but its (empty) domain is not registered. *)
Lemma filter_header_and_empty_domain :
  let self := generator0 (Config_default "20250101_0900") in
  (length (Py.split "," "name,sales@name.io,https://name.io") = 3
   ∧ line_keys "name,sales@name.io,https://name.io"
       = Ok (Some ("name", "sales@name.io", "name.io"))
   ∧ is_duplicate self "name" "sales@name.io" "name.io" = false
   ∧ _parse_and_filter_batch self "name,sales@name.io,https://name.io"
       = (self, ""))
  ∧ (line_keys "Acme,info@acme.com," = Ok (Some ("acme", "info@acme.com", ""))
     ∧ snd (_parse_and_filter_batch self "Acme,info@acme.com,")
         = "Acme,info@acme.com,"
     ∧ "" ∉ generated_domains (fst (_parse_and_filter_batch self "Acme,info@acme.com,"))).
Proof. by vm_compute. Qed.

(** ** The identity-key sets over a run *)

(** The three sets only grow from [a] to [b]. *)
Definition keys_le (a b : LeadGenerator) : Prop :=
  generated_emails a ⊆ generated_emails b
  ∧ generated_names a ⊆ generated_names b
  ∧ generated_domains a ⊆ generated_domains b.

#[global] Instance keys_le_preorder : PreOrder keys_le.
Proof.
  split.
  - by intros a.
  - intros a b c (?&?&?) (?&?&?). unfold keys_le. set_solver.
Qed.

(** Two lines share no email and no name, and no domain but the empty one. *)
Definition distinct_keys (l1 l2 : string) : Prop :=
  ∀ n1 e1 d1 n2 e2 d2,
    line_keys l1 = Ok (Some (n1, e1, d1)) →
    line_keys l2 = Ok (Some (n2, e2, d2)) →
    e1 ≠ e2 ∧ n1 ≠ n2 ∧ (d1 = d2 → d1 = EmptyString).

(** The keys of a line are in the sets, the empty domain apart. *)
Definition registered (self : LeadGenerator) (line : string) : Prop :=
  ∃ n e d,
    line_keys line = Ok (Some (n, e, d))
    ∧ e ∈ generated_emails self
    ∧ n ∈ generated_names self
    ∧ (d = EmptyString ∨ d ∈ generated_domains self).

(** The lines accepted so far are registered and pairwise distinct. *)
Definition accepted_inv (self : LeadGenerator) (acc : list string) : Prop :=
  Forall (registered self) acc ∧ ForallOrdPairs distinct_keys acc.

(** The lines of one batch the filter keeps. *)
Definition accepted_lines (self : LeadGenerator) (batch_data : string) : list string :=
  if Py.truthy batch_data
  then snd (fst (foldl filter_step (self, [], 0) (Py.split LF (Py.strip batch_data))))
  else [].


Lemma registered_mono a b line : keys_le a b → registered a line → registered b line.
Proof.
  intros (Hemails & Hnames & Hdomains) (n & e & d & Hk & Hin_e & Hin_n & Hin_d).
  exists n, e, d. split; [done|].
  split; [by apply Hemails|]. split; [by apply Hnames|].
  destruct Hin_d; [by left|right; by apply Hdomains].
Qed.

Lemma ForallOrdPairs_snoc {A} (R : A → A → Prop) l x :
  ForallOrdPairs R l → Forall (λ y, R y x) l → ForallOrdPairs R (l ++ [x]).
Proof.
  induction 1 as [|a l Ha Hl IH]; intros Hx; simpl.
  - constructor; constructor.
  - apply Forall_cons in Hx as [Hax Hx]. constructor; [|by apply IH].
    apply Forall_app. split; [done|]. by constructor.
Qed.

Lemma ForallOrdPairs_app {A} (R : A → A → Prop) l1 l2 :
  ForallOrdPairs R l1 → ForallOrdPairs R l2 →
  Forall (λ x, Forall (R x) l2) l1 → ForallOrdPairs R (l1 ++ l2).
Proof.
  induction 1 as [|a l Ha Hl IH]; intros H2 Hx; simpl; [done|].
  apply Forall_cons in Hx as [Hax Hx]. constructor; [|by apply IH].
  apply Forall_app. by split.
Qed.

(** The three outcomes of one iteration. *)
Lemma filter_step_cases self kept dups line :
  filter_step (self, kept, dups) line = (self, kept, dups)
  ∨ filter_step (self, kept, dups) line = (self, kept, dups + 1)
  ∨ ∃ n e d,
      skipped_line line = false
      ∧ line_keys line = Ok (Some (n, e, d))
      ∧ is_duplicate self n e d = false
      ∧ filter_step (self, kept, dups) line
          = (register_keys self n e d, kept ++ [line], dups).
Proof.
  unfold filter_step. destruct (skipped_line line); [by left|].
  destruct (line_keys line) as [[[[n e] d]|]|]; [|by left|by left].
  destruct (is_duplicate self n e d) eqn:E; [by right; left|].
  right; right. by exists n, e, d.
Qed.

Lemma register_keys_le self n e d : keys_le self (register_keys self n e d).
Proof.
  destruct (register_keys_sets self n e d) as (Hemails & Hnames & Hdomains & _).
  unfold keys_le. rewrite Hemails, Hnames, Hdomains.
  split; [apply union_subseteq_r|]. split; [apply union_subseteq_r|].
  destruct (Py.truthy d); [apply union_subseteq_r|done].
Qed.

Lemma filter_step_le self kept dups line :
  keys_le self (fst (fst (filter_step (self, kept, dups) line))).
Proof.
  destruct (filter_step_cases self kept dups line)
    as [->|[->|(n & e & d & _ & _ & _ & ->)]]; simpl; try done.
  apply register_keys_le.
Qed.

Lemma filter_step_inv self kept dups line acc :
  accepted_inv self (acc ++ kept) →
  accepted_inv (fst (fst (filter_step (self, kept, dups) line)))
               (acc ++ snd (fst (filter_step (self, kept, dups) line))).
Proof.
  intros [Hreg Hpair].
  destruct (filter_step_cases self kept dups line)
    as [->|[->|(n & e & d & _ & Hk & Hdup & ->)]]; simpl; try done.
  rewrite app_assoc.
  assert (Hnot : ¬ (e ∈ generated_emails self ∨ n ∈ generated_names self
                    ∨ d ∈ generated_domains self)).
  { rewrite <-is_duplicate_seen. by rewrite Hdup. }
  destruct (register_keys_sets self n e d) as (He & Hn & Hd & _).
  split.
  - apply Forall_app. split.
    + eapply Forall_impl; [exact Hreg|]. intros l. apply registered_mono, register_keys_le.
    + constructor; [|done]. exists n, e, d. rewrite He, Hn, Hd.
      split; [done|].
      split; [apply elem_of_union_l; by apply elem_of_singleton|].
      split; [apply elem_of_union_l; by apply elem_of_singleton|].
      destruct d; [by left|right; simpl].
      apply elem_of_union_l. by apply elem_of_singleton.
  - apply ForallOrdPairs_snoc; [done|].
    eapply Forall_impl; [exact Hreg|].
    intros l (n1 & e1 & d1 & Hk1 & He1 & Hn1 & Hd1) n1' e1' d1' n2 e2 d2 Hk1' Hk2.
    rewrite Hk1 in Hk1'. rewrite Hk in Hk2. simplify_eq.
    split; [intros ->; tauto|]. split; [intros ->; tauto|].
    intros ->. destruct Hd1; [done|tauto].
Qed.

Lemma filter_fold_inv lines : ∀ self kept dups acc,
  accepted_inv self (acc ++ kept) →
  accepted_inv (fst (fst (foldl filter_step (self, kept, dups) lines)))
               (acc ++ snd (fst (foldl filter_step (self, kept, dups) lines)))
  ∧ keys_le self (fst (fst (foldl filter_step (self, kept, dups) lines))).
Proof.
  induction lines as [|line lines IH]; intros self kept dups acc Hinv; cbn [foldl];
    [done|].
  pose proof (filter_step_inv self kept dups line acc Hinv) as Hstep.
  pose proof (filter_step_le self kept dups line) as Hle.
  destruct (filter_step (self, kept, dups) line) as [[self1 kept1] dups1].
  simpl in Hstep, Hle. destruct (IH self1 kept1 dups1 acc Hstep) as [Hinv' Hle'].
  split; [done|]. by etrans.
Qed.

Lemma set_stats_le self st : keys_le self (set_stats st self) ∧ keys_le (set_stats st self) self.
Proof. by split. Qed.

Lemma parse_and_filter_batch_inv self batch_data acc :
  accepted_inv self acc →
  accepted_inv (fst (_parse_and_filter_batch self batch_data))
               (acc ++ accepted_lines self batch_data)
  ∧ keys_le self (fst (_parse_and_filter_batch self batch_data)).
Proof.
  intros Hinv. unfold _parse_and_filter_batch, accepted_lines.
  destruct (Py.truthy batch_data); simpl; [|by rewrite app_nil_r].
  destruct (filter_fold_inv (Py.split LF (Py.strip batch_data)) self [] 0 acc)
    as [[Hreg Hpair] Hle]; [by rewrite app_nil_r|].
  destruct (foldl filter_step (self, [], 0) (Py.split LF (Py.strip batch_data)))
    as [[self1 kept] dups]. simpl in *.
  destruct (0 <? dups); simpl; [|done].
  split; [|done]. split; [|done].
  eapply Forall_impl; [exact Hreg|]. intros l. by apply registered_mono.
Qed.


(** ** generate_batch and gather *)

(** The remote call of batch [n] raises, or reading its text does. *)
Definition remote_fails (E : Environment) (n : nat) : bool :=
  match generate_content_async E n with
  | Raise _ => true
  | Ok response => match text response with Raise _ => true | Ok _ => false end
  end.

(** From [a] to [b] the generator made [k] more failures and nothing else
    that the statistics or the files can see. *)
Definition gen_step (k : nat) (a b : LeadGenerator) : Prop :=
  config b = config a
  ∧ backup_data b = backup_data a
  ∧ rotator_ok (api_rotator b)
  ∧ keys_le a b
  ∧ completed_batches (stats b) = completed_batches (stats a)
  ∧ total_leads_generated (stats b) = total_leads_generated (stats a)
  ∧ failed_batches (stats b) = failed_batches (stats a) + k.

Lemma gen_step_refl a : rotator_ok (api_rotator a) → gen_step 0 a a.
Proof. intros ?. unfold gen_step. repeat split; try done; lia. Qed.

Lemma gen_step_trans j k a b c :
  gen_step j a b → gen_step k b c → gen_step (j + k) a c.
Proof.
  intros (Hc&Hb&Hr&Hk&Hco&Ht&Hf) (Hc'&Hb'&Hr'&Hk'&Hco'&Ht'&Hf'). unfold gen_step.
  split; [congruence|]. split; [congruence|]. split; [done|].
  split; [by etrans|]. split; [congruence|]. split; [congruence|lia].
Qed.

Lemma generate_batch_request_spec E n self :
  rotator_ok (api_rotator self) →
  ∃ self', generate_batch_request E n self = Ok self' ∧ gen_step 0 self self'.
Proof.
  intros Hok. unfold generate_batch_request.
  destruct (rotate_key_ok (random_rotation E n) (api_rotator self) Hok)
    as (k & r1 & -> & Hok1 & _). simpl.
  destruct (configure_genai_ok (configure_raises E n) (random_rotation_on_error E n) r1 Hok1)
    as (b & r2 & -> & Hok2). simpl.
  eexists. split; [done|]. unfold gen_step. simpl. repeat split; try done; lia.
Qed.

Lemma parse_and_filter_batch_step self batch_data :
  rotator_ok (api_rotator self) →
  gen_step 0 self (fst (_parse_and_filter_batch self batch_data)).
Proof.
  intros Hok.
  destruct (parse_and_filter_batch_inv self batch_data []) as [_ Hle].
  { split; constructor. }
  revert Hle. unfold _parse_and_filter_batch.
  destruct (Py.truthy batch_data); simpl; [|intros; by apply gen_step_refl].
  set (lines := Py.split LF (Py.strip batch_data)).
  assert (Hfold : ∀ st,
    config (fst (fst (foldl filter_step st lines))) = config (fst (fst st))
    ∧ backup_data (fst (fst (foldl filter_step st lines))) = backup_data (fst (fst st))
    ∧ api_rotator (fst (fst (foldl filter_step st lines))) = api_rotator (fst (fst st))
    ∧ stats (fst (fst (foldl filter_step st lines))) = stats (fst (fst st))).
  { induction lines as [|line lines IH]; intros st; cbn [foldl]; [done|].
    destruct (IH (filter_step st line)) as (-> & -> & -> & ->).
    destruct st as [[s kept] dups].
    destruct (filter_step_cases s kept dups line)
      as [->|[->|(n' & e & d & _ & _ & _ & ->)]]; simpl; try done.
    destruct (register_keys_sets s n' e d) as (_ & _ & _ & -> & -> & -> & ->). done. }
  specialize (Hfold (self, [], 0)).
  destruct (foldl filter_step (self, [], 0) lines) as [[self1 kept] dups].
  simpl in Hfold. destruct Hfold as (Hc & Hb & Hr & Hs).
  intros Hle. unfold gen_step.
  destruct (0 <? dups); simpl in *; rewrite Hr, Hs;
    (split; [done|]; split; [done|]; split; [done|]; split; [done|];
     split; [done|]; split; [done|lia]).
Qed.

Lemma generate_batch_resume_spec E n self w :
  rotator_ok (api_rotator self) →
  gen_step (if remote_fails E n then 1 else 0) self
           (fst (fst (generate_batch_resume E n self w)))
  ∧ files (snd (fst (generate_batch_resume E n self w))) = files w
  ∧ (snd (generate_batch_resume E n self w) = None ↔ remote_fails E n = true).
Proof.
  intros Hok. unfold generate_batch_resume, remote_fails.
  destruct (generate_content_async E n) as [response|e]; simpl.
  2:{ split; [|done]. unfold gen_step. simpl.
      split; [done|]. split; [done|]. split; [done|]. done. }
  destruct (increment_usage_ok _ Hok) as (r & -> & Hok').
  destruct (text response) as [t|e]; simpl.
  2:{ split; [|done]. unfold gen_step. simpl.
      split; [done|]. split; [done|]. split; [done|]. done. }
  pose proof (parse_and_filter_batch_step (set_api_rotator r self) (Py.strip t) Hok')
    as Hstep.
  destruct (_parse_and_filter_batch (set_api_rotator r self) (Py.strip t))
    as [self' filtered]. simpl in *.
  split; [|done]. done.
Qed.

(** How many of the batches [ns] have a failing remote call. *)
Definition count_fails (E : Environment) (ns : list nat) : nat :=
  length (filter (λ n, remote_fails E n = true) ns).

Lemma count_fails_cons E n ns :
  count_fails E (n :: ns) = (if remote_fails E n then 1 else 0) + count_fails E ns.
Proof.
  unfold count_fails. rewrite filter_cons.
  destruct (remote_fails E n); by case_decide.
Qed.

Lemma count_fails_perm E l1 l2 : l1 ≡ₚ l2 → count_fails E l1 = count_fails E l2.
Proof. intros Hp. unfold count_fails. by rewrite Hp. Qed.

(** Every result recorded is [None] exactly for a failing call. *)
Definition results_ok (E : Environment) (results : gmap nat (option string)) : Prop :=
  ∀ n r, results !! n = Some r → (r = None ↔ remote_fails E n = true).

Lemma start_tasks_spec E w ns : ∀ self pending results,
  rotator_ok (api_rotator self) →
  ∃ self',
    foldl (start_task E) (self, w, pending, results) ns
      = (self', w, pending ++ ns, results)
    ∧ gen_step 0 self self'.
Proof.
  induction ns as [|n ns IH]; intros self pending results Hok; cbn [foldl].
  { exists self. rewrite app_nil_r. split; [done|]. by apply gen_step_refl. }
  destruct (generate_batch_request_spec E n self Hok) as (self1 & Hreq & Hstep1).
  unfold start_task at 2. rewrite Hreq.
  destruct (IH self1 (pending ++ [n]) results) as (self' & -> & Hstep2).
  { apply Hstep1. }
  exists self'. rewrite <-app_assoc. split; [done|].
  apply (gen_step_trans 0 0 _ _ _ Hstep1 Hstep2).
Qed.

Lemma resume_tasks_spec E l : ∀ self w results,
  rotator_ok (api_rotator self) →
  results_ok E results →
  ∃ self' w' results',
    foldl (resume_task E) (self, w, results) l = (self', w', results')
    ∧ gen_step (count_fails E l) self self'
    ∧ files w' = files w
    ∧ results_ok E results'
    ∧ ∀ n, n ∈ l ∨ is_Some (results !! n) → is_Some (results' !! n).
Proof.
  induction l as [|n l IH]; intros self w results Hok Hres; cbn [foldl].
  { exists self, w, results. split; [done|]. split; [by apply gen_step_refl|].
    split; [done|]. split; [done|]. intros n [Hn|Hn]; [by apply elem_of_nil in Hn|done]. }
  destruct (generate_batch_resume_spec E n self w Hok) as (Hstep1 & Hfiles1 & Hnone).
  unfold resume_task at 2.
  destruct (generate_batch_resume E n self w) as [[self1 w1] r]. simpl in *.
  destruct (IH self1 w1 (<[n := r]> results)) as (self' & w' & results' & -> & Hstep2 & Hfiles2 & Hres' & Hdom).
  { apply Hstep1. }
  { intros m r' Hm. destruct (decide (n = m)) as [->|Hne].
    - rewrite lookup_insert_eq in Hm. by injection Hm as <-.
    - rewrite lookup_insert_ne in Hm by done. by apply Hres. }
  exists self', w', results'. split; [done|]. split.
  { rewrite count_fails_cons. apply (gen_step_trans _ _ _ _ _ Hstep1 Hstep2). }
  split; [congruence|]. split; [done|].
  intros m Hm. apply Hdom. destruct (decide (n = m)) as [->|Hne].
  - right. by rewrite lookup_insert_eq.
  - rewrite lookup_insert_ne by done. destruct Hm as [Hm|Hm]; [|by right].
    left. apply elem_of_cons in Hm as [->|Hm]; done.
Qed.

Lemma completion_order_perm E pending : completion_order E pending ≡ₚ pending.
Proof. apply merge_sort_Permutation. Qed.

(** What [gather] returns: one result per batch, [None] exactly for the
    failing calls, each of which is counted once. *)
Lemma gather_spec E ns self w :
  rotator_ok (api_rotator self) →
  ∃ self' w' rs,
    gather E ns self w = (self', w', rs)
    ∧ gen_step (count_fails E ns) self self'
    ∧ files w' = files w
    ∧ Forall2 (λ n r, r = None ↔ remote_fails E n = true) ns rs.
Proof.
  intros Hok. unfold gather.
  destruct (start_tasks_spec E w ns self [] ∅ Hok) as (self1 & -> & Hstep1).
  destruct (resume_tasks_spec E (completion_order E ([] ++ ns)) self1 w ∅)
    as (self' & w' & results & -> & Hstep2 & Hfiles & Hres & Hdom).
  { apply Hstep1. }
  { intros n r Hn. by rewrite lookup_empty in Hn. }
  exists self', w', (map (λ n, default None (results !! n)) ns).
  split; [done|]. split.
  { rewrite (count_fails_perm E _ _ (completion_order_perm E ([] ++ ns))) in Hstep2.
    apply (gen_step_trans 0 _ _ _ _ Hstep1 Hstep2). }
  split; [done|].
  apply Forall2_fmap_r, Forall_Forall2_diag, Forall_forall. intros n Hn.
  destruct (Hdom n) as [r Hr].
  { left. by rewrite completion_order_perm. }
  simpl. rewrite Hr. simpl. by apply (Hres n).
Qed.

(** ** The results of a window *)

Lemma str_app_cons x a b : String x a +:+ b = String x (a +:+ b).
Proof. reflexivity. Qed.

Lemma str_app_assoc a b c : (a +:+ b) +:+ c = a +:+ (b +:+ c).
Proof. induction a as [|x a IH]; [done|]. by rewrite !str_app_cons, IH. Qed.

Lemma str_app_nil_r a : a +:+ EmptyString = a.
Proof. induction a as [|x a IH]; [done|]. by rewrite str_app_cons, IH. Qed.

(** The text of a result that is written: a string with enough data. *)
Definition kept_text (r : option string) : option string :=
  match r with
  | Some t => if enough_data t then Some t else None
  | None => None
  end.

Definition kept_texts (rs : list (option string)) : list string := omap kept_text rs.

Lemma kept_texts_cons r rs : kept_texts (r :: rs) = kept_texts [r] ++ kept_texts rs.
Proof. unfold kept_texts. simpl. by destruct (kept_text r). Qed.

(** What the texts [ts] add to the master file. *)
Fixpoint written (ts : list string) : string :=
  match ts with
  | [] => EmptyString
  | t :: ts' => t +:+ newline +:+ written ts'
  end.

Lemma written_app ts1 ts2 : written (ts1 ++ ts2) = written ts1 +:+ written ts2.
Proof.
  induction ts1 as [|t ts1 IH]; simpl; [done|].
  by rewrite IH, !str_app_assoc.
Qed.

(** From [a] to [b] the results with texts [ts] were saved, and nothing else
    happened. *)
Definition handled (ts : list string) (a b : LeadGenerator) : Prop :=
  config b = config a
  ∧ api_rotator b = api_rotator a
  ∧ generated_emails b = generated_emails a
  ∧ generated_names b = generated_names a
  ∧ generated_domains b = generated_domains a
  ∧ failed_batches (stats b) = failed_batches (stats a)
  ∧ duplicates_prevented (stats b) = duplicates_prevented (stats a)
  ∧ completed_batches (stats b) = completed_batches (stats a) + length ts
  ∧ map entry_data (backup_data b) = map entry_data (backup_data a) ++ ts.

Lemma handled_refl a : handled [] a a.
Proof.
  unfold handled. rewrite app_nil_r. simpl.
  split; [done|]. split; [done|]. split; [done|]. split; [done|]. split; [done|].
  split; [done|]. split; [done|]. split; [lia|done].
Qed.

Lemma handled_trans ts1 ts2 a b c :
  handled ts1 a b → handled ts2 b c → handled (ts1 ++ ts2) a c.
Proof.
  intros (H1&H2&H3&H4&H5&H6&H7&H8&H9) (G1&G2&G3&G4&G5&G6&G7&G8&G9).
  unfold handled. rewrite length_app, app_assoc, <-H9, <-G9.
  split; [congruence|]. split; [congruence|]. split; [congruence|].
  split; [congruence|]. split; [congruence|]. split; [congruence|].
  split; [congruence|]. split; [lia|done].
Qed.

Lemma handle_result_spec E self w f n r :
  handled (kept_texts [r]) self (fst (fst (handle_result E (self, w, f) (n, r))))
  ∧ snd (handle_result E (self, w, f) (n, r)) = f +:+ written (kept_texts [r])
  ∧ files (snd (fst (handle_result E (self, w, f) (n, r)))) = files w.
Proof.
  unfold handle_result, kept_texts, save_results. simpl.
  destruct r as [t|]; simpl.
  2:{ rewrite str_app_nil_r. split; [apply handled_refl|done]. }
  destruct (enough_data t) eqn:Het; simpl.
  2:{ rewrite str_app_nil_r. split; [apply handled_refl|done]. }
  rewrite str_app_nil_r. split; [|done].
  unfold handled. simpl. rewrite map_app. simpl.
  split; [done|]. split; [done|]. split; [done|]. split; [done|]. split; [done|].
  split; [done|]. split; [done|]. done.
Qed.

Lemma handle_results_spec E rs : ∀ ns self w f,
  length ns = length rs →
  handled (kept_texts rs) self
          (fst (fst (foldl (handle_result E) (self, w, f) (zip ns rs))))
  ∧ snd (foldl (handle_result E) (self, w, f) (zip ns rs))
      = f +:+ written (kept_texts rs)
  ∧ files (snd (fst (foldl (handle_result E) (self, w, f) (zip ns rs)))) = files w.
Proof.
  induction rs as [|r rs IH]; intros [|n ns] self w f Hlen; try done.
  { simpl. rewrite str_app_nil_r. split; [apply handled_refl|done]. }
  injection Hlen as Hlen. cbn [zip_with foldl].
  destruct (handle_result_spec E self w f n r) as (H1 & H2 & H3).
  destruct (handle_result E (self, w, f) (n, r)) as [[self1 w1] f1].
  cbn [fst snd] in H1, H2, H3.
  destruct (IH ns self1 w1 f1 Hlen) as (G1 & G2 & G3).
  rewrite (kept_texts_cons r rs).
  split; [by eapply handled_trans|]. split; [|congruence].
  by rewrite G2, H2, written_app, str_app_assoc.
Qed.

(** ** process_batches *)

(** From [a] to [b]: [fails] more failed batches, and the texts [ts] saved
    as completed batches, in this order. *)
Definition run_step (fails : nat) (ts : list string) (a b : LeadGenerator) : Prop :=
  config b = config a
  ∧ rotator_ok (api_rotator b)
  ∧ keys_le a b
  ∧ failed_batches (stats b) = failed_batches (stats a) + fails
  ∧ completed_batches (stats b) = completed_batches (stats a) + length ts
  ∧ map entry_data (backup_data b) = map entry_data (backup_data a) ++ ts.

Lemma run_step_refl a : rotator_ok (api_rotator a) → run_step 0 [] a a.
Proof.
  intros Hok. unfold run_step. rewrite app_nil_r. simpl.
  split; [done|]. split; [done|]. split; [done|]. split; [lia|]. split; [lia|done].
Qed.

Lemma run_step_trans k1 k2 ts1 ts2 a b c :
  run_step k1 ts1 a b → run_step k2 ts2 b c → run_step (k1 + k2) (ts1 ++ ts2) a c.
Proof.
  intros (H1&H2&H3&H4&H5&H6) (G1&G2&G3&G4&G5&G6).
  unfold run_step. rewrite length_app, app_assoc, <-H6, <-G6.
  split; [congruence|]. split; [done|]. split; [by etrans|].
  split; [lia|]. split; [lia|done].
Qed.

Lemma gen_step_handled k ts a b c :
  gen_step k a b → handled ts b c → run_step k ts a c.
Proof.
  intros (H1&H2&H3&H4&H5&H6&H7) (G1&G2&G3&G4&G5&G6&G7&G8&G9).
  unfold run_step. rewrite G2, G9, H2.
  split; [congruence|]. split; [done|]. split.
  { destruct H4 as (?&?&?). unfold keys_le. by rewrite G3, G4, G5. }
  split; [lia|]. split; [lia|done].
Qed.

(** The results [gather] returns for the window that starts at [i]. *)
Definition window_results (E : Environment) (i : nat) (self : LeadGenerator) (w : World)
  : list (option string) :=
  snd (gather E (window_batch_nums (config self) i) self w).

Lemma process_window_spec E i self w f :
  rotator_ok (api_rotator self) →
  backup_interval (config self) ≠ 0 →
  let ns := window_batch_nums (config self) i in
  let rs := window_results E i self w in
  ∃ self' w' f',
    process_window E i (self, w, f) = (self', w', f', Ok ())
    ∧ run_step (count_fails E ns) (kept_texts rs) self self'
    ∧ f' = f +:+ written (kept_texts rs)
    ∧ Forall2 (λ n r, r = None ↔ remote_fails E n = true) ns rs.
Proof.
  intros Hok Hint ns rs. unfold process_window, rs, window_results. fold ns.
  destruct (gather_spec E ns self w Hok) as (self1 & w1 & rs1 & -> & Hgen & _ & Hres).
  cbn [snd].
  destruct (handle_results_spec E rs1 ns self1 w1 f) as (Hh & Hf & _).
  { by eapply Forall2_length. }
  destruct (foldl (handle_result E) (self1, w1, f) (zip ns rs1)) as [[self2 w2] f2].
  cbn [fst snd] in Hh, Hf.
  apply Nat.eqb_neq in Hint as ->.
  pose proof (gen_step_handled _ _ _ _ _ Hgen Hh) as Hrun.
  destruct (_ =? 0); eexists _, _, _; (split; [done|]); done.
Qed.

(** The results of all the windows, in batch order. *)
Fixpoint windows_results (E : Environment) (starts : list nat)
    (st : LeadGenerator * World * string) : list (option string) :=
  match starts with
  | [] => []
  | i :: starts' =>
      window_results E i (fst (fst st)) (snd (fst st))
      ++ windows_results E starts' (fst (process_window E i st))
  end.

Lemma count_fails_app E l1 l2 :
  count_fails E (l1 ++ l2) = count_fails E l1 + count_fails E l2.
Proof. unfold count_fails. by rewrite filter_app, length_app. Qed.

Lemma kept_texts_app rs1 rs2 : kept_texts (rs1 ++ rs2) = kept_texts rs1 ++ kept_texts rs2.
Proof. unfold kept_texts. apply omap_app. Qed.

Lemma process_windows_spec E starts : ∀ self w f,
  rotator_ok (api_rotator self) →
  backup_interval (config self) ≠ 0 →
  let ns := flat_map (window_batch_nums (config self)) starts in
  let rs := windows_results E starts (self, w, f) in
  ∃ self' w' f',
    process_windows E starts (self, w, f) = (self', w', f', Ok ())
    ∧ run_step (count_fails E ns) (kept_texts rs) self self'
    ∧ f' = f +:+ written (kept_texts rs)
    ∧ Forall2 (λ n r, r = None ↔ remote_fails E n = true) ns rs.
Proof.
  induction starts as [|i starts IH]; intros self w f Hok Hint; cbn zeta.
  { exists self, w, f. simpl. rewrite str_app_nil_r.
    split; [done|]. split; [by apply run_step_refl|]. split; [done|constructor]. }
  destruct (process_window_spec E i self w f Hok Hint)
    as (self1 & w1 & f1 & Hwin & Hrun1 & Hf1 & Hres1).
  cbn [process_windows windows_results flat_map fst snd]. rewrite Hwin. cbn [fst].
  assert (Hcfg : config self1 = config self) by apply Hrun1.
  destruct (IH self1 w1 f1) as (self' & w' & f' & -> & Hrun2 & Hf2 & Hres2).
  { apply Hrun1. }
  { by rewrite Hcfg. }
  rewrite Hcfg in Hrun2, Hres2.
  exists self', w', f'. split; [done|].
  rewrite count_fails_app, kept_texts_app, written_app.
  split; [by eapply run_step_trans|]. split.
  - by rewrite Hf2, Hf1, str_app_assoc.
  - by apply Forall2_app.
Qed.

(** The windows cover the batches [1 .. num_batches], each once, in order. *)
Lemma windows_cover cfg starts :
  window_starts cfg = Ok starts →
  flat_map (window_batch_nums cfg) starts = seq 1 (num_batches cfg).
Proof.
  unfold window_starts. destruct (concurrency_level cfg =? 0) eqn:Hc; [done|].
  apply Nat.eqb_neq in Hc. intros [= <-].
  set (c := concurrency_level cfg) in *. set (nb := num_batches cfg).
  set (m := (nb + c - 1) / c).
  assert (Hm1 : m * c ≤ nb + c - 1).
  { unfold m. rewrite Nat.mul_comm. apply Nat.Div0.mul_div_le. }
  assert (Hm2 : nb + c - 1 < (m + 1) * c).
  { unfold m. pose proof (Nat.div_mod (nb + c - 1) c Hc).
    pose proof (Nat.mod_upper_bound (nb + c - 1) c Hc). nia. }
  assert (Hj : ∀ j, j ≤ m →
    flat_map (window_batch_nums cfg) (map (λ k, S (k * c)) (seq 0 j))
      = seq 1 (Nat.min (j * c) nb)).
  { induction j as [|j IH]; intros Hle; [done|].
    rewrite seq_S, map_app, flat_map_app, IH by lia. simpl.
    rewrite app_nil_r. unfold window_batch_nums. fold c nb.
    assert (j * c < nb) by nia.
    replace (Nat.min (j * c) nb) with (j * c) by lia.
    change (S (j * c)) with (1 + j * c).
    rewrite <-seq_app. f_equal. nia. }
  rewrite (Hj m) by done. f_equal. nia.
Qed.

(** What a whole run does when the configuration is usable. *)
Lemma process_batches_spec E self w :
  rotator_ok (api_rotator self) →
  concurrency_level (config self) ≠ 0 →
  backup_interval (config self) ≠ 0 →
  num_batches (config self) ≠ 0 →
  ∃ starts self' w',
    window_starts (config self) = Ok starts
    ∧ process_batches E self w = (self', w', Ok ())
    ∧ let ns := seq 1 (num_batches (config self)) in
      let rs := windows_results E starts (self, w, header) in
      run_step (count_fails E ns) (kept_texts rs) self self'
      ∧ Forall2 (λ n r, r = None ↔ remote_fails E n = true) ns rs
      ∧ (output_file (config self) ≠ backup_file (config self) →
         files w' !! output_file (config self)
           = Some (Text (header +:+ written (kept_texts rs))))
      ∧ files w' !! backup_file (config self) = Some (Json (backup_data self'))
      ∧ last (log w') = Some (FinalStats (stats self') (size (generated_emails self'))).
Proof.
  intros Hok Hc Hint Hnb.
  destruct (window_starts (config self)) as [starts|e] eqn:Hstarts.
  2:{ unfold window_starts in Hstarts. apply Nat.eqb_neq in Hc.
      by rewrite Hc in Hstarts. }
  pose proof (windows_cover _ _ Hstarts) as Hcover.
  destruct (process_windows_spec E starts self w header Hok Hint)
    as (self' & w' & f' & Hwin & Hrun & Hf & Hres).
  rewrite Hcover in Hrun, Hres.
  unfold process_batches. rewrite Hstarts, Hwin.
  assert (Hcfg : config self' = config self) by apply Hrun.
  unfold _log_final_stats. rewrite Hcfg.
  apply Nat.eqb_neq in Hnb as ->.
  eexists starts, self', _. split; [done|]. split; [done|]. cbn zeta.
  split; [done|]. split; [done|]. unfold save_backup. simpl. rewrite Hcfg.
  split; [|split].
  - intros Hne. rewrite lookup_insert_ne by done. by rewrite lookup_insert_eq, Hf.
  - by rewrite lookup_insert_eq.
  - by rewrite last_snoc.
Qed.

(** ** The key sets grow under every operation of a run *)











(** ** Runs on concrete responses *)

(** An environment whose remote call answers by [responses], resolves in
    batch order, never rotates at random and configures without error. *)
Definition env_of (responses : nat → result Response) : Environment := {|
  generate_content_async := responses;
  completion_time := λ n, n;
  random_rotation := λ _, false;
  configure_raises := λ _, false;
  random_rotation_on_error := λ _, false;
  isoformat_now := λ _, "2025-01-01T09:00:00"
|}.

(** [Config()] with the batch settings replaced. *)
Definition config_with (batches concurrency interval : nat) : Config := {|
  num_batches := batches;
  concurrency_level := concurrency;
  leads_per_batch := 15;
  api_delay := (3 # 10)%Q;
  backup_interval := interval;
  max_retries := 3;
  retry_delay := 2%Q;
  min_opportunity_score := 60;
  duplicate_check_enabled := true;
  email_validation_enabled := true;
  timestamp := "20250101_0900";
  output_file := "MASTER_LEADS_10K_20250101_0900.csv";
  backup_file := "leads_backup_20250101_0900.json";
  progress_file := "progress_checkpoint_20250101_0900.json";
  premium_leads_file := "PREMIUM_leads_20250101_0900.csv";
  standard_leads_file := "standard_leads_20250101_0900.csv";
  emerging_leads_file := "emerging_business_leads_20250101_0900.csv"
|}.

Definition empty_world : World := {| files := ∅; log := [] |}.





(** ** Failed batches and batches with too little data *)

(** The texts of the results that are not [None]. *)
Fixpoint result_texts (rs : list (option string)) : list string :=
  match rs with
  | [] => []
  | Some t :: rs' => t :: result_texts rs'
  | None :: rs' => result_texts rs'
  end.

Lemma results_split E ns rs :
  Forall2 (λ n r, r = None ↔ remote_fails E n = true) ns rs →
  length (result_texts rs) + count_fails E ns = length ns.
Proof.
  induction 1 as [|n r ns rs Hnr _ IH]; [done|].
  rewrite count_fails_cons. generalize dependent (count_fails E ns). intros c IH.
  destruct r as [t|]; simpl.
  - destruct (remote_fails E n); [|lia].
    destruct Hnr as [_ Hnone]. by specialize (Hnone eq_refl).
  - assert (remote_fails E n = true) as -> by (by apply Hnr). lia.
Qed.

Lemma kept_texts_all_enough rs :
  (∀ t, Some t ∈ rs → enough_data t = true) → kept_texts rs = result_texts rs.
Proof.
  induction rs as [|r rs IH]; intros Hall; [done|].
  rewrite kept_texts_cons, IH by (intros t Ht; apply Hall; by right).
  destruct r as [t|]; [|done]. unfold kept_texts. simpl.
  rewrite (Hall t); [done|by left].
Qed.

Lemma kept_texts_le rs : length (kept_texts rs) ≤ length (result_texts rs).
Proof.
  induction rs as [|r rs IH]; [done|].
  rewrite kept_texts_cons, length_app.
  generalize dependent (length (kept_texts rs)). intros k IH.
  destruct r as [t|]; unfold kept_texts; simpl; [|lia].
  destruct (enough_data t); simpl; lia.
Qed.

Lemma not_enough_data r : String.length (Py.strip r) ≤ 50 → enough_data r = false.
Proof.
  intros Hlen. unfold enough_data. apply andb_false_iff. right.
  by apply Nat.ltb_ge.
Qed.

(** C9 (amended).  With a usable configuration the run ends normally
    whatever the remote calls do.  A batch whose remote call or response
    parsing raises returns no result, and the failed-batch counter grows by
    exactly the number of such batches; the batches whose filtered text has
    enough data (more than 50 characters) are the completed ones, and the
    master file is the header followed by their texts, in batch order.  In
    particular with four batches of which exactly two fail, when the two
    others return text with enough data, the run reports two failed and two
    completed batches and the file holds the header and those two texts. *)
Theorem failed_batches_counted_once (E : Environment) (self : LeadGenerator) (w : World) :
  rotator_ok (api_rotator self) →
  concurrency_level (config self) ≠ 0 →
  backup_interval (config self) ≠ 0 →
  num_batches (config self) ≠ 0 →
  output_file (config self) ≠ backup_file (config self) →
  ∃ starts self' w',
    window_starts (config self) = Ok starts
    ∧ process_batches E self w = (self', w', Ok ())
    ∧ let ns := seq 1 (num_batches (config self)) in
      let rs := windows_results E starts (self, w, header) in
      Forall2 (λ n r, r = None ↔ remote_fails E n = true) ns rs
      ∧ failed_batches (stats self')
        = failed_batches (stats self) + count_fails E ns
      ∧ completed_batches (stats self')
        = completed_batches (stats self) + length (kept_texts rs)
      ∧ files w' !! output_file (config self)
        = Some (Text (header +:+ written (kept_texts rs)))
      ∧ (num_batches (config self) = 4 →
         count_fails E ns = 2 →
         (∀ t, Some t ∈ rs → enough_data t = true) →
         ∃ t1 t2,
           result_texts rs = [t1; t2]
           ∧ failed_batches (stats self') = failed_batches (stats self) + 2
           ∧ completed_batches (stats self') = completed_batches (stats self) + 2
           ∧ files w' !! output_file (config self)
             = Some (Text (header +:+ t1 +:+ newline +:+ t2 +:+ newline))).
Proof.
  intros Hok Hc Hint Hnb Hout.
  destruct (process_batches_spec E self w Hok Hc Hint Hnb)
    as (starts & self' & w' & Hstarts & Hrun & Hstep & Hres & Hfile & _).
  exists starts, self', w'. split; [done|]. split; [done|]. cbn zeta.
  destruct Hstep as (_ & _ & _ & Hfailed & Hcompleted & _).
  specialize (Hfile Hout).
  split; [done|]. split; [done|]. split; [done|]. split; [done|].
  intros H4 H2 Henough.
  pose proof (results_split E _ _ Hres) as Hsplit.
  rewrite H2, length_seq, H4 in Hsplit.
  pose proof (kept_texts_all_enough _ Henough) as Hkept.
  destruct (result_texts (windows_results E starts (self, w, header)))
    as [|t1 [|t2 [|t3 ts]]] eqn:Htexts; simpl in Hsplit; try lia.
  exists t1, t2. split; [done|].
  rewrite Hfailed, Hcompleted, Hfile, H2, Hkept. simpl.
  split; [done|]. split; [done|]. by rewrite str_app_nil_r.
Qed.

Definition long_line_a : string :=
  "Acme Plumbing,info@acme-plumbing.com,https://www.acme-plumbing.com,home improvement".
Definition long_line_b : string :=
  "Bolt Fitness,hello@boltfitness.io,https://boltfitness.io/join,health and wellness".
Definition short_line_a : string := "Acme Plumbing,info@acme.com,https://acme.com".
Definition short_line_b : string := "Bolt Fitness,hello@bolt.io,https://bolt.io".

(** Four calls: the first and the last answer, the second raises, the text
    of the third cannot be read. *)
Definition two_of_four_fail (a b : string) (n : nat) : result Response :=
  match n with
  | 1 => Ok {| text := Ok a |}
  | 2 => Raise (OtherError "503 service unavailable")
  | 3 => Ok {| text := Raise (ValueError "response has no text") |}
  | _ => Ok {| text := Ok b |}
  end.

Lemma failed_batches_counted_once_witness :
  let E := env_of (two_of_four_fail long_line_a long_line_b) in
  let self := generator0 (config_with 4 2 25) in
  rotator_ok (api_rotator self)
  ∧ concurrency_level (config self) ≠ 0
  ∧ backup_interval (config self) ≠ 0
  ∧ num_batches (config self) ≠ 0
  ∧ output_file (config self) ≠ backup_file (config self)
  ∧ ∃ self' w',
      process_batches E self empty_world = (self', w', Ok ())
      ∧ failed_batches (stats self') = 2
      ∧ completed_batches (stats self') = 2
      ∧ files w' !! output_file (config self)
        = Some (Text (header +:+ long_line_a +:+ newline +:+ long_line_b +:+ newline)).
Proof.
  cbv zeta.
  assert (H1 : rotator_ok (api_rotator (generator0 (config_with 4 2 25))))
    by (unfold rotator_ok; simpl; lia).
  assert (H2 : concurrency_level (config (generator0 (config_with 4 2 25))) ≠ 0)
    by (simpl; lia).
  assert (H3 : backup_interval (config (generator0 (config_with 4 2 25))) ≠ 0)
    by (simpl; lia).
  assert (H4 : num_batches (config (generator0 (config_with 4 2 25))) ≠ 0)
    by (simpl; lia).
  assert (H5 : output_file (config (generator0 (config_with 4 2 25)))
               ≠ backup_file (config (generator0 (config_with 4 2 25))))
    by (vm_compute; discriminate).
  split; [exact H1|]. split; [exact H2|]. split; [exact H3|]. split; [exact H4|].
  split; [exact H5|].
  destruct (failed_batches_counted_once
              (env_of (two_of_four_fail long_line_a long_line_b))
              (generator0 (config_with 4 2 25)) empty_world H1 H2 H3 H4 H5)
    as (starts & self' & w' & Hstarts & Hrun & _ & Hfailed & Hcompleted & Hfile & _).
  vm_compute in Hstarts. injection Hstarts as <-.
  exists self', w'. split; [exact Hrun|].
  split; [rewrite Hfailed; vm_compute; reflexivity|].
  split; [rewrite Hcompleted; vm_compute; reflexivity|].
  rewrite Hfile. vm_compute. reflexivity.
Defined.

(** C9, as stated, fails when the successful batches are short: two of four
    calls fail, the two others return one accepted line each, and the run
    reports no completed batch and writes the header alone. *)
Lemma short_batches_not_completed :
  let E := env_of (two_of_four_fail short_line_a short_line_b) in
  let self := generator0 (config_with 4 2 25) in
  count_fails E [1; 2; 3; 4] = 2
  ∧ snd (gather E [1; 2] self empty_world) = [Some short_line_a; None]
  ∧ completed_batches (stats (fst (fst (process_batches E self empty_world)))) = 0
  ∧ failed_batches (stats (fst (fst (process_batches E self empty_world)))) = 2
  ∧ generated_emails (fst (fst (process_batches E self empty_world)))
    = {["info@acme.com"; "hello@bolt.io"]}
  ∧ files (snd (fst (process_batches E self empty_world)))
      !! "MASTER_LEADS_10K_20250101_0900.csv" = Some (Text header).
Proof. vm_compute. repeat split. Qed.

(** C10.  A result whose text has 50 characters or fewer after stripping is
    handled without a write: the text written through the handle, the backup
    data and the four counters stay as they are, only the warning is logged.
    Over a whole run the completed and the failed batches together never
    exceed the number of batches, and they fall short of it as soon as a call
    succeeds with so little text: in the run on one short batch both
    counters stay at zero. *)
Theorem short_batch_counts_nowhere
    (E : Environment) (self : LeadGenerator) (w : World) (f : string)
    (batch_num : nat) (result : string) :
  String.length (Py.strip result) ≤ 50 →
  handle_result E (self, w, f) (batch_num, Some result)
    = (self, logger (BatchInsufficient batch_num) w, f)
  ∧ save_results E result f self = (f, self)
  ∧ (rotator_ok (api_rotator self) →
     concurrency_level (config self) ≠ 0 →
     backup_interval (config self) ≠ 0 →
     num_batches (config self) ≠ 0 →
     completed_batches (stats (fst (fst (process_batches E self w))))
     + failed_batches (stats (fst (fst (process_batches E self w))))
     ≤ completed_batches (stats self) + failed_batches (stats self)
       + num_batches (config self))
  ∧ (let E1 := env_of (λ _, Ok {| text := Ok short_line_a |}) in
     let run := process_batches E1 (generator0 (config_with 1 1 25)) empty_world in
     snd run = Ok ()
     ∧ completed_batches (stats (fst (fst run))) = 0
     ∧ failed_batches (stats (fst (fst run))) = 0
     ∧ backup_data (fst (fst run)) = []
     ∧ completed_batches (stats (fst (fst run))) + failed_batches (stats (fst (fst run)))
       < num_batches (config_with 1 1 25)).
Proof.
  intros Hshort. apply not_enough_data in Hshort.
  split. { unfold handle_result. by rewrite Hshort. }
  split. { unfold save_results. by rewrite Hshort. }
  split.
  - intros Hok Hc Hint Hnb.
    destruct (process_batches_spec E self w Hok Hc Hint Hnb)
      as (starts & self' & w' & _ & -> & Hstep & Hres & _).
    destruct Hstep as (_ & _ & _ & Hfailed & Hcompleted & _).
    pose proof (results_split E _ _ Hres) as Hsplit. rewrite length_seq in Hsplit.
    pose proof (kept_texts_le (windows_results E starts (self, w, header))).
    simpl. lia.
  - vm_compute. repeat split; lia.
Qed.

Lemma short_batch_counts_nowhere_witness :
  String.length (Py.strip short_line_a) ≤ 50
  ∧ handle_result (env_of (λ _, Ok {| text := Ok short_line_a |}))
      (generator0 (config_with 1 1 25), empty_world, header) (1, Some short_line_a)
    = (generator0 (config_with 1 1 25),
       logger (BatchInsufficient 1) empty_world, header).
Proof.
  assert (Hlen : String.length (Py.strip short_line_a) ≤ 50) by (vm_compute; lia).
  split; [exact Hlen|].
  apply (short_batch_counts_nowhere
           (env_of (λ _, Ok {| text := Ok short_line_a |}))
           (generator0 (config_with 1 1 25)) empty_world header 1 short_line_a Hlen).
Defined.

(** ** Backups *)

(** A response of one record with enough data, different for every batch. *)
Definition lead_line (n : nat) : string :=
  "Lead " +:+ pretty n +:+ ",contact@lead" +:+ pretty n
  +:+ ".example.com,https://lead" +:+ pretty n
  +:+ ".example.com,local service businesses".

Definition all_succeed : Environment := env_of (λ n, Ok {| text := Ok (lead_line n) |}).
Definition all_fail : Environment := env_of (λ _, Raise (OtherError "503 service unavailable")).

Definition is_backup (ev : log_event) : bool :=
  match ev with BackupSaved _ => true | _ => false end.

(** The backups a run on a fresh generator logs, in order. *)
Definition backups_of (E : Environment) (cfg : Config) : list log_event :=
  List.filter is_backup
    (log (snd (fst (process_batches E (generator0 cfg) empty_world)))).

(** C4.  The test [completed_batches % backup_interval == 0] is made once
    per window, after the window's results are handled.  With four batches
    that all succeed, two per window and a backup interval of three, the
    success counter goes 1, 2, then 3, 4: it reaches the multiple 3 inside
    the second window, the test sees 2 and then 4, and the only backup of the
    run is the final one.  With the shipped concurrency 12 and interval 25
    and thirty batches the counter passes 25 unseen as well.  And when every
    batch fails the counter stays at 0, a multiple of the interval, and a
    backup is written after every window. *)
Theorem backup_misses_multiple :
  log (snd (fst (process_batches all_succeed (generator0 (config_with 4 2 3)) empty_world)))
  = [ BatchSuccess 1 0; BatchSuccess 2 0; Progress 2 4 0;
      BatchSuccess 3 0; BatchSuccess 4 0; Progress 4 4 0;
      BackupSaved 4;
      FinalStats {| completed_batches := 4; total_leads_generated := 0;
                    failed_batches := 0; duplicates_prevented := 0 |} 4 ]
  ∧ backups_of all_succeed (config_with 30 12 25) = [BackupSaved 30]
  ∧ backups_of all_fail (config_with 4 2 3)
    = [BackupSaved 0; BackupSaved 0; BackupSaved 0].
Proof. vm_compute. repeat split. Qed.

(** ** The adoption classifier *)

(** A numeric cell compares below (above) a bound: NaN never does. *)
Definition at_most (x : pynum) (b : Q) : Prop := ∃ q, x = Num q ∧ (q <= b)%Q.
Definition at_least (x : pynum) (b : Q) : Prop := ∃ q, x = Num q ∧ (b <= q)%Q.

Lemma num_le_or0 x b : num_le (or0 x) b = true ↔ at_most x b.
Proof.
  unfold at_most. destruct x as [q|]; simpl.
  - destruct (Qeq_bool q 0) eqn:E; simpl; rewrite Qle_bool_iff.
    + apply Qeq_bool_eq in E. split.
      * intros H. exists q. split; [done|]. by rewrite E.
      * intros (q' & [= <-] & H). by rewrite <-E.
    + split; [by exists q|]. by intros (q' & [= <-] & H).
  - split; [done|]. by intros (q & ? & _).
Qed.

Lemma num_ge_or0 x b : num_ge (or0 x) b = true ↔ at_least x b.
Proof.
  unfold at_least. destruct x as [q|]; simpl.
  - destruct (Qeq_bool q 0) eqn:E; simpl; rewrite Qle_bool_iff.
    + apply Qeq_bool_eq in E. split.
      * intros H. exists q. split; [done|]. by rewrite E.
      * intros (q' & [= <-] & H). by rewrite <-E.
    + split; [by exists q|]. by intros (q' & [= <-] & H).
  - split; [done|]. by intros (q & ? & _).
Qed.

(** The sum of the three platform scores of a row. *)
Definition platform_total (row : Series) : nat :=
  score_map_get (Py.lower (instagram_presence row))
  + score_map_get (Py.lower (tiktok_presence row))
  + score_map_get (Py.lower (youtube_shorts_presence row)).

(** The first rule, on the follower count the conversion gave: a binary64
    number, compared with 1000 as such. *)
Definition non_adopter_rule (row : Series) (followers : spec_float) : Prop :=
  at_most (current_social_presence_score row) 3
  ∧ (inject_Z (Z.of_nat (platform_total row)) / 3 <= 1 # 2)%Q
  ∧ at_most (content_frequency_score row) 3
  ∧ float_lt followers (float_of_int 1000) = true.

(** The second rule. *)
Definition high_volume_rule (row : Series) (followers : spec_float) : Prop :=
  at_least (current_social_presence_score row) 4
  ∧ (3 # 2 <= inject_Z (Z.of_nat (platform_total row)) / 3)%Q
  ∧ at_least (content_frequency_score row) 6
  ∧ float_le (float_of_int 1000) followers = true
  ∧ at_least (opportunity_score row) 60.

Lemma average_as_quotient (n : nat) :
  (Qmake (Z.of_nat n) 3 == inject_Z (Z.of_nat n) / 3)%Q.
Proof. unfold Qeq, Qdiv, Qmult, Qinv, inject_Z. simpl. lia. Qed.

Lemma classifier_body row :
  calculate_adoption_level_body row =
  match parse_follower_count (Py.lower (follower_count_estimate row)) with
  | Raise e => Raise e
  | Ok followers =>
      if num_le (or0 (current_social_presence_score row)) 3
         && Qle_bool (Qmake (Z.of_nat (platform_total row)) 3) (1 # 2)
         && num_le (or0 (content_frequency_score row)) 3
         && float_lt followers (float_of_int 1000)
      then Ok "non_adopter"
      else if num_ge (or0 (current_social_presence_score row)) 4
              && Qle_bool (3 # 2) (Qmake (Z.of_nat (platform_total row)) 3)
              && num_ge (or0 (content_frequency_score row)) 6
              && float_le (float_of_int 1000) followers
              && num_ge (or0 (opportunity_score row)) 60
      then Ok "high_volume_poor_results"
      else Ok "moderate_adopter"
  end.
Proof.
  unfold calculate_adoption_level_body, platform_total. simpl.
  rewrite Nat.add_0_r, Nat.add_assoc.
  by destruct (parse_follower_count _).
Qed.

Lemma non_adopter_rule_bool row followers :
  num_le (or0 (current_social_presence_score row)) 3
  && Qle_bool (Qmake (Z.of_nat (platform_total row)) 3) (1 # 2)
  && num_le (or0 (content_frequency_score row)) 3
  && float_lt followers (float_of_int 1000) = true
  ↔ non_adopter_rule row followers.
Proof.
  unfold non_adopter_rule.
  rewrite !andb_true_iff, !num_le_or0, Qle_bool_iff, average_as_quotient.
  tauto.
Qed.

Lemma high_volume_rule_bool row followers :
  num_ge (or0 (current_social_presence_score row)) 4
  && Qle_bool (3 # 2) (Qmake (Z.of_nat (platform_total row)) 3)
  && num_ge (or0 (content_frequency_score row)) 6
  && float_le (float_of_int 1000) followers
  && num_ge (or0 (opportunity_score row)) 60 = true
  ↔ high_volume_rule row followers.
Proof.
  unfold high_volume_rule.
  rewrite !andb_true_iff, !num_ge_or0, Qle_bool_iff, average_as_quotient.
  tauto.
Qed.

(** The three rows of the specification, and one whose follower text does
    not convert. *)
Definition row_non_adopter : Series := {|
  current_social_presence_score := Num 2;
  content_frequency_score := Num 1;
  opportunity_score := Num 70;
  instagram_presence := "none";
  tiktok_presence := "none";
  youtube_shorts_presence := "none";
  follower_count_estimate := "500"
|}.

Definition row_high_volume : Series := {|
  current_social_presence_score := Num 8;
  content_frequency_score := Num 9;
  opportunity_score := Num 80;
  instagram_presence := "strong";
  tiktok_presence := "strong";
  youtube_shorts_presence := "strong";
  follower_count_estimate := "50k"
|}.

Definition row_mid_range : Series := {|
  current_social_presence_score := Num 5;
  content_frequency_score := Num 5;
  opportunity_score := Num 55;
  instagram_presence := "moderate";
  tiktok_presence := "minimal";
  youtube_shorts_presence := "none";
  follower_count_estimate := "2.5k"
|}.

Definition row_bad_followers : Series := {|
  current_social_presence_score := Num 2;
  content_frequency_score := Num 1;
  opportunity_score := Num 70;
  instagram_presence := "none";
  tiktok_presence := "none";
  youtube_shorts_presence := "none";
  follower_count_estimate := "1.2.3"
|}.

(** C6.  [calculate_adoption_level] is a function of the row.  When the
    follower text converts, the row is a non-adopter if social presence is at
    most 3, the average of the three platform scores at most 0.5, content
    frequency at most 3 and the followers, the [float] the conversion gave,
    fewer than 1000; otherwise it has
    high volume and poor results if social presence is at least 4, the
    average at least 1.5, content frequency at least 6, the followers at
    least 1000 and the opportunity score at least 60; otherwise it is a
    moderate adopter.  When the conversion raises it is a moderate adopter.
    The three rows of the specification get the three labels in turn. *)
Theorem adoption_rules_in_order (row : Series) :
  match parse_follower_count (Py.lower (follower_count_estimate row)) with
  | Raise _ => calculate_adoption_level row = "moderate_adopter"
  | Ok followers =>
      (non_adopter_rule row followers
       → calculate_adoption_level row = "non_adopter")
      ∧ (¬ non_adopter_rule row followers → high_volume_rule row followers
         → calculate_adoption_level row = "high_volume_poor_results")
      ∧ (¬ non_adopter_rule row followers → ¬ high_volume_rule row followers
         → calculate_adoption_level row = "moderate_adopter")
  end
  ∧ (score_map_get "none" = 0 ∧ score_map_get "minimal" = 1
     ∧ score_map_get "moderate" = 2 ∧ score_map_get "strong" = 3)
  ∧ calculate_adoption_level row_non_adopter = "non_adopter"
  ∧ calculate_adoption_level row_high_volume = "high_volume_poor_results"
  ∧ calculate_adoption_level row_mid_range = "moderate_adopter"
  ∧ calculate_adoption_level row_bad_followers = "moderate_adopter".
Proof.
  split; [|by vm_compute].
  unfold calculate_adoption_level. rewrite classifier_body.
  destruct (parse_follower_count _) as [followers|e]; [|done].
  pose proof (non_adopter_rule_bool row followers) as H1.
  pose proof (high_volume_rule_bool row followers) as H2.
  destruct (num_le _ _ && _ && _ && _) eqn:E1.
  { split; [done|]. split; intros Hn; exfalso; apply Hn; by apply H1. }
  assert (Hnot1 : ¬ non_adopter_rule row followers).
  { intros Hr. apply H1 in Hr. congruence. }
  split; [done|].
  destruct (num_ge _ _ && _ && _ && _ && _) eqn:E2.
  { split; [done|]. intros _ Hn. exfalso. apply Hn. by apply H2. }
  split; [|done]. intros _ Hr. apply H2 in Hr. congruence.
Qed.

(** ** Segmentation *)

(** [Config] has no attribute of these names. *)
Lemma Config_path_non_adopters cfg :
  Config_path cfg "non_adopters_file" = Raise (AttributeError "non_adopters_file").
Proof. reflexivity. Qed.

Lemma Config_path_moderate_adopters cfg :
  Config_path cfg "moderate_adopters_file"
  = Raise (AttributeError "moderate_adopters_file").
Proof. reflexivity. Qed.

Lemma Config_path_high_volume cfg :
  Config_path cfg "high_volume_poor_results_file"
  = Raise (AttributeError "high_volume_poor_results_file").
Proof. reflexivity. Qed.

Section SegmenterFacts.
Context `{Pandas}.

(** The first bucket never gets to its write. *)
Lemma write_first_bucket_raises cfg df w :
  ∃ e, write_bucket cfg df "non_adopter"
         ["opportunity_score"; "contact_likelihood"] "non_adopters_file" w
       = (w, Raise e)
       ∧ (∀ selected sorted,
            select_eq "adoption_level" "non_adopter" df = Ok selected →
            sort_values ["opportunity_score"; "contact_likelihood"] selected = Ok sorted →
            e = AttributeError "non_adopters_file").
Proof.
  unfold write_bucket, lift, mbind, io_bind.
  destruct (select_eq "adoption_level" "non_adopter" df) as [selected|e1] eqn:Hsel.
  2:{ exists e1. split; [done|]. intros ?? [=]. }
  destruct (sort_values ["opportunity_score"; "contact_likelihood"] selected)
    as [sorted|e2] eqn:Hsort.
  2:{ exists e2. split; [done|]. intros ?? [= <-] Hs. congruence. }
  rewrite Config_path_non_adopters. eexists. split; [done|]. done.
Qed.

Lemma create_segmented_files_raises cfg df w :
  ∃ e, _create_segmented_files cfg df w = (w, Raise e)
       ∧ (∀ selected sorted,
            select_eq "adoption_level" "non_adopter" df = Ok selected →
            sort_values ["opportunity_score"; "contact_likelihood"] selected = Ok sorted →
            e = AttributeError "non_adopters_file").
Proof.
  destruct (write_first_bucket_raises cfg df w) as (e & Hw & He).
  exists e. split; [|done].
  unfold _create_segmented_files, mbind, io_bind. by rewrite Hw.
Qed.

(** The steps before the rewrite always end in an exception, and write no
    file. *)
Lemma segment_before_rewrite_raises cfg w :
  ∃ w1 e, segment_before_rewrite cfg w = (w1, Raise e) ∧ files w1 = files w.
Proof.
  unfold segment_before_rewrite, mbind, io_bind, load_master, lift, io_log.
  destruct (files w !! output_file cfg) as [content|]; [|by eexists _, _].
  assert (∃ r, match read_csv content "utf-8" with
               | Raise UnicodeDecodeError => (w, read_csv content "latin-1")
               | r => (w, r)
               end = (w, r)) as [r ->].
  { destruct (read_csv content "utf-8") as [df|[]]; by eexists. }
  destruct r as [df|e]; [|by eexists _, _].
  destruct (dropna _ df) as [df1|e]; [|by eexists _, _].
  destruct (select_valid _ _ df1) as [df2|e]; [|by eexists _, _].
  destruct (drop_duplicates _ df2) as [df3|e]; [|by eexists _, _].
  destruct (assign_apply _ _ df3) as [df4|e]; [|by eexists _, _].
  destruct (create_segmented_files_raises cfg df4 (logger (SegmentationLoaded (df_len df)) w))
    as (e & -> & _).
  by eexists _, _.
Qed.

Lemma segment_leads_caught cfg w w1 e :
  segment_leads_body cfg w = (w1, Raise e) →
  segment_leads true cfg w = logger (SegmentationError e) w1.
Proof. intros Hbody. unfold segment_leads. simpl. by rewrite Hbody. Qed.

Lemma segment_body_before cfg w w1 e :
  segment_before_rewrite cfg w = (w1, Raise e) →
  segment_leads_body cfg w = (w1, Raise e).
Proof. intros Hb. unfold segment_leads_body, mbind, io_bind. by rewrite Hb. Qed.

End SegmenterFacts.

(** A small engine for the examples: a frame is the list of its data lines,
    reading a text drops the header line, and every other operation succeeds
    and leaves the frame as it is. *)
Definition line_frames : Pandas := {|
  DataFrame := list string;
  read_csv := λ content _,
    match content with
    | Text s => Ok (tail (Py.split LF (Py.strip s)))
    | Json _ => Raise (OtherError "ParserError")
    end;
  df_len := length;
  dropna := λ _ df, Ok df;
  select_valid := λ _ _ df, Ok df;
  drop_duplicates := λ _ df, Ok df;
  assign_apply := λ _ _ df, Ok df;
  select_eq := λ _ _ df, Ok df;
  sort_values := λ _ df, Ok df;
  to_csv := λ df, Py.join newline df
|}.

(** The world after a generation phase that wrote one record. *)
Definition world_with_master : World := {|
  files := {[ "MASTER_LEADS_10K_20250101_0900.csv" := Text (header +:+ long_line_a +:+ newline) ]};
  log := []
|}.

(** C1.  Whatever the engine, the configuration and the files,
    [segment_leads] writes nothing: the three bucket files are not created
    and the master file is not rewritten.  [_create_segmented_files] reads
    [config.non_adopters_file], an attribute [Config] does not have, before
    its first write; the [AttributeError] is caught and logged.  So it is on
    a master file that loads and cleans without error. *)
Theorem segment_leads_writes_nothing `{Pandas} (cfg : Config) (w : World) :
  files (segment_leads true cfg w) = files w
  ∧ (∃ e, last (log (segment_leads true cfg w)) = Some (SegmentationError e))
  ∧ segment_leads false cfg w = logger SegmentationUnavailable w
  ∧ @segment_leads line_frames true (config_with 4 2 25) world_with_master
    = {| files := files world_with_master;
         log := [ SegmentationLoaded 1;
                  SegmentationError (AttributeError "non_adopters_file") ] |}.
Proof.
  destruct (segment_before_rewrite_raises cfg w) as (w1 & e & Hb & Hfiles).
  apply segment_body_before in Hb. apply segment_leads_caught in Hb.
  rewrite Hb. split; [done|]. split.
  { exists e. simpl. by rewrite last_snoc. }
  split; [done|]. by vm_compute.
Qed.

(** C8.  An exception raised in the [try] block of [segment_leads] is
    caught and logged, and nothing more of the pass is done: the result is
    the world as the exception left it, with the error logged.  When the
    exception comes before the master file is written again, the master file
    is as the generation phase left it. *)
Theorem segmentation_failure_keeps_master `{Pandas}
    (cfg : Config) (w w1 : World) (e : exn) :
  segment_before_rewrite cfg w = (w1, Raise e) →
  segment_leads true cfg w = logger (SegmentationError e) w1
  ∧ files (segment_leads true cfg w) !! output_file cfg = files w !! output_file cfg
  ∧ last (log (segment_leads true cfg w)) = Some (SegmentationError e)
  ∧ (∀ w2 e2, segment_leads_body cfg w = (w2, Raise e2) →
              segment_leads true cfg w = logger (SegmentationError e2) w2).
Proof.
  intros Hb.
  destruct (segment_before_rewrite_raises cfg w) as (w1' & e' & Hb' & Hfiles).
  rewrite Hb in Hb'. injection Hb' as <- <-.
  pose proof (segment_leads_caught cfg w w1 e (segment_body_before cfg w w1 e Hb)) as Hs.
  rewrite Hs. split; [done|]. split; [simpl; by rewrite Hfiles|].
  split; [simpl; by rewrite last_snoc|].
  intros w2 e2 Hbody. rewrite <-Hs. by apply segment_leads_caught.
Qed.

Lemma segmentation_failure_keeps_master_witness :
  @segment_before_rewrite line_frames (config_with 4 2 25) world_with_master
    = (logger (SegmentationLoaded 1) world_with_master,
       Raise (AttributeError "non_adopters_file"))
  ∧ files (@segment_leads line_frames true (config_with 4 2 25) world_with_master)
      !! output_file (config_with 4 2 25)
    = files world_with_master !! output_file (config_with 4 2 25).
Proof.
  assert (Hb : @segment_before_rewrite line_frames (config_with 4 2 25) world_with_master
               = (logger (SegmentationLoaded 1) world_with_master,
                  Raise (AttributeError "non_adopters_file")))
    by (vm_compute; reflexivity).
  split; [exact Hb|].
  apply (@segmentation_failure_keeps_master line_frames (config_with 4 2 25)
           world_with_master _ _ Hb).
Defined.

(** * Further properties of the code *)

(** ** _extract_domain as a normal form of URLs *)

(** X1.  The [try] block of [_extract_domain] never raises, so the bare
    [except] is never taken; the result is in lower case, and the case of the
    letters of the URL does not matter. *)
Theorem extract_domain_never_falls_back (url : string) :
  extract_domain_body url = Ok (_extract_domain url)
  ∧ Py.lower (_extract_domain url) = _extract_domain url
  ∧ _extract_domain (Py.lower url) = _extract_domain url.
Proof.
  split; [|split].
  - unfold _extract_domain, extract_domain_body.
    rewrite split_item0. simpl. by rewrite split_item0.
  - apply extract_domain_lower.
  - by rewrite !extract_domain_unfold, lower_idem.
Qed.











Lemma str_app_nil_l a : EmptyString +:+ a = a.
Proof. reflexivity. Qed.







(** ** The duplicate filter: what it returns and what it counts *)

(** A line the loop parses into a record: not blank, not a header, three
    fields at least. *)
Definition is_record (line : string) : bool :=
  negb (skipped_line line) && (3 <=? length (Py.split "," line)).

Lemma line_keys_record line :
  3 ≤ length (Py.split "," line) → ∃ n e d, line_keys line = Ok (Some (n, e, d)).
Proof.
  intros Hlen. destruct (Py.split "," line) as [|f0 [|f1 [|f2 rest]]] eqn:Hsplit;
    simpl in Hlen; try lia.
  rewrite (line_keys_fields _ _ _ _ _ Hsplit). by eexists _, _, _.
Qed.

Lemma filter_step_not_record st line : is_record line = false → filter_step st line = st.
Proof.
  destruct st as [[self kept] dups]. unfold is_record, filter_step.
  destruct (skipped_line line); [done|]. cbn [negb andb].
  intros Hlen%Nat.leb_gt. by rewrite (line_keys_few _ Hlen).
Qed.

Lemma filter_step_is_record self kept dups line :
  is_record line = true →
  ∃ n e d,
    line_keys line = Ok (Some (n, e, d))
    ∧ filter_step (self, kept, dups) line
      = if is_duplicate self n e d then (self, kept, dups + 1)
        else (register_keys self n e d, kept ++ [line], dups).
Proof.
  unfold is_record, filter_step.
  destruct (skipped_line line); [done|]. cbn [negb andb].
  intros Hlen%Nat.leb_le. destruct (line_keys_record line Hlen) as (n & e & d & Hk).
  exists n, e, d. by rewrite Hk.
Qed.

(** The loop leaves the lines kept so far in place and appends lines of the
    batch in their order; every record line is kept or counted. *)
Lemma filter_fold_account lines : ∀ self kept dups,
  ∃ self' more dups',
    foldl filter_step (self, kept, dups) lines = (self', kept ++ more, dups')
    ∧ more `sublist_of` lines
    ∧ Forall (λ line, is_record line = true) more
    ∧ length more + dups' = dups + length (List.filter is_record lines)
    ∧ stats self' = stats self
    ∧ config self' = config self
    ∧ api_rotator self' = api_rotator self
    ∧ backup_data self' = backup_data self.
Proof.
  induction lines as [|line lines IH]; intros self kept dups; cbn [foldl List.filter].
  { exists self, [], dups. rewrite app_nil_r. simpl.
    split; [done|]. split; [done|]. split; [done|]. split; [lia|done]. }
  destruct (is_record line) eqn:Hrec.
  - destruct (filter_step_is_record self kept dups line Hrec) as (n & e & d & _ & ->).
    destruct (is_duplicate self n e d).
    + destruct (IH self kept (dups + 1))
        as (self' & more & dups' & -> & Hsub & Hall & Hlen & Hrest).
      exists self', more, dups'. split; [done|]. split; [by apply sublist_cons|].
      split; [done|]. split; [simpl; lia|done].
    + destruct (IH (register_keys self n e d) (kept ++ [line]) dups)
        as (self' & more & dups' & -> & Hsub & Hall & Hlen & Hs & Hc & Hr & Hb).
      destruct (register_keys_sets self n e d) as (_ & _ & _ & Hs' & Hc' & Hr' & Hb').
      exists self', (line :: more), dups'. rewrite <-app_assoc. simpl.
      split; [done|]. split; [by apply sublist_skip|]. split; [by constructor|].
      split; [lia|]. split; [congruence|]. split; [congruence|]. split; congruence.
  - rewrite (filter_step_not_record _ _ Hrec).
    destruct (IH self kept dups)
      as (self' & more & dups' & -> & Hsub & Hall & Hlen & Hrest).
    exists self', more, dups'. split; [done|]. split; [by apply sublist_cons|done].
Qed.

Lemma split_no_sep c s : Forall (λ l, Py.contains c l = false) (Py.split c s).
Proof.
  induction s as [|d s IH]; simpl; [by repeat constructor|].
  destruct (Ascii.eqb d c) eqn:E; [by constructor|].
  destruct (Py.split c s) as [|w ws]; [by repeat constructor; simpl; rewrite E|].
  apply Forall_cons in IH as [Hw Hws]. constructor; [|done]. simpl. by rewrite E.
Qed.

Lemma count_absent c s : Py.contains c s = false → Py.count c s = 0.
Proof.
  induction s as [|d s IH]; simpl; [done|].
  intros [-> Hs]%orb_false_elim. by rewrite IH.
Qed.

Lemma count_app c s t : Py.count c (s +:+ t) = Py.count c s + Py.count c t.
Proof. induction s as [|d s IH]; simpl; [done|]. rewrite IH. lia. Qed.

(** Joining [k] lines that hold no newline gives [k - 1] newlines. *)
Lemma count_join_lines lines :
  Forall (λ l, Py.contains LF l = false) lines →
  Py.count LF (Py.join newline lines) = length lines - 1.
Proof.
  unfold Py.join. induction 1 as [|l [|l' ls] Hl Hls IH]; [done| |].
  - simpl. by rewrite count_absent.
  - change (String.concat newline (l :: l' :: ls))
      with (l +:+ newline +:+ String.concat newline (l' :: ls)).
    rewrite !count_app, IH, count_absent by done. simpl. lia.
Qed.

(** X3.  The text [_parse_and_filter_batch] returns is made of lines of the
    response, unchanged and in their order: the joined lines form a
    subsequence of the lines of the stripped batch.  An empty batch gives the
    empty text and leaves the generator as it is. *)
Theorem filter_returns_subsequence (self : LeadGenerator) (batch_data : string) :
  (∃ kept,
     snd (_parse_and_filter_batch self batch_data) = Py.join newline kept
     ∧ kept `sublist_of` Py.split LF (Py.strip batch_data)
     ∧ Forall (λ line, is_record line = true) kept)
  ∧ _parse_and_filter_batch self "" = (self, "").
Proof.
  split; [|done].
  destruct (Py.truthy batch_data) eqn:Hb.
  2:{ exists []. unfold _parse_and_filter_batch. rewrite Hb. simpl.
      split; [done|]. split; [apply sublist_nil_l|constructor]. }
  destruct (parse_and_filter_batch_fold self batch_data Hb)
    as (self1 & kept & dups & Hfold & -> & _).
  destruct (filter_fold_account (Py.split LF (Py.strip batch_data)) self [] 0)
    as (self' & more & dups' & Hfold' & Hsub & Hall & _).
  rewrite Hfold in Hfold'. injection Hfold' as -> -> ->.
  by exists more.
Qed.

(** X4.  No record line is lost without trace: every line of the batch that
    is not blank, not a header and has three fields is either in the text
    returned or counted in [duplicates_prevented]; the other three counters
    are not touched. *)
Theorem filter_accounts_for_every_record (self : LeadGenerator) (batch_data : string) :
  ∃ kept dups,
    snd (_parse_and_filter_batch self batch_data) = Py.join newline kept
    ∧ length kept + dups
      = length (List.filter is_record (Py.split LF (Py.strip batch_data)))
    ∧ duplicates_prevented (stats (fst (_parse_and_filter_batch self batch_data)))
      = duplicates_prevented (stats self) + dups
    ∧ completed_batches (stats (fst (_parse_and_filter_batch self batch_data)))
      = completed_batches (stats self)
    ∧ total_leads_generated (stats (fst (_parse_and_filter_batch self batch_data)))
      = total_leads_generated (stats self)
    ∧ failed_batches (stats (fst (_parse_and_filter_batch self batch_data)))
      = failed_batches (stats self).
Proof.
  destruct (Py.truthy batch_data) eqn:Hb.
  2:{ destruct batch_data; [|done]. by exists [], 0. }
  destruct (parse_and_filter_batch_fold self batch_data Hb)
    as (self1 & kept & dups & Hfold & -> & -> & _).
  destruct (filter_fold_account (Py.split LF (Py.strip batch_data)) self [] 0)
    as (self' & more & dups' & Hfold' & _ & _ & Hlen & Hstats & _).
  rewrite Hfold in Hfold'. injection Hfold' as -> -> ->.
  exists more, dups'. rewrite Hstats. simpl. split; [done|]. split; [lia|done].
Qed.

(** *** A response handled twice *)

Lemma filter_fold_le lines : ∀ self kept dups,
  keys_le self (fst (fst (foldl filter_step (self, kept, dups) lines))).
Proof.
  induction lines as [|line lines IH]; intros self kept dups; cbn [foldl]; [done|].
  pose proof (filter_step_le self kept dups line) as Hstep.
  destruct (filter_step (self, kept, dups) line) as [[self1 kept1] dups1].
  etrans; [exact Hstep|apply IH].
Qed.

Lemma is_duplicate_mono a b n e d :
  keys_le a b → is_duplicate a n e d = true → is_duplicate b n e d = true.
Proof.
  intros (He & Hn & Hd). rewrite !is_duplicate_seen.
  intros [?|[?|?]]; [left; by apply He|right; left; by apply Hn|right; right; by apply Hd].
Qed.

Lemma is_duplicate_registered self n e d :
  is_duplicate (register_keys self n e d) n e d = true.
Proof.
  apply is_duplicate_seen. left.
  destruct (register_keys_sets self n e d) as (-> & _).
  apply elem_of_union_l. by apply elem_of_singleton.
Qed.

Lemma is_duplicate_same_sets a b n e d :
  generated_emails a = generated_emails b →
  generated_names a = generated_names b →
  generated_domains a = generated_domains b →
  is_duplicate a n e d = is_duplicate b n e d.
Proof. unfold is_duplicate. by intros -> -> ->. Qed.

(** After the loop every record line of the batch has a key in the sets. *)
Lemma filter_fold_seen lines : ∀ self kept dups line,
  line ∈ lines → is_record line = true →
  ∃ n e d,
    line_keys line = Ok (Some (n, e, d))
    ∧ is_duplicate (fst (fst (foldl filter_step (self, kept, dups) lines))) n e d = true.
Proof.
  induction lines as [|l lines IH]; intros self kept dups line Hin Hrec.
  { by apply elem_of_nil in Hin. }
  cbn [foldl]. apply elem_of_cons in Hin as [->|Hin].
  - destruct (filter_step_is_record self kept dups l Hrec) as (n & e & d & Hk & ->).
    exists n, e, d. split; [done|].
    destruct (is_duplicate self n e d) eqn:Hdup.
    + eapply is_duplicate_mono; [apply filter_fold_le|done].
    + eapply is_duplicate_mono; [apply filter_fold_le|apply is_duplicate_registered].
  - destruct (filter_step (self, kept, dups) l) as [[self1 kept1] dups1]. by apply IH.
Qed.

(** When every record line has a key in the sets the loop only counts. *)
Lemma filter_fold_all_seen lines : ∀ self kept dups,
  (∀ line, line ∈ lines → is_record line = true →
           ∃ n e d, line_keys line = Ok (Some (n, e, d))
                    ∧ is_duplicate self n e d = true) →
  foldl filter_step (self, kept, dups) lines
  = (self, kept, dups + length (List.filter is_record lines)).
Proof.
  induction lines as [|l lines IH]; intros self kept dups Hseen; cbn [foldl List.filter].
  { simpl. by rewrite Nat.add_0_r. }
  assert (Hrest : ∀ line, line ∈ lines → is_record line = true →
            ∃ n e d, line_keys line = Ok (Some (n, e, d))
                     ∧ is_duplicate self n e d = true).
  { intros line Hin. apply Hseen. apply elem_of_cons. by right. }
  destruct (is_record l) eqn:Hrec.
  - destruct (filter_step_is_record self kept dups l Hrec) as (n & e & d & Hk & ->).
    destruct (Hseen l) as (n' & e' & d' & Hk' & Hdup);
      [apply elem_of_cons; by left|done|].
    rewrite Hk in Hk'. injection Hk' as <- <- <-. rewrite Hdup, IH by done.
    simpl. f_equal. lia.
  - rewrite (filter_step_not_record _ _ Hrec). by apply IH.
Qed.

(** X5.  Handling the same response a second time keeps nothing: every
    record line of it is now a duplicate, the text returned is empty, the
    three key sets stay as they are, and each record line is counted in
    [duplicates_prevented]. *)
Theorem filter_replay_keeps_nothing (self : LeadGenerator) (batch_data : string) :
  let self1 := fst (_parse_and_filter_batch self batch_data) in
  let self2 := fst (_parse_and_filter_batch self1 batch_data) in
  snd (_parse_and_filter_batch self1 batch_data) = ""
  ∧ generated_emails self2 = generated_emails self1
  ∧ generated_names self2 = generated_names self1
  ∧ generated_domains self2 = generated_domains self1
  ∧ duplicates_prevented (stats self2)
    = duplicates_prevented (stats self1)
      + length (List.filter is_record (Py.split LF (Py.strip batch_data))).
Proof.
  cbv zeta. destruct (Py.truthy batch_data) eqn:Hb.
  2:{ destruct batch_data; [|done]. simpl. repeat split; lia. }
  destruct (parse_and_filter_batch_fold self batch_data Hb)
    as (s1 & kept & dups & Hfold & _ & _ & He & Hn & Hd).
  set (self1 := fst (_parse_and_filter_batch self batch_data)) in *.
  set (lines := Py.split LF (Py.strip batch_data)) in *.
  assert (Hseen : ∀ line, line ∈ lines → is_record line = true →
            ∃ n e d, line_keys line = Ok (Some (n, e, d))
                     ∧ is_duplicate self1 n e d = true).
  { intros line Hin Hrec.
    destruct (filter_fold_seen lines self [] 0 line Hin Hrec) as (n & e & d & Hk & Hdup).
    exists n, e, d. split; [done|].
    rewrite Hfold in Hdup. simpl in Hdup.
    by rewrite (is_duplicate_same_sets self1 s1 n e d He Hn Hd). }
  destruct (parse_and_filter_batch_fold self1 batch_data Hb)
    as (s2 & kept2 & dups2 & Hfold2 & -> & -> & -> & -> & ->).
  fold lines in Hfold2.
  rewrite (filter_fold_all_seen lines self1 [] 0 Hseen) in Hfold2.
  injection Hfold2 as <- <- <-. simpl. done.
Qed.

(** X6.  The text returned for a batch joins the kept lines with single
    newlines, and no kept line holds one: the text has one newline fewer than
    it has records.  The lead estimate of [process_batches] is that count of
    newlines, so a batch written with [k] records adds [k - 1] to
    [total_leads_generated]. *)
Theorem lead_estimate_is_one_short (self : LeadGenerator) (batch_data : string) :
  ∃ kept,
    snd (_parse_and_filter_batch self batch_data) = Py.join newline kept
    ∧ Forall (λ line, Py.contains LF line = false) kept
    ∧ Py.count LF (snd (_parse_and_filter_batch self batch_data)) = length kept - 1
    ∧ ∀ E generator w f n,
        enough_data (snd (_parse_and_filter_batch self batch_data)) = true →
        total_leads_generated
          (stats (fst (fst (handle_result E (generator, w, f)
                              (n, Some (snd (_parse_and_filter_batch self batch_data)))))))
        = total_leads_generated (stats generator) + (length kept - 1).
Proof.
  assert (∃ kept, snd (_parse_and_filter_batch self batch_data) = Py.join newline kept
                  ∧ kept `sublist_of` Py.split LF (Py.strip batch_data))
    as (kept & Hjoin & Hsub).
  { destruct (Py.truthy batch_data) eqn:Hb.
    2:{ exists []. unfold _parse_and_filter_batch. rewrite Hb. simpl.
        split; [done|apply sublist_nil_l]. }
    destruct (parse_and_filter_batch_fold self batch_data Hb)
      as (self1 & kept & dups & Hfold & -> & _).
    destruct (filter_fold_account (Py.split LF (Py.strip batch_data)) self [] 0)
      as (self' & more & dups' & Hfold' & Hsub & _).
    rewrite Hfold in Hfold'. injection Hfold' as -> -> ->. by exists more. }
  assert (Hno : Forall (λ line, Py.contains LF line = false) kept).
  { apply Forall_forall. intros line Hin.
    pose proof (split_no_sep LF (Py.strip batch_data)) as Hall.
    rewrite Forall_forall in Hall. apply Hall. by eapply elem_of_sublist. }
  exists kept. rewrite Hjoin.
  split; [done|]. split; [done|]. split; [by apply count_join_lines|].
  intros E generator w f n Henough. unfold handle_result, save_results.
  rewrite Henough. simpl. rewrite count_join_lines by done. lia.
Qed.

(** ** process_batches: the windows *)

(** X7.  With a concurrency level that is not zero the loop over the
    windows starts at the batches [1, 1 + c, 1 + 2c, ...]; every window holds
    between one and [concurrency_level] batches, and together the windows
    are the batches [1 .. num_batches], each once and in order. *)
Theorem windows_partition_batches (cfg : Config) :
  concurrency_level cfg ≠ 0 →
  ∃ starts,
    window_starts cfg = Ok starts
    ∧ concat (map (window_batch_nums cfg) starts) = seq 1 (num_batches cfg)
    ∧ Forall (λ i, 1 ≤ length (window_batch_nums cfg i) ≤ concurrency_level cfg) starts
    ∧ length starts
      = (num_batches cfg + concurrency_level cfg - 1) / concurrency_level cfg.
Proof.
  intros Hc.
  destruct (window_starts cfg) as [starts|e] eqn:Hstarts.
  2:{ unfold window_starts in Hstarts. apply Nat.eqb_neq in Hc.
      by rewrite Hc in Hstarts. }
  exists starts. split; [done|].
  pose proof (windows_cover cfg starts Hstarts) as Hcover.
  rewrite flat_map_concat_map in Hcover. split; [done|].
  unfold window_starts in Hstarts. apply Nat.eqb_neq in Hc as Hc'.
  rewrite Hc' in Hstarts. injection Hstarts as <-.
  set (c := concurrency_level cfg) in *. set (nb := num_batches cfg) in *.
  split; [|by rewrite length_map, length_seq].
  apply Forall_forall. intros i [k [-> Hk]]%list_elem_of_fmap.
  apply elem_of_seq in Hk. unfold window_batch_nums. rewrite length_seq. fold c nb.
  assert (Hm1 : (nb + c - 1) / c * c ≤ nb + c - 1).
  { rewrite Nat.mul_comm. apply Nat.Div0.mul_div_le. }
  nia.
Qed.

Lemma windows_partition_batches_witness :
  window_starts (Config_default "20250101_0900")
  = Ok (map (λ k, 1 + k * 12) (seq 0 56))
  ∧ window_batch_nums (Config_default "20250101_0900") 661 = [661; 662; 663; 664; 665; 666; 667].
Proof.
  destruct (windows_partition_batches (Config_default "20250101_0900")) as (starts & Hs & _).
  { unfold kept_texts. simpl. lia. }
  split; [|reflexivity]. rewrite Hs. vm_compute in Hs. injection Hs as <-. reflexivity.
Defined.

(** ** process_batches: the lead counter and the lines of the master file *)

(** The newlines inside the texts [ts]. *)
Fixpoint newlines_in (ts : list string) : nat :=
  match ts with
  | [] => 0
  | t :: ts' => Py.count LF t + newlines_in ts'
  end.

Lemma newlines_in_app ts1 ts2 : newlines_in (ts1 ++ ts2) = newlines_in ts1 + newlines_in ts2.
Proof. induction ts1 as [|t ts1 IH]; simpl; [done|]. rewrite IH. lia. Qed.

Lemma count_written ts : Py.count LF (written ts) = length ts + newlines_in ts.
Proof.
  induction ts as [|t ts IH]; [done|].
  cbn [written]. rewrite !count_app, IH. simpl. lia.
Qed.

Lemma handle_result_leads E self w f n r :
  total_leads_generated (stats (fst (fst (handle_result E (self, w, f) (n, r)))))
  = total_leads_generated (stats self) + newlines_in (kept_texts [r]).
Proof.
  unfold handle_result, kept_texts, save_results. simpl.
  destruct r as [t|]; simpl; [|lia].
  destruct (enough_data t); simpl; lia.
Qed.

Lemma handle_results_leads E rs : ∀ ns self w f,
  length ns = length rs →
  total_leads_generated
    (stats (fst (fst (foldl (handle_result E) (self, w, f) (zip ns rs)))))
  = total_leads_generated (stats self) + newlines_in (kept_texts rs).
Proof.
  induction rs as [|r rs IH]; intros [|n ns] self w f Hlen; try done.
  injection Hlen as Hlen. cbn [zip_with foldl].
  pose proof (handle_result_leads E self w f n r) as H1.
  destruct (handle_result E (self, w, f) (n, r)) as [[self1 w1] f1].
  cbn [fst snd] in H1.
  rewrite (IH ns self1 w1 f1 Hlen), H1, (kept_texts_cons r rs), newlines_in_app. lia.
Qed.

Lemma process_window_leads E i self w f :
  rotator_ok (api_rotator self) →
  total_leads_generated (stats (fst (fst (fst (process_window E i (self, w, f))))))
  = total_leads_generated (stats self)
    + newlines_in (kept_texts (window_results E i self w)).
Proof.
  intros Hok. unfold process_window, window_results.
  set (ns := window_batch_nums (config self) i).
  destruct (gather_spec E ns self w Hok) as (self1 & w1 & rs1 & -> & Hgen & _ & Hres).
  cbn [snd].
  pose proof (handle_results_leads E rs1 ns self1 w1 f) as Hleads.
  destruct (foldl (handle_result E) (self1, w1, f) (zip ns rs1)) as [[self2 w2] f2].
  cbn [fst snd] in Hleads.
  destruct Hgen as (_ & _ & _ & _ & _ & Htotal & _).
  rewrite <-Htotal, <-Hleads by (by eapply Forall2_length).
  destruct (_ =? 0); [done|]. by destruct (_ =? 0).
Qed.

Lemma process_windows_leads E starts : ∀ self w f,
  rotator_ok (api_rotator self) →
  backup_interval (config self) ≠ 0 →
  total_leads_generated (stats (fst (fst (fst (process_windows E starts (self, w, f))))))
  = total_leads_generated (stats self)
    + newlines_in (kept_texts (windows_results E starts (self, w, f))).
Proof.
  induction starts as [|i starts IH]; intros self w f Hok Hint.
  { unfold kept_texts. simpl. lia. }
  pose proof (process_window_leads E i self w f Hok) as Hleads.
  destruct (process_window_spec E i self w f Hok Hint)
    as (self1 & w1 & f1 & Hwin & Hrun1 & _).
  cbn [process_windows windows_results fst snd]. rewrite Hwin in Hleads |- *.
  cbn [fst] in Hleads |- *.
  assert (Hcfg : config self1 = config self) by apply Hrun1.
  rewrite IH; [|apply Hrun1|by rewrite Hcfg].
  rewrite kept_texts_app, newlines_in_app, Hleads. lia.
Qed.

(** X8.  After a run the master file holds one line for the header and,
    for every completed batch, one line more than the run added to
    [total_leads_generated]: the newlines of the file are
    [1 + completed_batches + total_leads_generated] for a generator that
    starts from zero. *)
Theorem master_file_line_count (E : Environment) (self : LeadGenerator) (w : World) :
  rotator_ok (api_rotator self) →
  concurrency_level (config self) ≠ 0 →
  backup_interval (config self) ≠ 0 →
  num_batches (config self) ≠ 0 →
  output_file (config self) ≠ backup_file (config self) →
  ∃ self' w' content,
    process_batches E self w = (self', w', Ok ())
    ∧ files w' !! output_file (config self) = Some (Text content)
    ∧ Py.count LF content
      + completed_batches (stats self) + total_leads_generated (stats self)
      = 1 + completed_batches (stats self') + total_leads_generated (stats self').
Proof.
  intros Hok Hc Hint Hnb Hout.
  destruct (process_batches_spec E self w Hok Hc Hint Hnb)
    as (starts & self' & w' & Hstarts & Hrun & Hstep & _ & Hfile & _).
  specialize (Hfile Hout).
  exists self', w', (header +:+ written (kept_texts (windows_results E starts (self, w, header)))).
  split; [done|]. split; [done|].
  destruct Hstep as (_ & _ & _ & _ & Hcompleted & _).
  assert (Htotal : total_leads_generated (stats self')
                   = total_leads_generated (stats self)
                     + newlines_in (kept_texts (windows_results E starts (self, w, header)))).
  { pose proof (process_windows_leads E starts self w header Hok Hint) as Hleads.
    revert Hrun. unfold process_batches. rewrite Hstarts.
    destruct (process_windows E starts (self, w, header)) as [[[self1 w1] f1] [[]|e]];
      cbn [fst] in Hleads.
    - unfold _log_final_stats. destruct (_ =? 0); by intros [= <- _].
    - by intros [= <- _]. }
  rewrite count_app, count_written, Hcompleted, Htotal.
  change (Py.count LF header) with 1. lia.
Qed.

Lemma master_file_line_count_witness :
  ∃ self' w' content,
    process_batches (env_of (two_of_four_fail (long_line_a +:+ newline +:+ long_line_b)
                                              (lead_line 4)))
      (generator0 (config_with 4 2 25)) empty_world = (self', w', Ok ())
    ∧ files w' !! output_file (config_with 4 2 25) = Some (Text content)
    ∧ Py.count LF content = 4
    ∧ completed_batches (stats self') = 2
    ∧ total_leads_generated (stats self') = 1.
Proof.
  destruct (master_file_line_count
              (env_of (two_of_four_fail (long_line_a +:+ newline +:+ long_line_b)
                                        (lead_line 4)))
              (generator0 (config_with 4 2 25)) empty_world)
    as (self' & w' & content & Hrun & Hfile & Hcount).
  { unfold rotator_ok. simpl. lia. }
  { simpl. lia. }
  { simpl. lia. }
  { simpl. lia. }
  { vm_compute. discriminate. }
  exists self', w', content. split; [exact Hrun|]. split; [exact Hfile|].
  vm_compute in Hrun. injection Hrun as <- <-.
  vm_compute in Hfile. injection Hfile as <-.
  vm_compute. repeat split.
Defined.

(** ** process_batches: the backup and the master file *)

(** X9.  A run that starts with no backup data ends with a backup file
    that mirrors the master file: the file holds one entry for each completed
    batch, in the order of the batches, and the master file is the header
    followed by the data of these entries, each ended by a newline.  The last
    backup logged reports that number of entries. *)
Theorem backup_mirrors_master (E : Environment) (self : LeadGenerator) (w : World) :
  rotator_ok (api_rotator self) →
  concurrency_level (config self) ≠ 0 →
  backup_interval (config self) ≠ 0 →
  num_batches (config self) ≠ 0 →
  output_file (config self) ≠ backup_file (config self) →
  backup_data self = [] →
  ∃ self' w' entries,
    process_batches E self w = (self', w', Ok ())
    ∧ backup_data self' = entries
    ∧ files w' !! backup_file (config self) = Some (Json entries)
    ∧ files w' !! output_file (config self)
      = Some (Text (header +:+ written (map entry_data entries)))
    ∧ completed_batches (stats self') = completed_batches (stats self) + length entries
    ∧ last (List.filter is_backup (log w')) = Some (BackupSaved (length entries)).
Proof.
  intros Hok Hc Hint Hnb Hout Hempty.
  destruct (process_batches_spec E self w Hok Hc Hint Hnb)
    as (starts & self' & w' & Hstarts & Hrun & Hstep & _ & Hfile & Hbackup & Hlast).
  specialize (Hfile Hout).
  destruct Hstep as (_ & _ & _ & _ & Hcompleted & Hdata).
  rewrite Hempty in Hdata. simpl in Hdata.
  exists self', w', (backup_data self').
  split; [done|]. split; [done|]. split; [done|].
  split; [by rewrite Hdata|].
  split; [by rewrite Hcompleted, <-Hdata, length_map|].
  revert Hrun. unfold process_batches. rewrite Hstarts.
  destruct (process_windows E starts (self, w, header)) as [[[self1 w1] f1] [[]|e]];
    [|done].
  unfold _log_final_stats, save_backup. destruct (_ =? 0); [done|].
  intros [= <- <-]. simpl.
  rewrite !List.filter_app. simpl. by rewrite app_nil_r, last_snoc.
Qed.

Lemma backup_mirrors_master_witness :
  ∃ self' w',
    process_batches all_succeed (generator0 (config_with 4 2 25)) empty_world
      = (self', w', Ok ())
    ∧ map entry_data (backup_data self') = [lead_line 1; lead_line 2; lead_line 3; lead_line 4]
    ∧ files w' !! backup_file (config_with 4 2 25) = Some (Json (backup_data self')).
Proof.
  destruct (backup_mirrors_master all_succeed (generator0 (config_with 4 2 25)) empty_world)
    as (self' & w' & entries & Hrun & Hdata & Hfile & _).
  { unfold rotator_ok. simpl. lia. }
  { simpl. lia. }
  { simpl. lia. }
  { simpl. lia. }
  { vm_compute. discriminate. }
  { reflexivity. }
  exists self', w'. split; [exact Hrun|]. rewrite Hdata. split; [|exact Hfile].
  rewrite <-Hdata. vm_compute in Hrun. injection Hrun as <- _. reflexivity.
Defined.

(** ** process_batches: configurations the loop cannot run *)

(** X10.  A concurrency level of zero makes [range] raise when the loop
    starts: the run ends with a [ValueError], the master file holds the
    header alone and no other file is touched.  A batch count of zero runs no
    window: the header and the backup of the data held so far are written,
    then the success rate of the final statistics divides by zero.  In both
    cases the generator is as it was. *)
Theorem degenerate_batch_sizes (E : Environment) (self : LeadGenerator) (w : World) :
  (concurrency_level (config self) = 0 →
   ∃ w',
     process_batches E self w
     = (self, w', Raise (ValueError "range() arg 3 must not be zero"))
     ∧ files w' = <[output_file (config self) := Text header]> (files w))
  ∧ (concurrency_level (config self) ≠ 0 →
     num_batches (config self) = 0 →
     ∃ w',
       process_batches E self w = (self, w', Raise ZeroDivisionError)
       ∧ files w'
         = <[backup_file (config self) := Json (backup_data self)]>
             (<[output_file (config self) := Text header]> (files w))).
Proof.
  split.
  - intros Hc. unfold process_batches, window_starts. rewrite Hc. simpl.
    by eexists.
  - intros Hc Hnb. unfold process_batches, window_starts.
    apply Nat.eqb_neq in Hc as Hc'. rewrite Hc', Hnb.
    replace ((0 + concurrency_level (config self) - 1) / concurrency_level (config self))
      with 0 by (symmetry; apply Nat.div_small; lia).
    simpl. unfold _log_final_stats. rewrite Hnb. simpl. by eexists.
Qed.

Lemma window_starts_first cfg :
  concurrency_level cfg ≠ 0 → num_batches cfg ≠ 0 →
  ∃ rest, window_starts cfg = Ok (1 :: rest).
Proof.
  intros Hc Hnb. unfold window_starts. apply Nat.eqb_neq in Hc as Hc'. rewrite Hc'.
  assert (Hpos : 1 ≤ (num_batches cfg + concurrency_level cfg - 1) / concurrency_level cfg).
  { apply Nat.div_le_lower_bound; lia. }
  destruct ((num_batches cfg + concurrency_level cfg - 1) / concurrency_level cfg)
    as [|m]; [lia|].
  simpl. by eexists.
Qed.

(** X11.  A backup interval of zero stops the run at the end of its first
    window: the modulo raises after the results of the window are handled,
    so the master file holds the header and the texts of that window, the
    backup file is not written, and the counters account for the batches of
    the first window only. *)
Theorem zero_backup_interval_stops_run (E : Environment) (self : LeadGenerator) (w : World) :
  rotator_ok (api_rotator self) →
  concurrency_level (config self) ≠ 0 →
  num_batches (config self) ≠ 0 →
  backup_interval (config self) = 0 →
  output_file (config self) ≠ backup_file (config self) →
  let ns := window_batch_nums (config self) 1 in
  let rs := window_results E 1 self w in
  ∃ self' w',
    process_batches E self w = (self', w', Raise ZeroDivisionError)
    ∧ files w' !! output_file (config self)
      = Some (Text (header +:+ written (kept_texts rs)))
    ∧ files w' !! backup_file (config self) = files w !! backup_file (config self)
    ∧ completed_batches (stats self') = completed_batches (stats self) + length (kept_texts rs)
    ∧ failed_batches (stats self') = failed_batches (stats self) + count_fails E ns.
Proof.
  intros Hok Hc Hnb Hint Hout ns rs.
  destruct (window_starts_first (config self) Hc Hnb) as (rest & Hstarts).
  unfold process_batches. rewrite Hstarts. cbn [process_windows].
  unfold process_window, rs, window_results. fold ns.
  destruct (gather_spec E ns self w Hok) as (self1 & w1 & rs1 & -> & Hgen & Hfiles1 & Hres).
  cbn [snd].
  destruct (handle_results_spec E rs1 ns self1 w1 header) as (Hh & Hf & Hfiles2).
  { by eapply Forall2_length. }
  destruct (foldl (handle_result E) (self1, w1, header) (zip ns rs1)) as [[self2 w2] f2].
  cbn [fst snd] in Hh, Hf, Hfiles2.
  pose proof (gen_step_handled _ _ _ _ _ Hgen Hh) as (Hcfg & _ & _ & Hfailed & Hcompleted & _).
  rewrite Hint. simpl.
  eexists _, _. split; [done|]. simpl.
  rewrite lookup_insert_eq, lookup_insert_ne by done.
  rewrite Hf, Hfiles2, Hfiles1. done.
Qed.

Lemma zero_backup_interval_stops_run_witness :
  ∃ self' w',
    process_batches all_succeed (generator0 (config_with 4 2 0)) empty_world
      = (self', w', Raise ZeroDivisionError)
    ∧ files w' !! output_file (config_with 4 2 0)
      = Some (Text (header +:+ lead_line 1 +:+ newline +:+ lead_line 2 +:+ newline))
    ∧ files w' !! backup_file (config_with 4 2 0) = None
    ∧ completed_batches (stats self') = 2.
Proof.
  destruct (zero_backup_interval_stops_run all_succeed (generator0 (config_with 4 2 0))
              empty_world)
    as (self' & w' & Hrun & Hfile & Hbackup & Hcompleted & _).
  { unfold rotator_ok. simpl. lia. }
  { simpl. lia. }
  { simpl. lia. }
  { reflexivity. }
  { vm_compute. discriminate. }
  exists self', w'. split; [exact Hrun|].
  change (config (generator0 (config_with 4 2 0))) with (config_with 4 2 0)
    in Hfile, Hbackup.
  rewrite Hfile, Hbackup, Hcompleted. vm_compute. repeat split.
Defined.

(** ** Loading the API keys *)

(** The enumeration order used in the examples. *)
Definition elements_order : SetOrder :=
  {| listing := elements; listing_perm := λ X, reflexivity (elements X) |}.

(** The key a numbered variable contributes. *)
Definition numbered_key (environ : gmap string string) (i : nat) : list string :=
  match getenv environ ("GEMINI_API_KEY_" +:+ pretty i) with
  | Some key =>
      if Py.truthy key && negb (String.eqb key placeholder_key) then [Py.strip key] else []
  | None => []
  end.

Lemma numbered_loop environ l : ∀ keys,
  foldl (λ keys i,
           match getenv environ ("GEMINI_API_KEY_" +:+ pretty i) with
           | Some key =>
               if Py.truthy key && negb (String.eqb key placeholder_key)
               then keys ++ [Py.strip key]
               else keys
           | None => keys
           end) keys l
  = keys ++ flat_map (numbered_key environ) l.
Proof.
  induction l as [|i l IH]; intros keys; simpl; [by rewrite app_nil_r|].
  rewrite IH. unfold numbered_key.
  destruct (getenv environ _) as [key|]; [|done].
  destruct (_ && _); [|done]. by rewrite <-app_assoc.
Qed.

Lemma valid_key_not_placeholder key :
  valid_key_format (Py.strip key) = true →
  Py.truthy key && negb (String.eqb key placeholder_key) = true.
Proof.
  intros Hvalid. apply andb_true_iff. split.
  - destruct key; [done|done].
  - destruct (String.eqb key placeholder_key) eqn:E; [|done].
    apply String.eqb_eq in E as ->. by vm_compute in Hvalid.
Qed.

Lemma valid_key_truthy key : valid_key_format key = true → Py.truthy key = true.
Proof. by destruct key. Qed.

Lemma valid_key_differs key : valid_key_format key = true → key ≠ placeholder_key.
Proof. intros Hvalid ->. by vm_compute in Hvalid. Qed.

Lemma load_api_keys_elem o environ key :
  key ∈ _load_api_keys o environ
  ↔ key ∈ collected_keys environ ∧ valid_key_format key = true.
Proof.
  unfold _load_api_keys. rewrite (listing_perm o), elem_of_elements, elem_of_list_to_set.
  rewrite list_elem_of_In, filter_In, <-list_elem_of_In. done.
Qed.

(** X12.  [_load_api_keys] returns each key once, and a key is returned if
    and only if it was collected from the environment and has the expected
    format: more than 20 characters, starting with ["AIzaSy"].  The
    placeholder of the sample file is never returned.  A value of
    [GEMINI_API_KEY], of one of the numbered variables 1 to 10 or of a
    comma-separated part of [GEMINI_API_KEYS] that has the format once
    stripped is returned, stripped. *)
Theorem load_api_keys_valid (o : SetOrder) (environ : gmap string string) :
  NoDup (_load_api_keys o environ)
  ∧ (∀ key, key ∈ _load_api_keys o environ
            ↔ key ∈ collected_keys environ ∧ valid_key_format key = true)
  ∧ (∀ key, key ∈ _load_api_keys o environ →
            20 < String.length key
            ∧ Py.startswith "AIzaSy" key = true
            ∧ key ≠ placeholder_key)
  ∧ (∀ value, getenv environ "GEMINI_API_KEY" = Some value →
              valid_key_format (Py.strip value) = true →
              Py.strip value ∈ _load_api_keys o environ)
  ∧ (∀ value part, getenv environ "GEMINI_API_KEYS" = Some value →
                   part ∈ Py.split "," value →
                   valid_key_format (Py.strip part) = true →
                   Py.strip part ∈ _load_api_keys o environ)
  ∧ (∀ i value, 1 ≤ i ≤ 10 →
                getenv environ ("GEMINI_API_KEY_" +:+ pretty i) = Some value →
                valid_key_format (Py.strip value) = true →
                Py.strip value ∈ _load_api_keys o environ).
Proof.
  split.
  { unfold _load_api_keys. rewrite (listing_perm o). apply NoDup_elements. }
  split; [apply load_api_keys_elem|].
  split.
  { intros key [_ Hvalid]%load_api_keys_elem.
    pose proof (valid_key_differs key Hvalid).
    apply andb_true_iff in Hvalid as [Hlen%Nat.ltb_lt Hpre]. done. }
  split; [|split].
  - intros value Hget Hvalid. apply load_api_keys_elem. split; [|done].
    unfold collected_keys. rewrite numbered_loop, Hget, (valid_key_not_placeholder _ Hvalid).
    apply elem_of_app. left.
    destruct (getenv environ "GEMINI_API_KEYS") as [m|]; [|by apply list_elem_of_singleton].
    destruct (Py.truthy m); [|by apply list_elem_of_singleton].
    apply elem_of_app. left. by apply list_elem_of_singleton.
  - intros value part Hget Hpart Hvalid. apply load_api_keys_elem. split; [|done].
    unfold collected_keys. rewrite numbered_loop, Hget.
    assert (Hm : Py.truthy value = true).
    { destruct value; [|done]. simpl in Hpart.
      apply list_elem_of_singleton in Hpart as ->. by vm_compute in Hvalid. }
    rewrite Hm. apply elem_of_app. left. apply elem_of_app. right.
    apply list_elem_of_fmap. exists part. split; [done|].
    apply list_elem_of_In, filter_In. split; [by apply list_elem_of_In|].
    rewrite (valid_key_truthy _ Hvalid). simpl.
    destruct (String.eqb (Py.strip part) placeholder_key) eqn:E; [|done].
    apply String.eqb_eq in E. by apply valid_key_differs in Hvalid.
  - intros i value Hi Hget Hvalid. apply load_api_keys_elem. split; [|done].
    unfold collected_keys. rewrite numbered_loop.
    apply elem_of_app. right. apply list_elem_of_In, in_flat_map.
    exists i. split; [apply in_seq; lia|].
    unfold numbered_key. rewrite Hget, (valid_key_not_placeholder _ Hvalid). by left.
Qed.

(** An environment with a padded key, a list that repeats it beside the
    placeholder and a short value, and a numbered key of another service. *)
Definition environ_sample : gmap string string :=
  {[ "GEMINI_API_KEY" := "  AIzaSy-key-a-0123456789  ";
     "GEMINI_API_KEYS" := "your_gemini_api_key_here, AIzaSy-key-a-0123456789,short";
     "GEMINI_API_KEY_3" := "sk-not-a-gemini-key-0123456789" ]}.

Lemma load_api_keys_valid_witness :
  getenv environ_sample "GEMINI_API_KEY" = Some "  AIzaSy-key-a-0123456789  "
  ∧ valid_key_format (Py.strip "  AIzaSy-key-a-0123456789  ") = true
  ∧ "AIzaSy-key-a-0123456789" ∈ _load_api_keys elements_order environ_sample
  ∧ _load_api_keys elements_order environ_sample = ["AIzaSy-key-a-0123456789"].
Proof.
  destruct (load_api_keys_valid elements_order environ_sample)
    as (_ & _ & _ & Hsingle & _).
  split; [reflexivity|]. split; [reflexivity|].
  split; [|reflexivity].
  apply (Hsingle "  AIzaSy-key-a-0123456789  "); reflexivity.
Defined.

(** ** The rotator as [__init__] builds it *)

(** X13.  [EnhancedAPIKeyRotator()] exits exactly when no collected key has
    the expected format.  Otherwise the rotator starts on the first key
    listed, with empty counters and the caps 150 and 5; its index is valid,
    so [get_current_key] returns a key, and that key has the expected
    format. *)
Theorem rotator_init_from_environment (o : SetOrder) (environ : gmap string string) :
  match EnhancedAPIKeyRotator_create o environ with
  | None => ∀ key, key ∈ collected_keys environ → valid_key_format key = false
  | Some r =>
      api_keys r = _load_api_keys o environ
      ∧ rotator_ok r
      ∧ current_key_index r = 0
      ∧ key_usage_count r = ∅
      ∧ key_error_count r = ∅
      ∧ max_requests_per_key r = 150
      ∧ max_errors_per_key r = 5
      ∧ ∃ key, get_current_key r = Ok key
               ∧ key ∈ collected_keys environ
               ∧ valid_key_format key = true
  end.
Proof.
  unfold EnhancedAPIKeyRotator_create, EnhancedAPIKeyRotator_init.
  destruct (_load_api_keys o environ) as [|key keys] eqn:Hkeys.
  - intros key Hin. destruct (valid_key_format key) eqn:Hvalid; [|done].
    assert (Hload : key ∈ _load_api_keys o environ) by (by apply load_api_keys_elem).
    rewrite Hkeys in Hload. by apply elem_of_nil in Hload.
  - simpl. split; [done|]. split; [unfold rotator_ok; simpl; lia|].
    split; [done|]. split; [done|]. split; [done|]. split; [done|]. split; [done|].
    exists key. split; [done|].
    apply (proj1 (load_api_keys_elem o environ key)). rewrite Hkeys. by left.
Qed.

(** ** The rotator's methods keep its index valid *)

Lemma rotate_key_index rnd r :
  rotator_ok r →
  ∃ key i, rotate_key rnd r = Ok (key, set_current_key_index i r)
           ∧ i < length (api_keys r)
           ∧ api_keys r !! i = Some key.
Proof.
  intros Hok.
  destruct (get_current_key_ok r Hok) as (cur & Hget & Hcur).
  assert (Hne : api_keys r ≠ []).
  { unfold rotator_ok in Hok. destruct (api_keys r); [simpl in Hok; lia|done]. }
  assert (Hstay : ∃ key i, Ok (cur, r) = Ok (key, set_current_key_index i r)
                           ∧ i < length (api_keys r) ∧ api_keys r !! i = Some key).
  { exists cur, (current_key_index r). by rewrite set_current_key_index_same. }
  unfold rotate_key. rewrite Hget. simpl.
  destruct (length (api_keys r) =? 1); [done|].
  destruct (_ || _ || rnd); [|done].
  destruct (rotate_scan_spec (length (api_keys r)) r Hne) as (i & -> & Hcases).
  simpl.
  assert (Hi : i < length (api_keys r)).
  { destruct Hcases as [(j & _ & -> & _)|[-> _]].
    - apply Nat.mod_upper_bound. by destruct (api_keys r).
    - unfold rotator_ok in Hok.
      destruct (length (api_keys r)) eqn:E; [lia|]. apply Nat.mod_upper_bound. lia. }
  destruct (get_current_key_ok (set_current_key_index i r) Hi) as (key & -> & Hkey).
  simpl. by exists key, i.
Qed.

Lemma mark_key_error_shape key rnd r :
  rotator_ok r →
  ∃ k i,
    match key with None => get_current_key r | Some k => Ok k end = Ok k
    ∧ mark_key_error key rnd r
      = Ok (set_current_key_index i
              (set_key_error_count
                 (<[k := get0 (key_error_count r) k + 1]> (key_error_count r)) r))
    ∧ i < length (api_keys r)
    ∧ (get0 (key_error_count r) k + 1 < max_errors_per_key r → i = current_key_index r).
Proof.
  intros Hok. unfold mark_key_error.
  assert (∃ k, match key with None => get_current_key r | Some k => Ok k end = Ok k)
    as [k Hk].
  { destruct key; [by eexists|]. destruct (get_current_key_ok r Hok) as (k & -> & _).
    by eexists. }
  rewrite Hk. simpl. exists k.
  set (r1 := set_key_error_count _ r).
  assert (Hget : get0 (<[k:=get0 (key_error_count r) k + 1]> (key_error_count r)) k
                 = get0 (key_error_count r) k + 1).
  { unfold get0 at 1. by rewrite lookup_insert_eq. }
  rewrite Hget.
  destruct (max_errors_per_key r <=? get0 (key_error_count r) k + 1) eqn:Hcap.
  - destruct (rotate_key_index rnd r1) as (k' & i & -> & Hi & _); [done|].
    simpl. exists i. split; [done|]. split; [done|]. split; [done|].
    apply Nat.leb_le in Hcap. lia.
  - exists (current_key_index r1). rewrite set_current_key_index_same.
    split; [done|]. split; [done|]. split; [exact Hok|]. done.
Qed.

(** X14.  From a rotator with a valid index no method raises, and every
    method leaves a rotator with a valid index over the same pool of keys:
    [get_current_key] returns a key of the pool, [increment_usage] does not
    move the index, [mark_key_error] and [configure_genai] return normally,
    and [configure_genai] answers [False] exactly when [genai.configure]
    raised. *)
Theorem rotator_methods_never_raise (r : EnhancedAPIKeyRotator) :
  rotator_ok r →
  (∃ key, get_current_key r = Ok key ∧ key ∈ api_keys r)
  ∧ (∃ r', increment_usage r = Ok r'
           ∧ rotator_ok r'
           ∧ api_keys r' = api_keys r
           ∧ current_key_index r' = current_key_index r)
  ∧ (∀ key rnd, ∃ r', mark_key_error key rnd r = Ok r'
                      ∧ rotator_ok r'
                      ∧ api_keys r' = api_keys r)
  ∧ (∀ raises rnd, ∃ r', configure_genai raises rnd r = Ok (negb raises, r')
                         ∧ rotator_ok r'
                         ∧ api_keys r' = api_keys r).
Proof.
  intros Hok.
  destruct (get_current_key_ok r Hok) as (cur & Hget & Hcur).
  split. { exists cur. split; [done|]. by eapply list_elem_of_lookup_2. }
  split. { unfold increment_usage. rewrite Hget. simpl. by eexists. }
  assert (Hmark : ∀ key rnd, ∃ r', mark_key_error key rnd r = Ok r'
                                   ∧ rotator_ok r' ∧ api_keys r' = api_keys r).
  { intros key rnd.
    destruct (mark_key_error_shape key rnd r Hok) as (k & i & _ & -> & Hi & _).
    by eexists. }
  split; [done|].
  intros raises rnd. unfold configure_genai. rewrite Hget. simpl.
  destruct raises; simpl.
  - destruct (Hmark None rnd) as (r' & -> & Hok' & Hkeys). simpl. by eexists.
  - by eexists.
Qed.

Lemma rotator_methods_never_raise_witness :
  rotator_ok rotator_two_exhausted
  ∧ ∃ r', configure_genai true false rotator_two_exhausted = Ok (false, r')
          ∧ current_key_index r' = 2.
Proof.
  assert (Hok : rotator_ok rotator_two_exhausted) by (unfold rotator_ok; simpl; lia).
  split; [exact Hok|].
  destruct (rotator_methods_never_raise rotator_two_exhausted Hok)
    as (_ & _ & _ & Hconfigure).
  destruct (Hconfigure true false) as (r' & Hr & _).
  exists r'. split; [exact Hr|].
  vm_compute in Hr. injection Hr as <-. reflexivity.
Defined.

(** ** Counting requests and errors *)

Lemma sum_values_insert d k v :
  d !! k = None → sum_values (<[k := v]> d) = v + sum_values d.
Proof.
  intros Hk. unfold sum_values. apply map_fold_insert_L; [|done]. intros. lia.
Qed.

(** Counting one more for [k] adds one to the sum of the counts. *)
Lemma sum_values_bump d k : sum_values (<[k := get0 d k + 1]> d) = sum_values d + 1.
Proof.
  unfold get0. destruct (d !! k) as [v|] eqn:Hk; simpl.
  - rewrite <-(insert_delete_id d k v Hk) at 2.
    rewrite <-insert_delete_eq, !sum_values_insert by apply lookup_delete_eq. lia.
  - rewrite sum_values_insert by done. lia.
Qed.

Lemma get0_bump d k j :
  get0 (<[k := get0 d k + 1]> d) j = if decide (j = k) then get0 d k + 1 else get0 d j.
Proof.
  unfold get0 at 1. case_decide as Hj.
  - subst j. by rewrite lookup_insert_eq.
  - by rewrite lookup_insert_ne.
Qed.

(** X15.  [increment_usage] counts one request for the current key and for
    no other; the error counts stay as they are, and in the statistics of
    [get_usage_stats] the total of requests grows by one while the total of
    errors, the number of keys and the index do not change. *)
Theorem increment_usage_counts_one (r : EnhancedAPIKeyRotator) :
  rotator_ok r →
  ∃ key r',
    get_current_key r = Ok key
    ∧ increment_usage r = Ok r'
    ∧ (∀ other, get0 (key_usage_count r') other
                = if decide (other = key) then get0 (key_usage_count r) key + 1
                  else get0 (key_usage_count r) other)
    ∧ key_error_count r' = key_error_count r
    ∧ total_requests (get_usage_stats r') = total_requests (get_usage_stats r) + 1
    ∧ total_errors (get_usage_stats r') = total_errors (get_usage_stats r)
    ∧ total_keys (get_usage_stats r') = total_keys (get_usage_stats r)
    ∧ stats_current_key_index (get_usage_stats r')
      = stats_current_key_index (get_usage_stats r).
Proof.
  intros Hok. destruct (get_current_key_ok r Hok) as (key & Hget & _).
  unfold increment_usage. rewrite Hget. simpl. eexists key, _.
  split; [done|]. split; [done|]. simpl.
  split; [intros other; apply get0_bump|]. split; [done|].
  split; [apply sum_values_bump|done].
Qed.

Lemma increment_usage_counts_one_witness :
  rotator_ok rotator_two_exhausted
  ∧ ∃ r', increment_usage rotator_two_exhausted = Ok r'
          ∧ total_requests (get_usage_stats rotator_two_exhausted) = 7
          ∧ total_requests (get_usage_stats r') = 8.
Proof.
  assert (Hok : rotator_ok rotator_two_exhausted) by (unfold rotator_ok; simpl; lia).
  split; [exact Hok|].
  destruct (increment_usage_counts_one rotator_two_exhausted Hok)
    as (key & r' & _ & Hr & _ & _ & Htotal & _).
  exists r'. split; [exact Hr|].
  assert (H7 : total_requests (get_usage_stats rotator_two_exhausted) = 7)
    by (vm_compute; reflexivity).
  split; [exact H7|]. rewrite Htotal, H7. reflexivity.
Defined.

(** X16.  [mark_key_error] counts one error for the key it is given, or for
    the current key when it is given none, and for no other; the usage
    counts stay as they are, the total of errors in the statistics grows by
    one, and the index moves only if that key has reached the error cap. *)
Theorem mark_key_error_counts_one
    (key : option string) (rnd : bool) (r : EnhancedAPIKeyRotator) :
  rotator_ok r →
  ∃ k r',
    match key with None => get_current_key r | Some k => Ok k end = Ok k
    ∧ mark_key_error key rnd r = Ok r'
    ∧ (∀ other, get0 (key_error_count r') other
                = if decide (other = k) then get0 (key_error_count r) k + 1
                  else get0 (key_error_count r) other)
    ∧ key_usage_count r' = key_usage_count r
    ∧ total_errors (get_usage_stats r') = total_errors (get_usage_stats r) + 1
    ∧ total_requests (get_usage_stats r') = total_requests (get_usage_stats r)
    ∧ (get0 (key_error_count r) k + 1 < max_errors_per_key r →
       current_key_index r' = current_key_index r).
Proof.
  intros Hok.
  destruct (mark_key_error_shape key rnd r Hok) as (k & i & Hk & -> & Hi & Hstay).
  eexists k, _. split; [done|]. split; [done|]. simpl.
  split; [intros other; apply get0_bump|]. split; [done|].
  split; [apply sum_values_bump|]. split; [done|]. done.
Qed.

Lemma mark_key_error_counts_one_witness :
  rotator_ok rotator_two_exhausted
  ∧ ∃ r', mark_key_error (Some "AIzaSy-key-c") false rotator_two_exhausted = Ok r'
          ∧ get0 (key_error_count r') "AIzaSy-key-c" = 1
          ∧ total_errors (get_usage_stats r') = 12.
Proof.
  assert (Hok : rotator_ok rotator_two_exhausted) by (unfold rotator_ok; simpl; lia).
  split; [exact Hok|].
  destruct (mark_key_error_counts_one (Some "AIzaSy-key-c") false rotator_two_exhausted Hok)
    as (k & r' & Hk & Hr & Hcount & _ & Htotal & _).
  injection Hk as <-.
  exists r'. split; [exact Hr|].
  split.
  - rewrite Hcount. reflexivity.
  - rewrite Htotal. reflexivity.
Defined.

(** ** When the rotator moves *)

(** When [rotate_key] decides to rotate and some key is below the error
    cap, it moves to the first such key met going forward. *)
Lemma rotate_key_to_healthy rnd r cur :
  rotator_ok r →
  length (api_keys r) ≠ 1 →
  get_current_key r = Ok cur →
  (max_requests_per_key r <=? get0 (key_usage_count r) cur)
  || (max_errors_per_key r <=? get0 (key_error_count r) cur)
  || rnd = true →
  (∃ other, other ∈ api_keys r
            ∧ get0 (key_error_count r) other < max_errors_per_key r) →
  ∃ key j,
    1 ≤ j ≤ length (api_keys r)
    ∧ rotate_key rnd r
      = Ok (key, set_current_key_index
                   ((current_key_index r + j) mod length (api_keys r)) r)
    ∧ api_keys r !! ((current_key_index r + j) mod length (api_keys r)) = Some key
    ∧ get0 (key_error_count r) key < max_errors_per_key r
    ∧ ∀ j', 1 ≤ j' < j →
        exhausted_at r ((current_key_index r + j') mod length (api_keys r)).
Proof.
  intros Hok Hlen Hget Hrot (other & Hin & Hlt).
  assert (Hne : api_keys r ≠ []).
  { unfold rotator_ok in Hok. destruct (api_keys r); [simpl in Hok; lia|done]. }
  unfold rotate_key. apply Nat.eqb_neq in Hlen as ->. rewrite Hget. simpl.
  rewrite Hrot.
  destruct (rotate_scan_spec (length (api_keys r)) r Hne) as (i & -> & Hcases).
  destruct Hcases as [(j & Hj & -> & (key & Hkey & Hhealthy) & Hbefore)|[_ Hall]].
  - simpl.
    assert (Hgeti : get_current_key
                      (set_current_key_index
                         ((current_key_index r + j) mod length (api_keys r)) r)
                    = Ok key).
    { unfold get_current_key. simpl. rewrite Hkey. by destruct (api_keys r). }
    rewrite Hgeti. simpl. by exists key, j.
  - pose proof (all_exhausted r Hok Hall other Hin). lia.
Qed.

(** X17.  When an error brings the current key to the error cap and the
    pool holds another key below the cap, [mark_key_error] leaves the
    exhausted key: the rotator it returns is on a different key, and that key
    is below the cap. *)
Theorem exhausted_key_is_left (rnd : bool) (r : EnhancedAPIKeyRotator) (cur : string) :
  rotator_ok r →
  length (api_keys r) ≠ 1 →
  get_current_key r = Ok cur →
  max_errors_per_key r ≤ get0 (key_error_count r) cur + 1 →
  (∃ other, other ∈ api_keys r
            ∧ other ≠ cur
            ∧ get0 (key_error_count r) other < max_errors_per_key r) →
  ∃ r' key,
    mark_key_error None rnd r = Ok r'
    ∧ get_current_key r' = Ok key
    ∧ key ≠ cur
    ∧ get0 (key_error_count r') key < max_errors_per_key r'
    ∧ get0 (key_error_count r') cur = get0 (key_error_count r) cur + 1.
Proof.
  intros Hok Hlen Hget Hcap (other & Hin & Hne & Hlt).
  unfold mark_key_error. rewrite Hget. simpl.
  set (r1 := set_key_error_count _ r).
  assert (Hcount : ∀ k, get0 (key_error_count r1) k
                        = if decide (k = cur) then get0 (key_error_count r) cur + 1
                          else get0 (key_error_count r) k).
  { intros k. apply get0_bump. }
  assert (Hcur : get0 (<[cur:=get0 (key_error_count r) cur + 1]> (key_error_count r)) cur
                 = get0 (key_error_count r) cur + 1).
  { rewrite (get0_bump (key_error_count r) cur cur). by rewrite decide_True. }
  rewrite Hcur. apply Nat.leb_le in Hcap as Hcap'. rewrite Hcap'.
  destruct (rotate_key_to_healthy rnd r1 cur) as (key & j & _ & -> & Hkey & Hhealthy & _).
  - exact Hok.
  - exact Hlen.
  - exact Hget.
  - simpl. rewrite Hcur, Hcap'. by rewrite orb_true_r.
  - exists other. split; [done|]. rewrite Hcount. by rewrite decide_False.
  - simpl. eexists _, key. split; [done|].
    split. { unfold get_current_key. simpl. simpl in Hkey. rewrite Hkey.
             by destruct (api_keys r). }
    assert (Hdiff : key ≠ cur).
    { intros ->. rewrite Hcount, decide_True in Hhealthy by done. simpl in Hhealthy. lia. }
    split; [done|]. split; [exact Hhealthy|]. exact Hcur.
Qed.

(** The third key has four errors: one more brings it to the cap. *)
Definition rotator_near_cap : EnhancedAPIKeyRotator := {|
  api_keys := ["AIzaSy-key-a"; "AIzaSy-key-b"; "AIzaSy-key-c"];
  current_key_index := 2;
  key_usage_count := ∅;
  key_error_count := {[ "AIzaSy-key-b" := 5; "AIzaSy-key-c" := 4 ]};
  max_requests_per_key := 150;
  max_errors_per_key := 5
|}.

Lemma exhausted_key_is_left_witness :
  ∃ r', mark_key_error None false rotator_near_cap = Ok r'
        ∧ get_current_key r' = Ok "AIzaSy-key-a".
Proof.
  destruct (exhausted_key_is_left false rotator_near_cap "AIzaSy-key-c")
    as (r' & key & Hr & Hkey & _).
  { unfold rotator_ok. simpl. lia. }
  { simpl. lia. }
  { reflexivity. }
  { vm_compute. lia. }
  { exists "AIzaSy-key-a". split; [apply list_elem_of_lookup; by exists 0|].
    split; [discriminate|]. vm_compute. lia. }
  exists r'. split; [exact Hr|]. rewrite Hkey.
  vm_compute in Hr. injection Hr as <-. vm_compute in Hkey. exact (eq_sym Hkey).
Defined.

(** X18.  A key that has reached the request cap is left at the next call
    of [rotate_key] for the key that follows it in the pool, provided that
    key is below the error cap; the request count of the key that follows is
    not looked at, so keys over the request cap are still taken in turn. *)
Theorem request_cap_moves_to_next_key
    (rnd : bool) (r : EnhancedAPIKeyRotator) (cur next : string) :
  rotator_ok r →
  length (api_keys r) ≠ 1 →
  get_current_key r = Ok cur →
  max_requests_per_key r ≤ get0 (key_usage_count r) cur →
  api_keys r !! ((current_key_index r + 1) mod length (api_keys r)) = Some next →
  get0 (key_error_count r) next < max_errors_per_key r →
  rotate_key rnd r
  = Ok (next, set_current_key_index
                ((current_key_index r + 1) mod length (api_keys r)) r).
Proof.
  intros Hok Hlen Hget Hcap Hnext Hhealthy.
  destruct (rotate_key_to_healthy rnd r cur Hok Hlen Hget)
    as (key & j & Hj & Hrot & Hkey & _ & Hbefore).
  { apply Nat.leb_le in Hcap as ->. done. }
  { exists next. split; [by eapply list_elem_of_lookup_2|done]. }
  destruct (decide (j = 1)) as [->|Hj1].
  - rewrite Hnext in Hkey. injection Hkey as <-. exact Hrot.
  - destruct (Hbefore 1) as (k & Hk & Hexhausted); [lia|].
    rewrite Hnext in Hk. injection Hk as <-. lia.
Qed.

(** Two keys, both over the request cap and without errors. *)
Definition rotator_both_used : EnhancedAPIKeyRotator := {|
  api_keys := ["AIzaSy-key-a"; "AIzaSy-key-b"];
  current_key_index := 0;
  key_usage_count := {[ "AIzaSy-key-a" := 150; "AIzaSy-key-b" := 400 ]};
  key_error_count := ∅;
  max_requests_per_key := 150;
  max_errors_per_key := 5
|}.

Lemma request_cap_moves_to_next_key_witness :
  rotate_key false rotator_both_used
  = Ok ("AIzaSy-key-b", set_current_key_index 1 rotator_both_used).
Proof.
  apply (request_cap_moves_to_next_key false rotator_both_used
           "AIzaSy-key-a" "AIzaSy-key-b").
  - unfold rotator_ok. simpl. lia.
  - simpl. lia.
  - reflexivity.
  - vm_compute. lia.
  - reflexivity.
  - vm_compute. lia.
Defined.

(** ** What a run does to the rotator's statistics *)

(** The remote call of batch [n] returned a response. *)
Definition call_returns (E : Environment) (n : nat) : bool :=
  match generate_content_async E n with Ok _ => true | Raise _ => false end.

Definition count_true (p : nat → bool) (ns : list nat) : nat := length (List.filter p ns).

Lemma count_true_app p l1 l2 : count_true p (l1 ++ l2) = count_true p l1 + count_true p l2.
Proof. unfold count_true. by rewrite List.filter_app, length_app. Qed.

Lemma count_true_perm p l1 l2 : l1 ≡ₚ l2 → count_true p l1 = count_true p l2.
Proof.
  unfold count_true. induction 1 as [|x l1 l2 _ IH|x y l|l1 l2 l3 _ IH1 _ IH2]; simpl.
  - done.
  - destruct (p x); simpl; by rewrite IH.
  - by destruct (p x), (p y).
  - by rewrite IH1.
Qed.

(** From [a] to [b]: the same keys, [dr] more requests and [de] more errors
    in the totals. *)
Definition rot_step (dr de : nat) (a b : EnhancedAPIKeyRotator) : Prop :=
  api_keys b = api_keys a
  ∧ rotator_ok b
  ∧ total_requests (get_usage_stats b) = total_requests (get_usage_stats a) + dr
  ∧ total_errors (get_usage_stats b) = total_errors (get_usage_stats a) + de.

Lemma rot_step_refl a : rotator_ok a → rot_step 0 0 a a.
Proof. intros Hok. unfold rot_step. split; [done|]. split; [done|]. split; lia. Qed.

Lemma rot_step_trans dr1 de1 dr2 de2 a b c :
  rot_step dr1 de1 a b → rot_step dr2 de2 b c → rot_step (dr1 + dr2) (de1 + de2) a c.
Proof.
  intros (H1 & H2 & H3 & H4) (G1 & G2 & G3 & G4). unfold rot_step.
  split; [congruence|]. split; [done|]. split; lia.
Qed.

Lemma rotate_key_rot_step rnd r :
  rotator_ok r → ∃ key r', rotate_key rnd r = Ok (key, r') ∧ rot_step 0 0 r r'.
Proof.
  intros Hok. destruct (rotate_key_index rnd r Hok) as (key & i & -> & Hi & _).
  eexists _, _. split; [done|]. unfold rot_step. simpl.
  split; [done|]. split; [exact Hi|]. split; lia.
Qed.

Lemma configure_genai_rot_step raises rnd r :
  rotator_ok r →
  ∃ r', configure_genai raises rnd r = Ok (negb raises, r')
        ∧ rot_step 0 (if raises then 1 else 0) r r'.
Proof.
  intros Hok. unfold configure_genai.
  destruct (get_current_key_ok r Hok) as (k & -> & _). simpl.
  destruct raises; simpl.
  - destruct (mark_key_error_shape None rnd r Hok) as (k' & i & _ & -> & Hi & _).
    simpl. eexists. split; [done|]. unfold rot_step. simpl.
    split; [done|]. split; [exact Hi|]. split; [lia|apply sum_values_bump].
  - eexists. split; [done|]. by apply rot_step_refl.
Qed.

Lemma generate_batch_request_rot_step E n self :
  rotator_ok (api_rotator self) →
  ∃ self', generate_batch_request E n self = Ok self'
           ∧ rot_step 0 (if configure_raises E n then 1 else 0)
                      (api_rotator self) (api_rotator self').
Proof.
  intros Hok. unfold generate_batch_request.
  destruct (rotate_key_rot_step (random_rotation E n) (api_rotator self) Hok)
    as (k & r1 & -> & Hstep1). simpl.
  destruct (configure_genai_rot_step (configure_raises E n)
              (random_rotation_on_error E n) r1) as (r2 & -> & Hstep2); [apply Hstep1|].
  simpl. eexists. split; [done|]. simpl.
  apply (rot_step_trans 0 0 0 _ _ _ _ Hstep1 Hstep2).
Qed.

Lemma parse_and_filter_batch_rotator self batch_data :
  api_rotator (fst (_parse_and_filter_batch self batch_data)) = api_rotator self.
Proof.
  unfold _parse_and_filter_batch. destruct (Py.truthy batch_data); [|done]. simpl.
  destruct (filter_fold_account (Py.split LF (Py.strip batch_data)) self [] 0)
    as (self' & more & dups' & -> & _ & _ & _ & _ & _ & Hr & _).
  by destruct (0 <? dups').
Qed.

Lemma generate_batch_resume_rot_step E n self w :
  rotator_ok (api_rotator self) →
  rot_step (if call_returns E n then 1 else 0) 0
           (api_rotator self) (api_rotator (fst (fst (generate_batch_resume E n self w)))).
Proof.
  intros Hok. unfold generate_batch_resume, call_returns.
  destruct (generate_content_async E n) as [response|e]; simpl;
    [|by apply rot_step_refl].
  destruct (get_current_key_ok _ Hok) as (key & Hget & _).
  unfold increment_usage. rewrite Hget. simpl.
  assert (Hstep : rot_step 1 0 (api_rotator self)
            (set_key_usage_count
               (<[key:=get0 (key_usage_count (api_rotator self)) key + 1]>
                  (key_usage_count (api_rotator self))) (api_rotator self))).
  { unfold rot_step. simpl. split; [done|]. split; [exact Hok|].
    split; [apply sum_values_bump|lia]. }
  destruct (text response) as [t|e]; simpl; [|done].
  pose proof (parse_and_filter_batch_rotator
                (set_api_rotator
                   (set_key_usage_count
                      (<[key:=get0 (key_usage_count (api_rotator self)) key + 1]>
                         (key_usage_count (api_rotator self))) (api_rotator self)) self)
                (Py.strip t)) as Hrot.
  destruct (_parse_and_filter_batch _ (Py.strip t)) as [self' filtered].
  simpl in *. by rewrite Hrot.
Qed.

Lemma start_tasks_rot_step E w ns : ∀ self pending results,
  rotator_ok (api_rotator self) →
  ∃ self',
    foldl (start_task E) (self, w, pending, results) ns
      = (self', w, pending ++ ns, results)
    ∧ rot_step 0 (count_true (configure_raises E) ns)
               (api_rotator self) (api_rotator self').
Proof.
  induction ns as [|n ns IH]; intros self pending results Hok; cbn [foldl].
  { exists self. rewrite app_nil_r. split; [done|]. by apply rot_step_refl. }
  destruct (generate_batch_request_rot_step E n self Hok) as (self1 & Hreq & Hstep1).
  unfold start_task at 2. rewrite Hreq.
  destruct (IH self1 (pending ++ [n]) results) as (self' & -> & Hstep2).
  { apply Hstep1. }
  exists self'. rewrite <-app_assoc. split; [done|].
  pose proof (rot_step_trans _ _ _ _ _ _ _ Hstep1 Hstep2) as Hstep.
  unfold count_true. simpl. destruct (configure_raises E n); simpl in *; exact Hstep.
Qed.

Lemma resume_tasks_rot_step E l : ∀ self w results,
  rotator_ok (api_rotator self) →
  rot_step (count_true (call_returns E) l) 0 (api_rotator self)
    (api_rotator (fst (fst (foldl (resume_task E) (self, w, results) l)))).
Proof.
  induction l as [|n l IH]; intros self w results Hok; cbn [foldl].
  { by apply rot_step_refl. }
  pose proof (generate_batch_resume_rot_step E n self w Hok) as Hstep1.
  unfold resume_task at 2.
  destruct (generate_batch_resume E n self w) as [[self1 w1] r]. cbn [fst] in Hstep1.
  pose proof (IH self1 w1 (<[n := r]> results) (proj1 (proj2 Hstep1))) as Hstep2.
  pose proof (rot_step_trans _ _ _ _ _ _ _ Hstep1 Hstep2) as Hstep.
  unfold count_true. simpl. destruct (call_returns E n); simpl in *; exact Hstep.
Qed.

Lemma gather_rot_step E ns self w :
  rotator_ok (api_rotator self) →
  rot_step (count_true (call_returns E) ns) (count_true (configure_raises E) ns)
           (api_rotator self) (api_rotator (fst (fst (gather E ns self w)))).
Proof.
  intros Hok. unfold gather.
  destruct (start_tasks_rot_step E w ns self [] ∅ Hok) as (self1 & -> & Hstep1).
  pose proof (resume_tasks_rot_step E (completion_order E ([] ++ ns)) self1 w ∅
                (proj1 (proj2 Hstep1))) as Hstep2.
  destruct (foldl (resume_task E) (self1, w, ∅) (completion_order E ([] ++ ns)))
    as [[self2 w2] results].
  cbn [fst] in *.
  rewrite (count_true_perm _ _ _ (completion_order_perm E ([] ++ ns))) in Hstep2.
  pose proof (rot_step_trans _ _ _ _ _ _ _ Hstep1 Hstep2) as Hstep.
  simpl in Hstep. rewrite Nat.add_0_r in Hstep. exact Hstep.
Qed.

Lemma process_window_rot_step E i self w f :
  rotator_ok (api_rotator self) →
  let ns := window_batch_nums (config self) i in
  rot_step (count_true (call_returns E) ns) (count_true (configure_raises E) ns)
           (api_rotator self)
           (api_rotator (fst (fst (fst (process_window E i (self, w, f)))))).
Proof.
  intros Hok ns. unfold process_window. fold ns.
  pose proof (gather_rot_step E ns self w Hok) as Hstep.
  destruct (gather_spec E ns self w Hok) as (self1 & w1 & rs1 & Hg & _ & _ & Hres).
  rewrite Hg in Hstep |- *. cbn [fst] in Hstep.
  destruct (handle_results_spec E rs1 ns self1 w1 f) as (Hh & _ & _).
  { by eapply Forall2_length. }
  destruct (foldl (handle_result E) (self1, w1, f) (zip ns rs1)) as [[self2 w2] f2].
  cbn [fst snd] in Hh. destruct Hh as (_ & Hrot & _).
  destruct (_ =? 0); [cbn [fst]; by rewrite Hrot|].
  destruct (_ =? 0); cbn [fst]; by rewrite Hrot.
Qed.

Lemma process_windows_rot_step E starts : ∀ self w f,
  rotator_ok (api_rotator self) →
  backup_interval (config self) ≠ 0 →
  let ns := flat_map (window_batch_nums (config self)) starts in
  rot_step (count_true (call_returns E) ns) (count_true (configure_raises E) ns)
           (api_rotator self)
           (api_rotator (fst (fst (fst (process_windows E starts (self, w, f)))))).
Proof.
  induction starts as [|i starts IH]; intros self w f Hok Hint; cbn zeta.
  { by apply rot_step_refl. }
  pose proof (process_window_rot_step E i self w f Hok) as Hstep1. cbn zeta in Hstep1.
  destruct (process_window_spec E i self w f Hok Hint)
    as (self1 & w1 & f1 & Hwin & Hrun1 & _).
  cbn [process_windows flat_map]. rewrite Hwin in Hstep1 |- *. cbn [fst] in Hstep1.
  assert (Hcfg : config self1 = config self) by apply Hrun1.
  pose proof (IH self1 w1 f1 (proj1 (proj2 Hrun1))) as Hstep2.
  rewrite Hcfg in Hstep2. specialize (Hstep2 Hint). cbn zeta in Hstep2.
  rewrite !count_true_app.
  apply (rot_step_trans _ _ _ _ _ _ _ Hstep1 Hstep2).
Qed.

(** X19.  Over a whole run the pool of keys does not change, the total of
    requests in the rotator's statistics grows by the number of batches whose
    remote call returned a response, and the total of errors grows by the
    number of batches for which [genai.configure] raised: a remote call that
    fails is counted as a failed batch but never as an error of a key. *)
Theorem run_counts_requests_and_errors (E : Environment) (self : LeadGenerator) (w : World) :
  rotator_ok (api_rotator self) →
  concurrency_level (config self) ≠ 0 →
  backup_interval (config self) ≠ 0 →
  num_batches (config self) ≠ 0 →
  ∃ self' w',
    process_batches E self w = (self', w', Ok ())
    ∧ let ns := seq 1 (num_batches (config self)) in
      api_keys (api_rotator self') = api_keys (api_rotator self)
      ∧ total_requests (get_usage_stats (api_rotator self'))
        = total_requests (get_usage_stats (api_rotator self))
          + count_true (call_returns E) ns
      ∧ total_errors (get_usage_stats (api_rotator self'))
        = total_errors (get_usage_stats (api_rotator self))
          + count_true (configure_raises E) ns
      ∧ failed_batches (stats self') = failed_batches (stats self) + count_fails E ns.
Proof.
  intros Hok Hc Hint Hnb.
  destruct (process_batches_spec E self w Hok Hc Hint Hnb)
    as (starts & self' & w' & Hstarts & Hrun & Hstep & _).
  exists self', w'. split; [done|]. cbn zeta.
  pose proof (process_windows_rot_step E starts self w header Hok Hint) as Hrot.
  cbn zeta in Hrot. rewrite (windows_cover _ _ Hstarts) in Hrot.
  assert (Hself : fst (fst (fst (process_windows E starts (self, w, header)))) = self').
  { revert Hrun. unfold process_batches. rewrite Hstarts.
    destruct (process_windows E starts (self, w, header)) as [[[self1 w1] f1] [[]|e]].
    - unfold _log_final_stats. destruct (_ =? 0); by intros [= <- _].
    - by intros [= <- _]. }
  rewrite Hself in Hrot. destruct Hrot as (Hkeys & _ & Hreq & Herr).
  split; [done|]. split; [done|]. split; [done|]. apply Hstep.
Qed.

Lemma run_counts_requests_and_errors_witness :
  ∃ self' w',
    process_batches (env_of (two_of_four_fail long_line_a long_line_b))
      (generator0 (config_with 4 2 25)) empty_world = (self', w', Ok ())
    ∧ total_requests (get_usage_stats (api_rotator self')) = 3
    ∧ total_errors (get_usage_stats (api_rotator self')) = 0
    ∧ failed_batches (stats self') = 2.
Proof.
  destruct (run_counts_requests_and_errors
              (env_of (two_of_four_fail long_line_a long_line_b))
              (generator0 (config_with 4 2 25)) empty_world)
    as (self' & w' & Hrun & _ & Hreq & Herr & Hfailed).
  { unfold rotator_ok. simpl. lia. }
  { simpl. lia. }
  { simpl. lia. }
  { simpl. lia. }
  exists self', w'. split; [exact Hrun|].
  rewrite Hreq, Herr, Hfailed. vm_compute. repeat split.
Defined.

(** ** validate_email and its pattern *)

(** Every character of [s] is in the class [p]. *)
Fixpoint all_of (p : ascii → bool) (s : string) : bool :=
  match s with
  | EmptyString => true
  | String c s' => p c && all_of p s'
  end.

(** [s] does not go on with a character of the class [p]. *)
Definition stops (p : ascii → bool) (s : string) : Prop :=
  match s with
  | EmptyString => True
  | String c _ => p c = false
  end.

Lemma span_spec p s :
  s = fst (span p s) +:+ snd (span p s)
  ∧ all_of p (fst (span p s)) = true
  ∧ stops p (snd (span p s)).
Proof.
  induction s as [|c s IH]; simpl; [done|].
  destruct (p c) eqn:Hc; [|done].
  destruct (span p s) as [a b]. simpl in *. destruct IH as (IH1 & IH2 & IH3).
  rewrite str_app_cons, <-IH1, Hc, IH2. done.
Qed.

Lemma span_app p a b : all_of p a = true → stops p b → span p (a +:+ b) = (a, b).
Proof.
  intros Ha Hb. induction a as [|c a IH]; simpl.
  - destruct b as [|d b]; [done|]. simpl in *. by rewrite Hb.
  - simpl in Ha. apply andb_true_iff in Ha as [Hc Ha].
    rewrite ?str_app_cons. simpl. by rewrite Hc, IH.
Qed.

Lemma span_prefix p a b : all_of p a = true → ∃ y, fst (span p (a +:+ b)) = a +:+ y.
Proof.
  intros Ha. induction a as [|c a IH]; simpl.
  - by eexists.
  - simpl in Ha. apply andb_true_iff in Ha as [Hc Ha].
    destruct (IH Ha) as [y Hy]. exists y.
    rewrite ?str_app_cons. simpl. rewrite Hc.
    destruct (span p (a +:+ b)) as [x z]. simpl in *. by rewrite Hy.
Qed.

Lemma all_of_app p a b : all_of p (a +:+ b) = all_of p a && all_of p b.
Proof. induction a as [|c a IH]; simpl; [done|]. by rewrite IH, andb_assoc. Qed.

Lemma has_dot_alpha2_here pre a b x :
  is_alpha a = true → is_alpha b = true →
  has_dot_alpha2 (pre +:+ String "." (String a (String b x))) = true.
Proof.
  intros Ha Hb. induction pre as [|c pre IH].
  - simpl. by rewrite Ha, Hb.
  - rewrite str_app_cons.
    destruct (pre +:+ String "." (String a (String b x))) as [|d [|e rest]] eqn:E.
    + by destruct pre.
    + destruct pre as [|? [|? ?]]; discriminate.
    + change (has_dot_alpha2 (String c (String d (String e rest))))
        with ((Ascii.eqb c "." && is_alpha d && is_alpha e)
              || has_dot_alpha2 (String d (String e rest))).
      by rewrite IH, orb_true_r.
Qed.

Lemma has_dot_alpha2_inv s :
  has_dot_alpha2 s = true →
  ∃ pre a b post,
    s = pre +:+ String "." (String a (String b post))
    ∧ is_alpha a = true ∧ is_alpha b = true.
Proof.
  induction s as [|c s IH]; [done|].
  destruct s as [|a [|b post]]; [done|done|].
  change (has_dot_alpha2 (String c (String a (String b post))))
    with ((Ascii.eqb c "." && is_alpha a && is_alpha b)
          || has_dot_alpha2 (String a (String b post))).
  intros [H|H]%orb_true_iff.
  - apply andb_true_iff in H as [[Hc%Ascii.eqb_eq Ha]%andb_true_iff Hb]. subst c.
    by exists EmptyString, a, b, post.
  - destruct (IH H) as (pre & a' & b' & post' & Heq & Ha & Hb).
    exists (String c pre), a', b', post'. rewrite str_app_cons, <-Heq. done.
Qed.

(** The match of [validate_email] with the test on ["@"] written out. *)
Lemma validate_email_unfold email :
  validate_email email
  = (Py.truthy (fst (span local_char email))
     && match snd (span local_char email) with
        | String c after =>
            Ascii.eqb c "@"
            && match fst (span domain_char after) with
               | String _ tail => has_dot_alpha2 tail
               | EmptyString => false
               end
        | EmptyString => false
        end).
Proof.
  unfold validate_email. destruct (span local_char email) as [l rest]. simpl.
  destruct rest as [|c after]; [done|].
  by destruct c as [[] [] [] [] [] [] [] []].
Qed.

Lemma alpha_is_domain_char c : is_alpha c = true → domain_char c = true.
Proof. intros Hc. unfold domain_char, is_alnum. by rewrite Hc. Qed.

Lemma validate_email_elim email :
  validate_email email = true →
  ∃ local domain a b rest,
    email = local +:+ "@" +:+ domain +:+ "." +:+ String a (String b rest)
    ∧ local ≠ "" ∧ all_of local_char local = true
    ∧ domain ≠ "" ∧ all_of domain_char domain = true
    ∧ is_alpha a = true ∧ is_alpha b = true.
Proof.
  rewrite validate_email_unfold.
  destruct (span_spec local_char email) as (Heq & Hlocal & _).
  destruct (span local_char email) as [l rest]. simpl in *.
  intros [Hl Hrest]%andb_true_iff.
  destruct rest as [|c after]; [done|].
  apply andb_true_iff in Hrest as [Hc%Ascii.eqb_eq Hdom]. subst c.
  destruct (span_spec domain_char after) as (Heq2 & Hdomain & _).
  destruct (span domain_char after) as [d rest2]. simpl in *.
  destruct d as [|d0 tail]; [done|].
  destruct (has_dot_alpha2_inv tail Hdom) as (pre & a & b & post & -> & Ha & Hb).
  exists l, (String d0 pre), a, b, (post +:+ rest2).
  split.
  { rewrite Heq. f_equal. rewrite Heq2.
    change ("@" +:+ ?x) with (String "@" x). f_equal.
    change ("." +:+ ?x) with (String "." x).
    repeat (rewrite str_app_assoc || rewrite str_app_cons). done. }
  split; [by destruct l|]. split; [done|]. split; [done|].
  split; [|done].
  simpl in Hdomain. apply andb_true_iff in Hdomain as [Hd0 Htail].
  rewrite all_of_app in Htail. apply andb_true_iff in Htail as [Hpre _].
  simpl. by rewrite Hd0, Hpre.
Qed.

Lemma validate_email_intro local domain a b rest :
  local ≠ "" → all_of local_char local = true →
  domain ≠ "" → all_of domain_char domain = true →
  is_alpha a = true → is_alpha b = true →
  validate_email (local +:+ "@" +:+ domain +:+ "." +:+ String a (String b rest)) = true.
Proof.
  intros Hl Hlocal Hd Hdomain Ha Hb. rewrite validate_email_unfold.
  change ("@" +:+ ?x) with (String "@" x).
  rewrite (span_app local_char local) by done. simpl.
  destruct local as [|l0 local]; [done|]. simpl.
  change ("." +:+ ?x) with (String "." x).
  destruct domain as [|d0 domain]; [done|].
  simpl in Hdomain. apply andb_true_iff in Hdomain as [Hd0 Hdomain].
  destruct (span_prefix domain_char
              (String d0 domain +:+ String "." (String a (String b EmptyString))) rest)
    as [y Hy].
  { rewrite all_of_app. simpl. rewrite Hd0, Hdomain. simpl.
    by rewrite (alpha_is_domain_char a), (alpha_is_domain_char b). }
  repeat (rewrite str_app_assoc in Hy || rewrite str_app_cons in Hy).
  change (EmptyString +:+ rest) with rest in Hy.
  rewrite ?str_app_cons. rewrite Hy.
  repeat (rewrite str_app_assoc || rewrite str_app_cons).
  by apply has_dot_alpha2_here.
Qed.

(** X20.  [validate_email] accepts exactly the strings that begin with a
    match of the pattern: one or more characters of the local class, an
    ["@"], one or more characters of the domain class, a dot and two
    letters; anything may follow. *)
Theorem validate_email_matches_pattern (email : string) :
  validate_email email = true
  ↔ ∃ local domain a b rest,
      email = local +:+ "@" +:+ domain +:+ "." +:+ String a (String b rest)
      ∧ local ≠ "" ∧ all_of local_char local = true
      ∧ domain ≠ "" ∧ all_of domain_char domain = true
      ∧ is_alpha a = true ∧ is_alpha b = true.
Proof.
  split; [apply validate_email_elim|].
  intros (local & domain & a & b & rest & -> & Hl & Hlocal & Hd & Hdomain & Ha & Hb).
  by apply validate_email_intro.
Qed.

(** X21.  The pattern is anchored at the start only: an accepted address
    stays accepted whatever is appended to it.  An accepted address has six
    characters at least and holds an ["@"]. *)
Theorem validate_email_ignores_suffix (email suffix : string) :
  validate_email email = true →
  validate_email (email +:+ suffix) = true
  ∧ 6 ≤ String.length email
  ∧ Py.contains "@" email = true.
Proof.
  intros (local & domain & a & b & rest & -> & Hl & Hlocal & Hd & Hdomain & Ha & Hb)
    %validate_email_elim.
  split; [|split].
  - change ("." +:+ ?x) with (String "." x).
    change ("@" +:+ ?x) with (String "@" x).
    repeat (rewrite str_app_assoc || rewrite str_app_cons).
    apply (validate_email_intro local domain a b (rest +:+ suffix)); done.
  - rewrite !str_length_app. simpl.
    destruct local; [done|]. destruct domain; [done|]. simpl. lia.
  - rewrite contains_app. simpl. by rewrite orb_true_r.
Qed.

Lemma validate_email_ignores_suffix_witness :
  validate_email "info@acme.com" = true
  ∧ validate_email "info@acme.com, or call 555-0100" = true.
Proof.
  assert (Hvalid : validate_email "info@acme.com" = true) by reflexivity.
  split; [exact Hvalid|].
  apply (validate_email_ignores_suffix "info@acme.com" ", or call 555-0100" Hvalid).
Defined.

(** ** The follower count *)

Lemma search_suffixed_no_number suffix s :
  all_of (λ c, negb (num_char c)) s = true → search_suffixed suffix EmptyString s = None.
Proof.
  induction s as [|c s IH]; simpl; [done|].
  intros [Hc Hs]%andb_true_iff. apply negb_true_iff in Hc. rewrite Hc.
  rewrite andb_false_r. by apply IH.
Qed.

Lemma search_run_no_number s :
  all_of (λ c, negb (num_char c)) s = true → search_run EmptyString s = None.
Proof.
  induction s as [|c s IH]; simpl; [done|].
  intros [Hc Hs]%andb_true_iff. apply negb_true_iff in Hc. rewrite Hc. by apply IH.
Qed.

(** X22.  A follower text without any digit or dot counts as zero
    followers, whether or not it holds a ["k"] or an ["m"]; the conversion
    does not raise. *)
Theorem follower_text_without_number (follower_str : string) :
  all_of (λ c, negb (num_char c)) follower_str = true →
  parse_follower_count follower_str = Ok (float_of_int 0).
Proof.
  intros Hno. unfold parse_follower_count.
  rewrite !search_suffixed_no_number, search_run_no_number by done.
  destruct (Py.contains "k" follower_str); [done|].
  by destruct (Py.contains "m" follower_str).
Qed.

Lemma follower_text_without_number_witness :
  parse_follower_count "unknown" = Ok (float_of_int 0)
  ∧ parse_follower_count "n/a" = Ok (float_of_int 0).
Proof.
  split; apply follower_text_without_number; reflexivity.
Defined.

Lemma digit_is_num_char d : all_of Py.is_digit d = true → all_of num_char d = true.
Proof.
  induction d as [|c d IH]; simpl; [done|].
  intros [Hc Hd]%andb_true_iff. unfold num_char at 1. by rewrite Hc, IH.
Qed.

Lemma digits_lack c d :
  Py.is_digit c = false → all_of Py.is_digit d = true → Py.contains c d = false.
Proof.
  intros Hc. induction d as [|x d IH]; simpl; [done|].
  intros [Hx Hd]%andb_true_iff. rewrite IH by done.
  destruct (Ascii.eqb x c) eqn:E; [|done].
  apply Ascii.eqb_eq in E as ->. congruence.
Qed.

Lemma str_app_snoc_assoc run c d :
  (run +:+ String c EmptyString) +:+ d = run +:+ String c d.
Proof. by rewrite str_app_assoc. Qed.

Lemma search_suffixed_run suffix d : ∀ run rest,
  all_of num_char d = true →
  Py.truthy (run +:+ d) = true →
  num_char suffix = false →
  search_suffixed suffix run (d +:+ String suffix rest) = Some (run +:+ d).
Proof.
  induction d as [|c d IH]; intros run rest Hd Hrun Hsuffix.
  - rewrite str_app_nil_r in Hrun |- *. simpl.
    by rewrite Hsuffix, Ascii.eqb_refl, Hrun.
  - simpl in Hd. apply andb_true_iff in Hd as [Hc Hd].
    rewrite ?str_app_cons. simpl. rewrite Hc.
    rewrite IH; [by rewrite str_app_snoc_assoc|done| |done].
    rewrite str_app_snoc_assoc. by destruct run.
Qed.

Lemma search_run_whole d : ∀ run,
  all_of num_char d = true →
  Py.truthy (run +:+ d) = true →
  search_run run d = Some (run +:+ d).
Proof.
  induction d as [|c d IH]; intros run Hd Hrun.
  - rewrite str_app_nil_r in Hrun |- *. simpl. by rewrite Hrun.
  - simpl in Hd. apply andb_true_iff in Hd as [Hc Hd]. simpl. rewrite Hc.
    rewrite IH; [by rewrite str_app_snoc_assoc|done|].
    rewrite str_app_snoc_assoc. by destruct run.
Qed.

(** ** Follower counts as binary64 numbers *)

(** The integer a binary64 holds, when it holds one. *)
Definition float_integer (f : spec_float) : option Z :=
  match f with
  | S754_zero _ => Some 0%Z
  | S754_finite s m e =>
      let sign := if s then (-1)%Z else 1%Z in
      if (0 <=? e)%Z then Some (sign * (Z.pos m * 2 ^ e))%Z
      else if (Z.pos m mod 2 ^ (- e) =? 0)%Z then Some (sign * (Z.pos m / 2 ^ (- e)))%Z
      else None
  | _ => None
  end.

Section Binary64.
Local Open Scope Z_scope.

Lemma digits2_pos_bounds p :
  2 ^ (Z.pos (digits2_pos p) - 1) ≤ Z.pos p < 2 ^ Z.pos (digits2_pos p).
Proof.
  induction p as [p IH|p IH|]; simpl digits2_pos.
  - rewrite Pos2Z.inj_succ.
    replace (Z.succ (Z.pos (digits2_pos p)) - 1) with (Z.succ (Z.pos (digits2_pos p) - 1)) by lia.
    rewrite !Z.pow_succ_r by lia. lia.
  - rewrite Pos2Z.inj_succ.
    replace (Z.succ (Z.pos (digits2_pos p)) - 1) with (Z.succ (Z.pos (digits2_pos p) - 1)) by lia.
    rewrite !Z.pow_succ_r by lia. lia.
  - simpl. lia.
Qed.

Lemma digits2_pos_unique p d :
  2 ^ (d - 1) ≤ Z.pos p < 2 ^ d → Z.pos (digits2_pos p) = d.
Proof.
  intros [Hlo Hhi]. pose proof (digits2_pos_bounds p) as [Hlo' Hhi'].
  assert (0 < d).
  { destruct (Z_lt_le_dec 0 d) as [|Hd]; [done|].
    destruct (Z.eq_dec d 0) as [->|]; [simpl in Hhi; lia|].
    rewrite (Z.pow_neg_r 2 d) in Hhi by lia. lia. }
  destruct (Z_lt_le_dec (Z.pos (digits2_pos p)) d) as [Hlt|Hge].
  - assert (2 ^ Z.pos (digits2_pos p) ≤ 2 ^ (d - 1)) by (apply Z.pow_le_mono_r; lia). lia.
  - destruct (Z.eq_dec (Z.pos (digits2_pos p)) d) as [|Hne]; [done|].
    assert (2 ^ d ≤ 2 ^ (Z.pos (digits2_pos p) - 1)) by (apply Z.pow_le_mono_r; lia). lia.
Qed.

Lemma pos_pow_double (k : positive) : (2 ^ k~0 = 2 ^ k * 2 ^ k)%positive.
Proof.
  apply Pos2Z.inj. rewrite Pos2Z.inj_mul, !Pos2Z.inj_pow, (Pos2Z.inj_xO k).
  replace (2 * Z.pos k) with (Z.pos k + Z.pos k) by lia.
  by rewrite Z.pow_add_r by lia.
Qed.

Lemma pos_pow_double_succ (k : positive) : (2 ^ k~1 = xO (2 ^ k * 2 ^ k))%positive.
Proof. by rewrite Pos.xI_succ_xO, Pos.pow_succ_r, pos_pow_double. Qed.

(** Shifting right by [k] a mantissa that ends in [k] zero bits loses nothing. *)
Lemma shr_trailing_zeros (k a : positive) :
  SpecFloat.iter_pos shr_1 k {| shr_m := Z.pos (a * 2 ^ k); shr_r := false; shr_s := false |}
  = {| shr_m := Z.pos a; shr_r := false; shr_s := false |}.
Proof.
  revert a. induction k as [k IH|k IH|]; intros a; simpl SpecFloat.iter_pos.
  - rewrite pos_pow_double_succ.
    replace (a * (2 ^ k * 2 ^ k)~0)%positive with (xO ((a * 2 ^ k) * 2 ^ k))%positive by lia.
    simpl shr_1. by rewrite !IH.
  - rewrite pos_pow_double, Pos.mul_assoc. by rewrite !IH.
  - by rewrite Pos.pow_1_r, Pos.mul_comm.
Qed.

(** A mantissa of 53 bits followed by [k] zero bits is not rounded. *)
Lemma round_exact (a : positive) (k e : Z) :
  2 ^ 52 ≤ Z.pos a < 2 ^ 53 → 0 ≤ k → -1074 ≤ e + k ≤ 971 →
  binary_round_aux 53 1024 false (Z.pos a * 2 ^ k) e loc_Exact
  = S754_finite false a (e + k).
Proof.
  intros Ha Hk He.
  assert (Hpow : 0 < 2 ^ k) by (apply Z.pow_pos_nonneg; lia).
  assert (Hdigits : Zdigits2 (Z.pos a * 2 ^ k) = 53 + k).
  { destruct (Z.pos a * 2 ^ k) as [|p|p] eqn:E; try lia.
    simpl. apply digits2_pos_unique. rewrite <-E.
    replace (53 + k - 1) with (52 + k) by lia. rewrite !Z.pow_add_r by lia. nia. }
  unfold binary_round_aux, shr_fexp. rewrite Hdigits.
  replace (fexp 53 1024 (53 + k + e) - e) with k by (unfold fexp, emin; lia).
  assert (Hshr : shr (shr_record_of_loc (Z.pos a * 2 ^ k) loc_Exact) e k
                 = ({| shr_m := Z.pos a; shr_r := false; shr_s := false |}, e + k)).
  { destruct k as [|k|k]; [|rewrite <-Pos2Z.inj_pow|lia].
    - simpl. f_equal; [|lia]. f_equal. lia.
    - simpl shr. f_equal. apply shr_trailing_zeros. }
  rewrite Hshr. simpl round_nearest_even.
  assert (Hd : Zdigits2 (Z.pos a) = 53) by (by apply digits2_pos_unique).
  rewrite Hd.
  replace (fexp 53 1024 (53 + (e + k)) - (e + k)) with 0 by (unfold fexp, emin; lia).
  simpl shr. simpl shr_m. cbv iota beta.
  destruct (Z.leb_spec (e + k) (1024 - 53)); [done|lia].
Qed.

(** The binary64 that holds the integer [n], for [0 < n < 2^53]: the
    mantissa is [n] shifted to 53 bits. *)
Definition exact_float (n : Z) : spec_float :=
  S754_finite false (Z.to_pos (n * 2 ^ (52 - Z.log2 n))) (Z.log2 n - 52).

Lemma exact_mantissa n :
  0 < n < 2 ^ 53 →
  0 ≤ Z.log2 n ≤ 52 ∧ 2 ^ 52 ≤ n * 2 ^ (52 - Z.log2 n) < 2 ^ 53.
Proof.
  intros Hn. pose proof (Z.log2_spec n ltac:(lia)) as [Hlo Hhi].
  pose proof (Z.log2_nonneg n).
  assert (Z.log2 n < 53) by (apply Z.log2_lt_pow2; lia).
  split; [lia|].
  assert (H52 : 2 ^ 52 = 2 ^ Z.log2 n * 2 ^ (52 - Z.log2 n)).
  { rewrite <-Z.pow_add_r by lia. f_equal. lia. }
  assert (H53 : 2 ^ 53 = 2 ^ Z.succ (Z.log2 n) * 2 ^ (52 - Z.log2 n)).
  { rewrite <-Z.pow_add_r by lia. f_equal. lia. }
  assert (0 < 2 ^ (52 - Z.log2 n)) by (apply Z.pow_pos_nonneg; lia).
  rewrite H52, H53. split.
  - apply Z.mul_le_mono_nonneg_r; lia.
  - apply Z.mul_lt_mono_pos_r; lia.
Qed.

(** Rounding [n * 2^j] at exponent [-j] gives [n] back. *)
Lemma round_integer n j :
  0 < n < 2 ^ 53 → 52 - Z.log2 n ≤ j →
  binary_round_aux 53 1024 false (n * 2 ^ j) (- j) loc_Exact = exact_float n.
Proof.
  intros Hn Hj. destruct (exact_mantissa n Hn) as [Hlog Hm].
  unfold exact_float.
  replace (n * 2 ^ j)
    with (Z.pos (Z.to_pos (n * 2 ^ (52 - Z.log2 n))) * 2 ^ (j - (52 - Z.log2 n))).
  - rewrite round_exact; [f_equal; lia| |lia|lia].
    rewrite Z2Pos.id by lia. done.
  - rewrite Z2Pos.id by lia. rewrite <-Z.mul_assoc, <-Z.pow_add_r by lia.
    f_equal. f_equal. lia.
Qed.

Lemma pos_iter_xO (p d : positive) : Z.pos (Pos.iter xO p d) = Z.pos p * 2 ^ Z.pos d.
Proof.
  induction d as [|d IH] using Pos.peano_ind.
  - simpl. lia.
  - rewrite Pos.iter_succ, Pos2Z.inj_xO, IH, Pos2Z.inj_succ, Z.pow_succ_r by lia. lia.
Qed.

Lemma digits2_pos_log2 p : Z.pos (digits2_pos p) = Z.log2 (Z.pos p) + 1.
Proof.
  apply digits2_pos_unique.
  pose proof (Z.log2_spec (Z.pos p) ltac:(lia)) as Hspec.
  replace (Z.log2 (Z.pos p) + 1 - 1) with (Z.log2 (Z.pos p)) by lia.
  replace (Z.log2 (Z.pos p) + 1) with (Z.succ (Z.log2 (Z.pos p))) by lia. done.
Qed.

(** [float(n)] of an [int] below 2^53 is exact. *)
Lemma float_of_int_exact n : 0 < n < 2 ^ 53 → float_of_int n = exact_float n.
Proof.
  intros Hn. destruct (exact_mantissa n Hn) as [Hlog Hm].
  destruct n as [|p|p]; try lia.
  unfold float_of_int, binary_normalize, binary_round.
  rewrite digits2_pos_log2.
  replace (fexp 53 1024 (Z.log2 (Z.pos p) + 1 + 0)) with (Z.log2 (Z.pos p) - 52)
    by (unfold fexp, emin; lia).
  unfold shl_align.
  destruct (Z.log2 (Z.pos p) - 52 - 0) as [|d|d] eqn:E; try lia.
  - replace (Z.pos p) with (Z.pos p * 2 ^ 0) at 1 by lia.
    change 0 with (- 0) at 2. apply round_integer; lia.
  - rewrite pos_iter_xO.
    replace (Z.log2 (Z.pos p) - 52) with (- Z.pos d) by lia.
    apply round_integer; lia.
Qed.

(** The conversion of a run of digits whose number is below 2^53 is exact. *)
Lemma float_of_ratio_exact n :
  0 < n < 2 ^ 53 → float_of_ratio (Z.to_N n) 1 = exact_float n.
Proof.
  intros Hn. destruct (exact_mantissa n Hn) as [Hlog Hm].
  destruct n as [|p|p]; try lia.
  unfold float_of_ratio. simpl Z.to_N. unfold SFdiv, SFdiv_core_binary.
  unfold Zdigits2. rewrite digits2_pos_log2. simpl (digits2_pos 1).
  replace (Z.min (fexp 53 1024 (Z.log2 (Z.pos p) + 1 + 0 - (1 + 0))) (0 - 0))
    with (- (53 - Z.log2 (Z.pos p))) by (unfold fexp, emin; lia).
  replace (0 - 0 - - (53 - Z.log2 (Z.pos p))) with (53 - Z.log2 (Z.pos p)) by lia.
  destruct (53 - Z.log2 (Z.pos p)) as [|s|s] eqn:E; try lia.
  rewrite Z.shiftl_mul_pow2 by lia.
  destruct (Z.div_eucl (Z.pos p * 2 ^ Z.pos s) 1) as [q r] eqn:Hdiv.
  assert (Hq : q = Z.pos p * 2 ^ Z.pos s ∧ r = 0).
  { pose proof (Z.div_1_r (Z.pos p * 2 ^ Z.pos s)) as H1.
    pose proof (Z.mod_1_r (Z.pos p * 2 ^ Z.pos s)) as H2.
    unfold Z.div, Z.modulo in H1, H2. rewrite Hdiv in H1, H2. by subst. }
  destruct Hq as [-> ->]. simpl xorb. cbn [new_location Z.even new_location_odd Z.eqb].
  apply round_integer; lia.
Qed.

Lemma float_mul_exact a b :
  0 < a → 0 < b → a * b < 2 ^ 53 →
  float_mul (exact_float a) (exact_float b) = exact_float (a * b).
Proof.
  intros Ha Hb Hab.
  assert (Ha' : 0 < a < 2 ^ 53) by nia.
  assert (Hb' : 0 < b < 2 ^ 53) by nia.
  destruct (exact_mantissa a Ha') as [Hla Hma].
  destruct (exact_mantissa b Hb') as [Hlb Hmb].
  unfold float_mul, exact_float, SFmul. simpl xorb.
  rewrite Pos2Z.inj_mul, !Z2Pos.id by lia.
  replace (a * 2 ^ (52 - Z.log2 a) * (b * 2 ^ (52 - Z.log2 b)))
    with (a * b * 2 ^ (104 - Z.log2 a - Z.log2 b)).
  2:{ replace (104 - Z.log2 a - Z.log2 b) with ((52 - Z.log2 a) + (52 - Z.log2 b)) by lia.
      rewrite Z.pow_add_r by lia. lia. }
  replace (Z.log2 a - 52 + (Z.log2 b - 52)) with (- (104 - Z.log2 a - Z.log2 b)) by lia.
  apply round_integer; [lia|].
  assert (Z.log2 a + Z.log2 b ≤ Z.log2 (a * b)); [|lia].
  apply Z.log2_le_pow2; [lia|].
  rewrite Z.pow_add_r by lia.
  pose proof (Z.log2_spec a ltac:(lia)). pose proof (Z.log2_spec b ltac:(lia)).
  assert (0 < 2 ^ Z.log2 a) by (apply Z.pow_pos_nonneg; lia).
  assert (0 < 2 ^ Z.log2 b) by (apply Z.pow_pos_nonneg; lia). nia.
Qed.

Lemma float_integer_exact n : 0 < n < 2 ^ 53 → float_integer (exact_float n) = Some n.
Proof.
  intros Hn. destruct (exact_mantissa n Hn) as [Hlog Hm].
  unfold float_integer, exact_float. rewrite Z2Pos.id by lia.
  assert (Hpow : 0 < 2 ^ (52 - Z.log2 n)) by (apply Z.pow_pos_nonneg; lia).
  destruct (Z.leb_spec 0 (Z.log2 n - 52)) as [Hle|Hlt].
  - replace (Z.log2 n - 52) with 0 by lia. replace (52 - Z.log2 n) with 0 by lia.
    f_equal. lia.
  - replace (- (Z.log2 n - 52)) with (52 - Z.log2 n) by lia.
    rewrite Z.mod_mul, Z.div_mul by lia. simpl. f_equal. lia.
Qed.

Lemma float_of_digits n : 0 ≤ n < 2 ^ 53 → float_of_ratio (Z.to_N n) 1 = float_of_int n.
Proof.
  intros Hn. destruct (Z.eq_dec n 0) as [->|Hne]; [done|].
  rewrite float_of_ratio_exact, float_of_int_exact by lia. done.
Qed.

Lemma float_mul_int a b :
  0 ≤ a → 0 < b < 2 ^ 53 → a * b < 2 ^ 53 →
  float_mul (float_of_int a) (float_of_int b) = float_of_int (a * b).
Proof.
  intros Ha Hb Hab. destruct (Z.eq_dec a 0) as [->|Hne].
  - rewrite (float_of_int_exact b) by lia. done.
  - rewrite (float_of_int_exact a), (float_of_int_exact b), (float_of_int_exact (a * b))
      by nia.
    apply float_mul_exact; lia.
Qed.

Lemma float_integer_int n : 0 ≤ n < 2 ^ 53 → float_integer (float_of_int n) = Some n.
Proof.
  intros Hn. destruct (Z.eq_dec n 0) as [->|Hne]; [done|].
  rewrite float_of_int_exact by lia. apply float_integer_exact. lia.
Qed.

End Binary64.

Lemma py_float_digits d :
  d ≠ EmptyString → all_of Py.is_digit d = true →
  py_float d = Ok (float_of_ratio (digits_value 0 d) 1).
Proof.
  intros Hne Hd. unfold py_float.
  rewrite (split_single "." d) by (by apply digits_lack).
  by destruct d.
Qed.

(** X23.  A follower text made of digits is read as that number; followed
    by ["k"] it is read as a thousand times the number, and followed by
    ["m"] as a million times the number.  The count is that integer exactly
    as long as it stays below 2^53; a longer text is rounded to the nearest
    binary64, so that 2^53 + 1 is read as 2^53 and a text of nines just
    below 1000 as 1000. *)
Theorem follower_count_suffixes (digits : string) :
  digits ≠ EmptyString →
  all_of Py.is_digit digits = true →
  let n := Z.of_N (digits_value 0 digits) in
  ((n < 2 ^ 53)%Z →
   parse_follower_count digits = Ok (float_of_int n)
   ∧ float_integer (float_of_int n) = Some n)
  ∧ ((n * 1000 < 2 ^ 53)%Z →
     parse_follower_count (digits +:+ "k") = Ok (float_of_int (n * 1000))
     ∧ float_integer (float_of_int (n * 1000)) = Some (n * 1000)%Z)
  ∧ ((n * 1000000 < 2 ^ 53)%Z →
     parse_follower_count (digits +:+ "m") = Ok (float_of_int (n * 1000000))
     ∧ float_integer (float_of_int (n * 1000000)) = Some (n * 1000000)%Z)
  ∧ parse_follower_count "9007199254740993" = Ok (float_of_int 9007199254740992)
  ∧ parse_follower_count "999.99999999999999999" = Ok (float_of_int 1000).
Proof.
  intros Hne Hd n.
  pose proof (digit_is_num_char digits Hd) as Hnum.
  assert (Htruthy : Py.truthy (EmptyString +:+ digits) = true) by (by destruct digits).
  pose proof (py_float_digits digits Hne Hd) as Hfloat.
  assert (Hn : (0 ≤ n)%Z) by (unfold n; lia).
  assert (Hvalue : digits_value 0 digits = Z.to_N n) by (unfold n; by rewrite N2Z.id).
  rewrite Hvalue in Hfloat.
  unfold parse_follower_count. split; [|split; [|split; [|by vm_compute]]].
  - intros Hlt. split; [|apply float_integer_int; lia].
    rewrite (digits_lack "k"), (digits_lack "m") by done.
    rewrite (search_run_whole digits EmptyString Hnum Htruthy).
    change (EmptyString +:+ digits) with digits.
    rewrite Hfloat. f_equal. apply float_of_digits. lia.
  - intros Hlt. split; [|apply float_integer_int; lia].
    rewrite contains_app. simpl Py.contains. rewrite orb_true_r.
    rewrite (search_suffixed_run "k" digits EmptyString EmptyString Hnum Htruthy eq_refl).
    change (EmptyString +:+ digits) with digits. rewrite Hfloat.
    cbn [mbind result_bind]. f_equal.
    rewrite float_of_digits by lia. apply float_mul_int; lia.
  - intros Hlt. split; [|apply float_integer_int; lia].
    rewrite !contains_app. simpl Py.contains.
    rewrite (digits_lack "k"), (digits_lack "m") by done. simpl orb.
    rewrite (search_suffixed_run "m" digits EmptyString EmptyString Hnum Htruthy eq_refl).
    change (EmptyString +:+ digits) with digits. rewrite Hfloat.
    cbn [mbind result_bind]. f_equal.
    rewrite float_of_digits by lia. apply float_mul_int; lia.
Qed.

Lemma follower_count_suffixes_witness :
  parse_follower_count "250" = Ok (float_of_int 250)
  ∧ parse_follower_count "12k" = Ok (float_of_int 12000)
  ∧ parse_follower_count "3m" = Ok (float_of_int 3000000).
Proof.
  destruct (follower_count_suffixes "250") as (H1 & _); [done|reflexivity|].
  destruct (follower_count_suffixes "12") as (_ & H2 & _); [done|reflexivity|].
  destruct (follower_count_suffixes "3") as (_ & _ & H3 & _); [done|reflexivity|].
  split; [exact (proj1 (H1 eq_refl))|].
  split; [exact (proj1 (H2 eq_refl))|exact (proj1 (H3 eq_refl))].
Defined.

(** ** Scores that are not numbers *)

(** X24.  A row whose social presence score or content frequency score is
    not a number is a moderate adopter whatever its other cells hold: the
    score is NaN, NaN is truthy so [or 0] keeps it, and every comparison
    with NaN is false. *)
Theorem unparsed_score_is_moderate (row : Series) :
  current_social_presence_score row = NaN ∨ content_frequency_score row = NaN →
  calculate_adoption_level row = "moderate_adopter".
Proof.
  intros Hnan. unfold calculate_adoption_level. rewrite classifier_body.
  destruct (parse_follower_count _) as [followers|e]; [|done].
  destruct Hnan as [-> | ->]; simpl.
  - done.
  - by rewrite !andb_false_r.
Qed.

Lemma unparsed_score_is_moderate_witness :
  calculate_adoption_level
    {| current_social_presence_score := NaN;
       content_frequency_score := Num 1;
       opportunity_score := Num 70;
       instagram_presence := "none";
       tiktok_presence := "none";
       youtube_shorts_presence := "none";
       follower_count_estimate := "500" |}
  = "moderate_adopter".
Proof.
  apply unparsed_score_is_moderate. by left.
Defined.

(** ** The prompts *)

Lemma current_focus_mod n :
  current_focus n = item INDUSTRY_ROTATIONS (n mod 8).
Proof. reflexivity. Qed.

Lemma current_focus_ok n : ∃ focus, current_focus n = Ok focus ∧ focus ∈ INDUSTRY_ROTATIONS.
Proof.
  rewrite current_focus_mod. unfold item.
  pose proof (Nat.mod_upper_bound n 8) as Hlt.
  destruct (lookup_lt_is_Some_2 INDUSTRY_ROTATIONS (n mod 8)) as [focus Hfocus].
  { simpl. lia. }
  rewrite Hfocus. exists focus. split; [done|]. by eapply list_elem_of_lookup_2.
Qed.

(** The eight industries taken in turn from position [r]. *)
Lemma focus_window n :
  map current_focus (seq n 8)
  = map Ok (drop (n mod 8) INDUSTRY_ROTATIONS ++ take (n mod 8) INDUSTRY_ROTATIONS).
Proof.
  assert (Hshift : ∀ j, current_focus (j + n) = item INDUSTRY_ROTATIONS ((j + n mod 8) mod 8)).
  { intros j. rewrite current_focus_mod. by rewrite Nat.Div0.add_mod_idemp_r. }
  change (map current_focus (seq n 8))
    with [current_focus (0 + n); current_focus (1 + n); current_focus (2 + n);
          current_focus (3 + n); current_focus (4 + n); current_focus (5 + n);
          current_focus (6 + n); current_focus (7 + n)].
  rewrite !Hshift.
  pose proof (Nat.mod_upper_bound n 8) as Hlt.
  destruct (n mod 8) as [|[|[|[|[|[|[|[|r]]]]]]]]; try reflexivity. lia.
Qed.

(** X25.  Building the prompt of a batch never raises: the industry index
    is the batch number modulo eight, which is a position of the list.  The
    focus comes back every eight batches, and any eight consecutive batches
    are given the eight industries, each once. *)
Theorem prompt_focus_cycles (batch_number leads_per_batch : nat) :
  (∃ focus prompt,
     current_focus batch_number = Ok focus
     ∧ focus ∈ INDUSTRY_ROTATIONS
     ∧ generate_prompt batch_number leads_per_batch = Ok prompt)
  ∧ current_focus (batch_number + 8) = current_focus batch_number
  ∧ map current_focus (seq batch_number 8) ≡ₚ map Ok INDUSTRY_ROTATIONS.
Proof.
  split; [|split].
  - destruct (current_focus_ok batch_number) as (focus & Hfocus & Hin).
    exists focus. unfold generate_prompt. rewrite Hfocus. simpl. by eexists.
  - rewrite !current_focus_mod.
    replace (batch_number + 8) with (batch_number + 1 * 8) by lia.
    by rewrite Nat.Div0.mod_add.
  - rewrite focus_window. apply fmap_Permutation.
    rewrite Permutation_app_comm. by rewrite take_drop.
Qed.

(** The header row the prompt asks for. *)
Definition requested_header : string :=
  default EmptyString (BASE_PROMPT_lines !! 9).

(** X26.  The column list the prompt asks the model to follow is the header
    row [process_batches] writes at the top of the master file, and a
    response that echoes this row has it dropped by the filter: a response
    made of the header alone gives the empty text, registers nothing and
    counts no duplicate. *)
Theorem prompt_header_is_file_header (self : LeadGenerator) :
  Py.split LF BASE_PROMPT !! 10 = Some requested_header
  ∧ header = requested_header +:+ newline
  ∧ skipped_line requested_header = true
  ∧ _parse_and_filter_batch self header = (self, "")
  ∧ _parse_and_filter_batch self requested_header = (self, "").
Proof.
  split; [by vm_compute|]. split; [by vm_compute|]. split; [by vm_compute|].
  assert (Hstep : ∀ st, filter_step st requested_header = st).
  { intros st. apply filter_step_skip. left. by vm_compute. }
  split.
  - unfold _parse_and_filter_batch.
    change (Py.truthy header) with true. cbn [negb].
    replace (Py.split LF (Py.strip header)) with [requested_header]
      by (by vm_compute).
    cbn [foldl]. by rewrite Hstep.
  - unfold _parse_and_filter_batch.
    change (Py.truthy requested_header) with true. cbn [negb].
    replace (Py.split LF (Py.strip requested_header)) with [requested_header]
      by (by vm_compute).
    cbn [foldl]. by rewrite Hstep.
Qed.

Lemma last_items_length n l : length (last_items n l) = Nat.min n (length l).
Proof. unfold last_items. rewrite length_drop. lia. Qed.

(** X27.  Building the enhanced prompt never raises, so the request of a
    batch cannot fail before the remote call for want of a prompt.  Each of
    the two lists it shows holds at most twenty entries, all of them taken
    from the set and none twice; when the set is empty the text says
    ["None yet"]. *)
Theorem enhanced_prompt_never_raises
    (o : SetOrder) (self : LeadGenerator) (batch_number : nat) (s : gset string) :
  (∃ prompt, _get_enhanced_prompt o self batch_number = Ok prompt)
  ∧ length (last_items 20 (listing o s)) = Nat.min 20 (size s)
  ∧ (∀ entry, entry ∈ last_items 20 (listing o s) → entry ∈ s)
  ∧ NoDup (last_items 20 (listing o s))
  ∧ recently_generated o ∅ = "None yet".
Proof.
  split; [|split; [|split; [|split]]].
  - unfold _get_enhanced_prompt.
    unfold generate_prompt.
    destruct (current_focus_ok batch_number) as (focus & -> & _). simpl. by eexists.
  - rewrite last_items_length. f_equal.
    unfold size, set_size. simpl. by rewrite (listing_perm o).
  - intros entry Hin. unfold last_items in Hin.
    eapply elem_of_sublist in Hin; [|apply sublist_drop].
    rewrite (listing_perm o) in Hin. by apply elem_of_elements.
  - unfold last_items. eapply sublist_NoDup; [|apply sublist_drop].
    rewrite (listing_perm o). apply NoDup_elements.
  - reflexivity.
Qed.

(** ** main, end to end *)

Lemma default_files_differ ts :
  output_file (Config_default ts) ≠ backup_file (Config_default ts).
Proof. simpl. rewrite !str_app_cons. discriminate. Qed.

Section MainFacts.
Context `{Pandas}.

Lemma segment_leads_files cfg w : files (segment_leads true cfg w) = files w.
Proof.
  destruct (segment_before_rewrite_raises cfg w) as (w1 & e & Hb & Hfiles).
  apply segment_body_before in Hb. apply segment_leads_caught in Hb.
  by rewrite Hb.
Qed.

End MainFacts.

(** X28.  Without a key of the expected format [main] exits with status 1
    before any file is touched.  With one it runs the 667 batches of the
    default configuration to the end whatever the remote calls do, reports
    that all processing completed, and leaves the files as the generation
    phase wrote them: the segmentation pass that follows changes no file, so
    the master file is the header followed by the texts of the completed
    batches and the backup holds the entries of these batches. *)
Theorem main_end_to_end `{Pandas}
    (o : SetOrder) (environ : gmap string string) (ts : string)
    (E : Environment) (pandas_available : bool) (w : World) :
  (_load_api_keys o environ = [] →
   main o environ ts E pandas_available w = (w, SystemExit 1))
  ∧ (_load_api_keys o environ ≠ [] →
     ∃ generator self' w',
       LeadGenerator_create o environ (Config_default ts) = Some generator
       ∧ process_batches E generator w = (self', w', Ok ())
       ∧ snd (main o environ ts E pandas_available w) = AllCompleted
       ∧ files (fst (main o environ ts E pandas_available w)) = files w'
       ∧ files w' !! output_file (Config_default ts)
         = Some (Text (header +:+ written (map entry_data (backup_data self'))))
       ∧ files w' !! backup_file (Config_default ts) = Some (Json (backup_data self'))
       ∧ completed_batches (stats self') = length (backup_data self')).
Proof.
  split.
  - intros Hkeys. unfold main, LeadGenerator_create, LeadGenerator_init.
    by rewrite Hkeys.
  - intros Hkeys. unfold main, LeadGenerator_create, LeadGenerator_init.
    destruct (_load_api_keys o environ) as [|key keys] eqn:Hload; [done|].
    simpl.
    set (generator := {| config := Config_default ts |}).
    destruct (process_batches_spec E generator w)
      as (starts & self' & w' & _ & Hrun & Hstep & _ & Hfile & Hbackup & _).
    { unfold rotator_ok. simpl. lia. }
    { simpl. lia. }
    { simpl. lia. }
    { simpl. lia. }
    specialize (Hfile (default_files_differ ts)).
    destruct Hstep as (_ & _ & _ & _ & Hcompleted & Hdata).
    simpl in Hdata, Hcompleted.
    exists generator, self', w'. rewrite Hrun.
    split; [done|]. split; [done|]. split; [done|].
    split. { destruct pandas_available; [apply segment_leads_files|done]. }
    split; [by rewrite Hdata|]. split; [done|].
    by rewrite Hcompleted, <-(length_map entry_data), Hdata.
Qed.
